(** * Spec-Bench result publishing: a shallow embedding of [upload_results.py]

    Part I is the embedding, in the order of the Python module:
    - Python values the module manipulates (strings as code-point lists,
      dictionaries in insertion order, decoded JSON, exceptions);
    - [sanitize_branch_name];
    - the metric aggregation of [MLflowLogger._parse_benchmark_results];
    - the collaborators ([LakeFSUploader], [MLflowLogger]) over an explicit
      trace of calls to the outside world;
    - the orchestration ([upload_single_result], [upload_benchmark_results],
      [main]) and the process exit status.
    Part II states and proves the properties; Part III adds properties of
    the functions and paths Part II leaves aside.

    A number is an [int] of any size or a [float]; a float is given by its
    exact value, a rational ([Q]): the conversion of an [int] that is too
    large raises [OverflowError] as in Python, but the IEEE rounding of
    results, NaN and infinities are not modelled.  Calls to [logging] and
    [print] have no influence on control flow and are left out. *)

From Stdlib Require Import QArith Qabs Qminmax Lqa.
From stdpp Require Import gmap strings list pretty.
From Stdlib Require Import Ascii.


(** * Part I: the embedding *)

(** ** Python strings *)

(** A Python [str] is a sequence of Unicode code points. *)
Abbreviation pystr := (list N).

(** Source literals are ASCII; [lit] reads one as a [pystr]. *)
Definition lit (s : string) : pystr :=
  (λ a, N_of_ascii a) <$> String.list_ascii_of_string s.
Arguments lit : simpl never.

(** [str(n)] for a length. *)
Definition str_of_nat (n : nat) : pystr := lit (pretty n).

(** [s.startswith(p)] *)
Fixpoint startswith (p s : pystr) : bool :=
  match p, s with
  | [], _ => true
  | _ :: _, [] => false
  | a :: p', b :: s' => (a =? b)%N && startswith p' s'
  end.

(** [p in s] for two strings: substring test. *)
Fixpoint str_contains (p s : pystr) : bool :=
  startswith p s ||
  match s with
  | [] => false
  | _ :: s' => str_contains p s'
  end.

(** [s.replace(old, new)] for a non-empty [old]: leftmost, non-overlapping
    occurrences.  [skip] counts the characters of the occurrence that was just
    replaced and are still to be dropped. *)
Fixpoint replace_from (old new : pystr) (skip : nat) (s : pystr) : pystr :=
  match s with
  | [] => []
  | c :: s' =>
      match skip with
      | S k => replace_from old new k s'
      | O =>
          if startswith old s
          then new ++ replace_from old new (length old - 1) s'
          else c :: replace_from old new 0 s'
      end
  end.

Definition str_replace (old new s : pystr) : pystr := replace_from old new 0 s.

(** [sep.join(parts)] *)
Fixpoint str_join (sep : pystr) (parts : list pystr) : pystr :=
  match parts with
  | [] => []
  | [p] => p
  | p :: rest => p ++ sep ++ str_join sep rest
  end.

(** [os.path.basename(p)]: what follows the last ['/']. *)
Definition basename (p : pystr) : pystr :=
  fold_left (λ acc c, if (c =? 47)%N then [] else acc ++ [c]) p [].

(** [os.path.join(a, b)] for a [b] without a leading ['/']. *)
Definition path_join (a b : pystr) : pystr :=
  match last a with
  | None => b
  | Some c => if (c =? 47)%N then a ++ b else a ++ lit "/" ++ b
  end.

(** Truth value of an optional string ([None] and [''] are false). *)
Definition str_truthy (s : option pystr) : bool :=
  match s with
  | Some (_ :: _) => true
  | _ => false
  end.

(** ** Python dictionaries

    A [dict] keeps its items in insertion order, and the order is visible to
    the code (a loop over [items()] stops at the first failing call), so a
    dictionary is an association list with distinct keys. *)
Abbreviation pydict V := (list (pystr * V)).

Fixpoint dict_lookup {V} (k : pystr) (d : pydict V) : option V :=
  match d with
  | [] => None
  | (k', v) :: d' => if bool_decide (k' = k) then Some v else dict_lookup k d'
  end.

(** [d[k] = v]: an existing key keeps its position. *)
Fixpoint dict_set {V} (k : pystr) (v : V) (d : pydict V) : pydict V :=
  match d with
  | [] => [(k, v)]
  | (k', v') :: d' =>
      if bool_decide (k' = k) then (k', v) :: d' else (k', v') :: dict_set k v d'
  end.

(** [d.update(other)] *)
Definition dict_update {V} (d other : pydict V) : pydict V :=
  fold_left (λ acc kv, dict_set kv.1 kv.2 acc) other d.

(** ** sanitize_branch_name *)

(** The character class [[a-zA-Z0-9_-]] of the regular expression. *)
Definition branch_safe (c : N) : bool :=
  ((97 <=? c) && (c <=? 122) || (65 <=? c) && (c <=? 90) ||
   (48 <=? c) && (c <=? 57) || (c =? 95) || (c =? 45))%N.

(** [re.sub(r'[^a-zA-Z0-9_-]', '_', name)]: the pattern matches exactly one
    code point, so the substitution is character by character. *)
Definition re_sub_unsafe (name : pystr) : pystr :=
  (λ c, if branch_safe c then c else 95%N) <$> name.

Definition sanitize_branch_name (name : pystr) : pystr :=
  let safe_name := re_sub_unsafe name in
  if startswith (lit "-") safe_name
  then lit "model_" ++ drop 1 safe_name
  else safe_name.

(** ** Exceptions and the state-and-exception monad *)

(** [PyError] stands for the subclasses of [Exception]; [KeyboardInterrupt]
    and [SystemExit] derive from [BaseException] only, so [except Exception]
    lets them through. *)
Inductive exn :=
| PyError (kind : string)
| KeyboardInterrupt
| SystemExit (code : Z).

Inductive res (A : Type) :=
| Ret (a : A)
| Raise (e : exn).
Arguments Ret {A} a.
Arguments Raise {A} e.

Definition M (S A : Type) : Type := S → res A * S.

Definition ret {S A} (a : A) : M S A := λ s, (Ret a, s).
Definition raise {S A} (e : exn) : M S A := λ s, (Raise e, s).
Definition bind {S A B} (m : M S A) (f : A → M S B) : M S B :=
  λ s, match m s with
       | (Ret a, s') => f a s'
       | (Raise e, s') => (Raise e, s')
       end.

(** [try: m  except Exception as e: h] *)
Definition try_except {S A} (m : M S A) (h : string → M S A) : M S A :=
  λ s, match m s with
       | (Raise (PyError kind), s') => h kind s'
       | r => r
       end.

Declare Scope py_scope.
Delimit Scope py_scope with py.
Notation "'let!' x ':=' m 'in' k" := (bind m (λ x, k))
  (at level 10, x name, m at level 100, k at level 200) : py_scope.
Notation "m ';;' k" := (bind m (λ _, k))
  (at level 100, k at level 200, right associativity) : py_scope.
Open Scope py_scope.

(** [if b: m] *)
Definition when {S} (b : bool) (m : M S unit) : M S unit :=
  if b then m else ret tt.

(** A [for] loop that updates an accumulator. *)
Fixpoint foldM {S A B} (f : A → B → M S A) (a : A) (l : list B) : M S A :=
  match l with
  | [] => ret a
  | x :: l' => let! a' := f a x in foldM f a' l'
  end.

(** A [for] loop run for its effects. *)
Fixpoint forM_ {S B} (f : B → M S unit) (l : list B) : M S unit :=
  match l with
  | [] => ret tt
  | x :: l' => f x;; forM_ f l'
  end.

(** A list comprehension whose element expression may raise. *)
Fixpoint mapM {S A B} (f : A → M S B) (l : list A) : M S (list B) :=
  match l with
  | [] => ret []
  | x :: l' => let! y := f x in let! ys := mapM f l' in ret (y :: ys)
  end.

(** ** Decoded JSON and Python's dynamic operations on it *)

(** A Python number: an [int], of any size, or a [float], given by its
    exact value. *)
Inductive pynum :=
| PInt (z : Z)
| PFloat (q : Q).

Definition value (x : pynum) : Q :=
  match x with
  | PInt z => inject_Z z
  | PFloat q => q
  end.

(** [json.loads] gives an [int] for an integer literal and a [float] for a
    literal with a fraction or an exponent. *)
#[local] Set Warnings "-register-all".
Inductive json :=
| JNull
| JBool (b : bool)
| JNum (x : pynum)
| JStr (s : pystr)
| JArr (items : list json)
| JObj (fields : list (pystr * json)).

Definition TypeError : exn := PyError "TypeError".

(** [bool(v)] *)
Definition truthy (v : json) : bool :=
  match v with
  | JNull => false
  | JBool b => b
  | JNum x => negb (Qeq_bool (value x) 0%Q)
  | JStr s => match s with [] => false | _ => true end
  | JArr l => match l with [] => false | _ => true end
  | JObj kv => match kv with [] => false | _ => true end
  end.

(** [d.get(key, default)]: only a [dict] has the method. *)
Definition dict_get {S} (d : json) (key : pystr) (dflt : json) : M S json :=
  match d with
  | JObj kv => ret (default dflt (dict_lookup key kv))
  | _ => raise (PyError "AttributeError")
  end.

(** [v[0]] *)
Definition getitem0 {S} (v : json) : M S json :=
  match v with
  | JArr (x :: _) => ret x
  | JArr [] => raise (PyError "IndexError")
  | JStr (c :: _) => ret (JStr [c])
  | JStr [] => raise (PyError "IndexError")
  | JObj _ => raise (PyError "KeyError")
  | JNull | JBool _ | JNum _ => raise TypeError
  end.

(** [key in v] for a string [key] *)
Definition contains_key {S} (key : pystr) (v : json) : M S bool :=
  match v with
  | JObj kv => ret (bool_decide (is_Some (dict_lookup key kv)))
  | JArr l => ret (existsb (λ x, match x with
                                 | JStr s => bool_decide (s = key)
                                 | _ => false
                                 end) l)
  | JStr s => ret (str_contains key s)
  | JNull | JBool _ | JNum _ => raise TypeError
  end.

(** [v[key]] for a string [key] that [key in v] found *)
Definition getitem_key {S} (v : json) (key : pystr) : M S json :=
  match v with
  | JObj kv =>
      match dict_lookup key kv with
      | Some x => ret x
      | None => raise (PyError "KeyError")
      end
  | _ => raise TypeError
  end.

(** The items [list.extend(v)] appends: a list's elements, a string's
    characters, a dictionary's keys. *)
Definition iter_items {S} (v : json) : M S (list json) :=
  match v with
  | JArr l => ret l
  | JStr s => ret ((λ c, JStr [c]) <$> s)
  | JObj kv => ret ((λ p, JStr p.1) <$> kv)
  | JNull | JBool _ | JNum _ => raise TypeError
  end.

(** A value usable in arithmetic and in comparisons with [0]: [bool] is a
    subclass of [int]. *)
Definition as_number (v : json) : option pynum :=
  match v with
  | JNum x => Some x
  | JBool b => Some (PInt (if b then 1 else 0))
  | _ => None
  end.

Definition num {S} (v : json) : M S pynum :=
  match as_number v with
  | Some x => ret x
  | None => raise TypeError
  end.

(** The conversion of an [int] to a [float] rounds to the nearest double
    and fails from [2^1024 - 2^970] on, which is halfway between the largest
    double and [2^1024]; so does the division of two [int]s when the
    quotient is that large. *)
Definition float_limit : Z := Eval vm_compute in (2 ^ 1024 - 2 ^ 970)%Z.

Definition in_float_range (q : Q) : bool :=
  negb (Qle_bool (inject_Z float_limit) (Qabs q)).

Definition OverflowError : exn := PyError "OverflowError".
Definition ZeroDivisionError : exn := PyError "ZeroDivisionError".

(** The operand [x] of a float operation. *)
Definition to_float {S} (x : pynum) : M S Q :=
  match x with
  | PInt z =>
      if in_float_range (inject_Z z) then ret (inject_Z z) else raise OverflowError
  | PFloat q => ret q
  end.

(** [a + b]: exact on two [int]s; otherwise both operands become floats,
    the left one first. *)
Definition py_add {S} (a b : pynum) : M S pynum :=
  match a, b with
  | PInt x, PInt y => ret (PInt (x + y))
  | _, _ =>
      let! x := to_float a in
      let! y := to_float b in
      ret (PFloat (x + y))
  end.


(** [sum(l)]: from the [int] 0, item by item. *)
Definition py_sum {S} (l : list json) : M S pynum :=
  foldM (λ acc v, let! x := num v in py_add acc x) (PInt 0) l.

(** [len(l)]: as the value of a metric, and as the [int] it is. *)
Definition len {A} (l : list A) : Q := inject_Z (Z.of_nat (length l)).

Definition py_len {A} (l : list A) : pynum := PInt (Z.of_nat (length l)).

(** [a / b].  Two [int]s: [ZeroDivisionError] for a divisor 0, then
    [OverflowError] when the quotient is out of the range of a float.
    Otherwise both operands become floats, the left one first, and a
    divisor 0 raises [ZeroDivisionError]. *)
Definition truediv {S} (a b : pynum) : M S pynum :=
  match a, b with
  | PInt x, PInt y =>
      if (y =? 0)%Z then raise ZeroDivisionError
      else if in_float_range (inject_Z x / inject_Z y)
           then ret (PFloat (inject_Z x / inject_Z y))
           else raise OverflowError
  | _, _ =>
      let! x := to_float a in
      let! y := to_float b in
      if Qeq_bool y 0%Q then raise ZeroDivisionError else ret (PFloat (x / y))
  end.

Definition Qgtb (a b : Q) : bool := negb (Qle_bool a b).

(** [max] and [min] keep the first of several equal extremes. *)
Definition maxQ (l : list Q) : option Q :=
  match l with
  | [] => None
  | x :: l' => Some (fold_left (λ cur y, if Qgtb y cur then y else cur) l' x)
  end.

Definition minQ (l : list Q) : option Q :=
  match l with
  | [] => None
  | x :: l' => Some (fold_left (λ cur y, if Qgtb cur y then y else cur) l' x)
  end.

Definition extremum {S} (o : option Q) : M S Q :=
  match o with
  | Some q => ret q
  | None => raise (PyError "ValueError")
  end.

(** The value of [max(l)] and of [min(l)]: an [int] and a [float] are
    compared by their exact values, and the result is only stored.  Both are
    only reached after [sum(l)] succeeded, so every element is a number;
    comparing a number with another kind of value raises [TypeError]. *)
Definition py_max {S} (l : list json) : M S Q :=
  let! xs := mapM num l in extremum (maxQ (value <$> xs)).

Definition py_min {S} (l : list json) : M S Q :=
  let! xs := mapM num l in extremum (minQ (value <$> xs)).

Definition nonempty {A} (l : list A) : bool :=
  match l with [] => false | _ => true end.

(** ** MLflowLogger._parse_benchmark_results *)

(** One line of a results file as [json.loads] sees it. *)
Inductive jsonl_line :=
| BlankLine                (* [line.strip()] is empty *)
| MalformedLine            (* [json.loads] raises [JSONDecodeError] *)
| JsonLine (v : json).

(** [[json.loads(line) for line in f if line.strip()]] *)
Fixpoint json_loads_lines {S} (lines : list jsonl_line) : M S (list json) :=
  match lines with
  | [] => ret []
  | BlankLine :: rest => json_loads_lines rest
  | MalformedLine :: _ => raise (PyError "JSONDecodeError")
  | JsonLine v :: rest => let! vs := json_loads_lines rest in ret (v :: vs)
  end.

(** The four flattened series. *)
Record series := {
  wall_times : list json;
  decoding_steps : list json;
  new_tokens : list json;
  accept_lengths : list json;
}.

(** [if key in choice: acc.extend(choice[key])] *)
Definition extend_if_present {S} (key : pystr) (choice : json) (acc : list json)
  : M S (list json) :=
  let! present := contains_key key choice in
  if present then
    let! v := getitem_key choice key in
    let! items := iter_items v in
    ret (acc ++ items)
  else ret acc.

(** The body of [for result in results]. *)
Definition collect_result {S} (acc : series) (result : json) : M S series :=
  let! choices := dict_get result (lit "choices") (JArr [JObj []]) in
  if truthy choices then
    let! choice := getitem0 choices in
    let! wt := extend_if_present (lit "wall_time") choice (wall_times acc) in
    let! ds := extend_if_present (lit "decoding_steps") choice (decoding_steps acc) in
    let! nt := extend_if_present (lit "new_tokens") choice (new_tokens acc) in
    let! al := extend_if_present (lit "accept_lengths") choice (accept_lengths acc) in
    ret {| wall_times := wt; decoding_steps := ds;
           new_tokens := nt; accept_lengths := al |}
  else ret acc.

(** [nt / wt if wt > 0 else 0] *)
Definition token_rate {S} (p : json * json) : M S pynum :=
  let! wt := num p.2 in
  if Qgtb (value wt) 0%Q
  then let! nt := num p.1 in truediv nt wt
  else ret (PInt 0).

Definition count_positive (l : list Q) : nat :=
  length (filter (λ q, Qgtb q 0%Q = true) l).

(** [metrics[f'{benchmark_name}{suffix}'] = v]: the dictionary keeps the
    value of the number. *)
Definition set_metric (benchmark_name : pystr) (suffix : string) (v : Q)
  : M (pydict Q) unit :=
  λ metrics, (Ret tt, dict_set (benchmark_name ++ lit suffix) v metrics).

(** The four [if] blocks that compute the statistics (lines 310-337). *)

Definition wall_time_stats (benchmark_name : pystr) (s : series)
  : M (pydict Q) unit :=
  when (nonempty (wall_times s)) (
    let! total := py_sum (wall_times s) in
    let! avg := truediv total (py_len (wall_times s)) in
    set_metric benchmark_name "_avg_wall_time" (value avg);;
    let! total := py_sum (wall_times s) in
    set_metric benchmark_name "_total_wall_time" (value total);;
    let! mx := py_max (wall_times s) in
    set_metric benchmark_name "_max_wall_time" mx;;
    let! mn := py_min (wall_times s) in
    set_metric benchmark_name "_min_wall_time" mn).

Definition decoding_steps_stats (benchmark_name : pystr) (s : series)
  : M (pydict Q) unit :=
  when (nonempty (decoding_steps s)) (
    let! total := py_sum (decoding_steps s) in
    let! avg := truediv total (py_len (decoding_steps s)) in
    set_metric benchmark_name "_avg_decoding_steps" (value avg);;
    let! total := py_sum (decoding_steps s) in
    set_metric benchmark_name "_total_decoding_steps" (value total)).

Definition new_tokens_stats (benchmark_name : pystr) (s : series)
  : M (pydict Q) unit :=
  when (nonempty (new_tokens s)) (
    let! total := py_sum (new_tokens s) in
    let! avg := truediv total (py_len (new_tokens s)) in
    set_metric benchmark_name "_avg_new_tokens" (value avg);;
    let! total := py_sum (new_tokens s) in
    set_metric benchmark_name "_total_new_tokens" (value total);;
    when (nonempty (wall_times s)
          && bool_decide (length (wall_times s) = length (new_tokens s))) (
      let! tokens_per_sec := mapM token_rate (zip (new_tokens s) (wall_times s)) in
      let! total := py_sum (JNum <$> tokens_per_sec) in
      let! avg := truediv total (py_len tokens_per_sec) in
      set_metric benchmark_name "_avg_tokens_per_sec" (value avg);;
      let! mx := py_max (JNum <$> tokens_per_sec) in
      set_metric benchmark_name "_max_tokens_per_sec" mx)).

Definition accept_length_stats (benchmark_name : pystr) (s : series)
  : M (pydict Q) unit :=
  when (nonempty (accept_lengths s)) (
    let! total := py_sum (accept_lengths s) in
    let! avg := truediv total (py_len (accept_lengths s)) in
    set_metric benchmark_name "_avg_accept_length" (value avg);;
    let! mx := py_max (accept_lengths s) in
    set_metric benchmark_name "_max_accept_length" mx;;
    when (bool_decide (0 < length (accept_lengths s))%nat) (
      let! als := mapM num (accept_lengths s) in
      let! acceptance_rate :=
        truediv (PInt (Z.of_nat (count_positive (value <$> als))))
                (py_len (accept_lengths s)) in
      set_metric benchmark_name "_acceptance_rate" (value acceptance_rate))).

Definition empty_series : series :=
  {| wall_times := []; decoding_steps := []; new_tokens := []; accept_lengths := [] |}.

(** The [try] block, from the list of lines to the last metric.  The state
    is the dictionary [metrics]. *)
Definition parse_body (lines : list jsonl_line) (benchmark_name : pystr)
  : M (pydict Q) unit :=
  let! results := json_loads_lines lines in
  if negb (nonempty results) then ret tt else
  set_metric benchmark_name "_total_questions" (len results);;
  let! s := foldM collect_result empty_series results in
  wall_time_stats benchmark_name s;;
  decoding_steps_stats benchmark_name s;;
  new_tokens_stats benchmark_name s;;
  accept_length_stats benchmark_name s.

(** What [_parse_benchmark_results] returns once the file has been read:
    [except Exception] logs the error and falls through to [return metrics],
    the dictionary as it was when the exception was raised. *)
Definition parse_lines (lines : list jsonl_line) (benchmark_name : pystr)
  : pydict Q :=
  (try_except (parse_body lines benchmark_name) (λ _, ret tt) []).2.

(** ** Configuration and command line

    The configuration is the dictionary [yaml.safe_load] returned; [None]
    stands for a key that is absent.  An explicit YAML [null] is not
    modelled: [dict.get] with a default and indexing would return it as it
    is. *)

Record LakeFSConfig := {
  lakefs_endpoint : option pystr;
  lakefs_repository : option pystr;
  lakefs_branch_prefix : option pystr;
  lakefs_access_key : option pystr;
  lakefs_secret_key : option pystr;
}.

Record MLflowConfig := {
  mlflow_tracking_uri : option pystr;
  mlflow_username : option pystr;
  mlflow_password : option pystr;
  mlflow_experiment_name : option pystr;
}.

Record Config := {
  config_lakefs : option LakeFSConfig;          (* config['lakefs'] *)
  config_mlflow : option MLflowConfig;          (* config.get('mlflow', {}) *)
  config_default_tags : option (pydict pystr);  (* experiment.default_tags *)
  config_results_dir : option pystr;            (* benchmark.results_dir *)
}.

Record Args := {
  args_results_dir : option pystr;
  args_no_mlflow : bool;
  args_single_file : option pystr;
  args_model_name : option pystr;
}.

(** [d[key]] on a configuration dictionary *)
Definition config_item {S A} (o : option A) : M S A :=
  match o with
  | Some a => ret a
  | None => raise (PyError "KeyError")
  end.

(** ** The outside world

    Every call that leaves the process (LakeFS SDK, MLflow, file system) is
    answered by the [World].  A call returns, raises an [Exception], or is
    cut short by [KeyboardInterrupt]; the answer may depend on everything that
    happened before, which is how a stateful server is described.  Each call
    is recorded, with its answer, in the trace. *)

Inductive outcome (A : Type) :=
| Returns (a : A)
| Throws (kind : string)
| Interrupted.
Arguments Returns {A} a.
Arguments Throws {A} kind.
Arguments Interrupted {A}.

(** The manifest built by [create_metadata_file]. *)
Record Metadata := {
  md_experiment_info : pydict pystr;
  md_results_directory : pystr;
  md_uploaded_files : list pystr;
  md_file_count : nat;
  md_lakefs_endpoint : pystr;
  md_lakefs_repository : pystr;
  md_mlflow_tracking_uri : option pystr;
  md_experiment_tags : pydict pystr;
  md_total_size_bytes : N;
}.

Inductive event :=
(* lakefs_sdk *)
| EvListRepositories (o : outcome unit)
| EvCreateBranch (repo name source : pystr) (o : outcome unit)
| EvUploadObject (repo branch path : pystr) (o : outcome unit)
| EvCommit (repo branch message : pystr) (o : outcome pystr)
(* mlflow *)
| EvSetTrackingUri (uri : pystr) (o : outcome unit)
| EvSetExperiment (name : pystr) (o : outcome unit)
| EvStartRun (run_name : pystr) (tags : pydict pystr) (o : outcome pystr)
| EvLogParam (key value : pystr) (o : outcome unit)
| EvLogMetric (key : pystr) (value : Q) (o : outcome unit)
| EvLogArtifact (local_path artifact_path : pystr) (o : outcome unit)
| EvLogArtifacts (artifact_path : pystr) (o : outcome unit)
| EvEndRun (o : outcome unit)
(* operating system *)
| EvPathExists (path : pystr) (found : bool)
| EvGetSize (path : pystr) (size : N)
| EvGlob (pattern : pystr) (files : list pystr)
| EvNow (format now : pystr)
| EvEnvironSet (key value : pystr) (o : outcome unit)
| EvReadBytes (local_path : pystr) (o : outcome unit)
| EvReadLines (path : pystr) (o : outcome (list jsonl_line))
| EvSystemInfo (o : outcome (pydict pystr))
| EvWriteJson (path : pystr) (metadata : Metadata) (o : outcome unit)
| EvRemove (path : pystr) (o : outcome unit).

Abbreviation trace := (list event).

Record World := {
  (* the module-level flag set by [import mlflow] *)
  MLFLOW_AVAILABLE : bool;
  (* file system and clock *)
  os_path_exists : trace → pystr → bool;
  os_path_getsize : trace → pystr → N;
  glob_glob : trace → pystr → list pystr;
  now_strftime : trace → pystr → pystr;
  (* lakefs_sdk *)
  list_repositories : trace → outcome unit;
  sdk_create_branch : trace → pystr → pystr → pystr → outcome unit;
  sdk_upload_object : trace → pystr → pystr → pystr → outcome unit;
  sdk_commit : trace → pystr → pystr → pystr → outcome pystr;
  (* mlflow *)
  mlflow_set_tracking_uri : trace → pystr → outcome unit;
  mlflow_set_experiment : trace → pystr → outcome unit;
  mlflow_start_run : trace → pystr → pydict pystr → outcome pystr;
  mlflow_log_param : trace → pystr → pystr → outcome unit;
  mlflow_log_metric : trace → pystr → Q → outcome unit;
  mlflow_log_artifact : trace → pystr → pystr → outcome unit;
  mlflow_log_artifacts : trace → pystr → outcome unit;
  mlflow_end_run : trace → outcome unit;
  (* operating system *)
  os_environ_set : trace → pystr → pystr → outcome unit;
  read_bytes : trace → pystr → outcome unit;
  read_lines : trace → pystr → outcome (list jsonl_line);
  system_info : trace → outcome (pydict pystr);
  write_json : trace → pystr → Metadata → outcome unit;
  os_remove : trace → pystr → outcome unit;
}.

Definition res_of_outcome {A} (o : outcome A) : res A :=
  match o with
  | Returns a => Ret a
  | Throws kind => Raise (PyError kind)
  | Interrupted => Raise KeyboardInterrupt
  end.

(** An external call: ask the world, record call and answer. *)
Definition ext {A} (record : outcome A → event) (answer : trace → outcome A)
  : M trace A :=
  λ t, let o := answer t in (res_of_outcome o, t ++ [record o]).

(** A query of the environment that neither raises nor blocks
    ([os.path.exists], [glob.glob], the clock). *)
Definition query {A} (record : A → event) (answer : trace → A) : M trace A :=
  λ t, let a := answer t in (Ret a, t ++ [record a]).

(** A local variable of a function body, before and after its first
    assignment. *)
Inductive local (A : Type) :=
| Unbound
| Bound (a : A).
Arguments Unbound {A}.
Arguments Bound {A} a.

Definition read_local {S A} (v : local A) : M S A :=
  match v with
  | Bound a => ret a
  | Unbound => raise (PyError "UnboundLocalError")
  end.

(** [sys.exit(code)] *)
Definition sys_exit {S A} (code : Z) : M S A := raise (SystemExit code).

(** The exit status of the interpreter when [main()] ends with [r]: the
    argument of [sys.exit]; 1 after the traceback of an unhandled exception;
    130 for an unhandled [KeyboardInterrupt] (128 + SIGINT, as a shell
    reports it). *)
Definition exit_status {A} (r : res A) : Z :=
  match r with
  | Ret _ => 0
  | Raise (SystemExit code) => code
  | Raise (PyError _) => 1
  | Raise KeyboardInterrupt => 130
  end.

Record LakeFSUploader := {
  endpoint : pystr;
  repository : pystr;
  branch_prefix : pystr;
}.

(** The attributes [experiment_name] and [default_tags] are not set when
    MLflow is unavailable ([None] here). *)
Record MLflowLogger := {
  enabled : bool;
  experiment_name : option pystr;
  default_tags : option (pydict pystr);
}.

Section Program.

Variable w : World.

(** *** class LakeFSUploader *)

(** [LakeFSUploader.__init__]: building [Configuration], [ApiClient] and
    the three API objects does no I/O. *)
Definition LakeFSUploader_init (config : Config) : M trace LakeFSUploader :=
  let! lakefs_config := config_item (config_lakefs config) in
  let! endpoint := config_item (lakefs_endpoint lakefs_config) in
  let! repository := config_item (lakefs_repository lakefs_config) in
  let branch_prefix :=
    default (lit "experiment") (lakefs_branch_prefix lakefs_config) in
  let access_key := lakefs_access_key lakefs_config in
  let secret_key := lakefs_secret_key lakefs_config in
  if negb (str_truthy access_key) || negb (str_truthy secret_key)
  then raise (PyError "ValueError")
  else ret {| endpoint := endpoint; repository := repository;
              branch_prefix := branch_prefix |}.

(** [upload_file]: [os.path.getsize], [open] and [read] of the local file
    are one event, [upload_object] the next. *)
Definition upload_file (self : LakeFSUploader)
    (repo branch local_path remote_path : pystr) : M trace bool :=
  try_except
    (ext (EvReadBytes local_path) (λ t, read_bytes w t local_path);;
     ext (EvUploadObject repo branch remote_path)
         (λ t, sdk_upload_object w t repo branch remote_path);;
     ret true)
    (λ _, ret false).

Definition create_branch (self : LakeFSUploader)
    (repo branch_name source_branch : pystr) : M trace bool :=
  try_except
    (ext (EvCreateBranch repo branch_name source_branch)
         (λ t, sdk_create_branch w t repo branch_name source_branch);;
     ret true)
    (λ _, ret false).

(** [commit_changes] returns [result.id], or [None]. *)
Definition commit_changes (self : LakeFSUploader)
    (repo branch message : pystr) : M trace (option pystr) :=
  try_except
    (let! id := ext (EvCommit repo branch message)
                    (λ t, sdk_commit w t repo branch message) in
     ret (Some id))
    (λ _, ret None).

Definition check_connection (self : LakeFSUploader) : M trace bool :=
  try_except
    (ext EvListRepositories (list_repositories w);; ret true)
    (λ _, ret false).

(** *** class MLflowLogger *)

(** [os.environ[key] = value]: a value that is not a [str] is refused with
    [TypeError] before anything is set. *)
Definition environ_setitem (key : pystr) (value : option pystr) : M trace unit :=
  match value with
  | None => raise TypeError
  | Some v => ext (EvEnvironSet key v) (λ t, os_environ_set w t key v)
  end.

Definition MLflowLogger_init (config : Config) : M trace MLflowLogger :=
  if negb (MLFLOW_AVAILABLE w) then
    ret {| enabled := false; experiment_name := None; default_tags := None |}
  else
    let mlflow_config :=
      default {| mlflow_tracking_uri := None; mlflow_username := None;
                 mlflow_password := None; mlflow_experiment_name := None |}
              (config_mlflow config) in
    let tracking_uri := mlflow_tracking_uri mlflow_config in
    match tracking_uri with
    | Some (c :: uri) =>
        ext (EvSetTrackingUri (c :: uri))
            (λ t, mlflow_set_tracking_uri w t (c :: uri))
    | _ => ret tt
    end;;
    let username := mlflow_username mlflow_config in
    let password := mlflow_password mlflow_config in
    environ_setitem (lit "MLFLOW_TRACKING_USERNAME") username;;
    environ_setitem (lit "MLFLOW_TRACKING_PASSWORD") password;;
    let name :=
      default (lit "spec-bench-evaluation") (mlflow_experiment_name mlflow_config) in
    let tags := default [] (config_default_tags config) in
    try_except
      (ext (EvSetExperiment name) (λ t, mlflow_set_experiment w t name);;
       ret {| enabled := true; experiment_name := Some name;
              default_tags := Some tags |})
      (λ _, ret {| enabled := false; experiment_name := Some name;
                   default_tags := Some tags |}).

Definition start_run (self : MLflowLogger) (run_name : pystr)
    (tags : pydict pystr) : M trace (option pystr) :=
  if negb (enabled self) then ret None else
  try_except
    (let! own := match default_tags self with
                 | Some d => ret d
                 | None => raise (PyError "AttributeError")
                 end in
     let all_tags := if nonempty tags then dict_update own tags else own in
     let! run_id := ext (EvStartRun run_name all_tags)
                        (λ t, mlflow_start_run w t run_name all_tags) in
     ret (Some run_id))
    (λ _, ret None).

Definition log_params (self : MLflowLogger) (params : pydict pystr)
  : M trace unit :=
  if negb (enabled self) then ret tt else
  try_except
    (forM_ (λ kv, ext (EvLogParam kv.1 kv.2)
                      (λ t, mlflow_log_param w t kv.1 kv.2)) params)
    (λ _, ret tt).

Definition log_metrics (self : MLflowLogger) (metrics : pydict Q)
  : M trace unit :=
  if negb (enabled self) then ret tt else
  try_except
    (forM_ (λ kv, ext (EvLogMetric kv.1 kv.2)
                      (λ t, mlflow_log_metric w t kv.1 kv.2)) metrics)
    (λ _, ret tt).

Definition log_artifacts (self : MLflowLogger) (artifact_path : pystr)
    (local_path : option pystr) : M trace unit :=
  if negb (enabled self) then ret tt else
  try_except
    (if str_truthy local_path
     then let lp := default [] local_path in
          ext (EvLogArtifact lp artifact_path)
              (λ t, mlflow_log_artifact w t lp artifact_path)
     else ext (EvLogArtifacts artifact_path)
              (λ t, mlflow_log_artifacts w t artifact_path))
    (λ _, ret tt).

(** [_parse_benchmark_results]: opening and reading the file is the one
    external call; what follows is [parse_lines]. *)
Definition _parse_benchmark_results (self : MLflowLogger)
    (results_file benchmark_name : pystr) : M trace (pydict Q) :=
  try_except
    (let! lines := ext (EvReadLines results_file)
                       (λ t, read_lines w t results_file) in
     ret (parse_lines lines benchmark_name))
    (λ _, ret []).

Definition log_benchmark_results (self : MLflowLogger)
    (results_file benchmark_name : pystr) : M trace unit :=
  if negb (enabled self) then ret tt else
  let! file_exists := query (EvPathExists results_file)
                           (λ t, os_path_exists w t results_file) in
  if negb file_exists then ret tt else
  try_except
    (let! metrics := _parse_benchmark_results self results_file benchmark_name in
     when (nonempty metrics) (log_metrics self metrics))
    (λ _, ret tt).

Definition end_run (self : MLflowLogger) : M trace unit :=
  when (enabled self)
    (try_except (ext EvEndRun (mlflow_end_run w)) (λ _, ret tt)).

(** *** Metadata *)

(** [get_system_info]: imports [platform] and [torch] and reads them. *)
Definition get_system_info : M trace (pydict pystr) :=
  ext EvSystemInfo (system_info w).

(** [total_size_mb] is a rounding of [total_size_bytes] and is left out. *)
Definition create_metadata_file (results_dir : pystr)
    (uploaded_files : list pystr) (config : Config) : M trace Metadata :=
  let! info := get_system_info in
  let! lakefs_config := config_item (config_lakefs config) in
  let! endpoint := config_item (lakefs_endpoint lakefs_config) in
  let! repository := config_item (lakefs_repository lakefs_config) in
  let tracking_uri :=
    match config_mlflow config with
    | Some c => mlflow_tracking_uri c
    | None => None
    end in
  let! total_size :=
    foldM (λ total_size file_path,
             let local_path := path_join results_dir (basename (basename file_path)) in
             let! file_exists := query (EvPathExists local_path)
                                       (λ t, os_path_exists w t local_path) in
             if file_exists
             then let! size := query (EvGetSize local_path)
                                     (λ t, os_path_getsize w t local_path) in
                  ret (total_size + size)%N
             else ret total_size)
          0%N uploaded_files in
  ret {| md_experiment_info := info;
         md_results_directory := results_dir;
         md_uploaded_files := uploaded_files;
         md_file_count := length uploaded_files;
         md_lakefs_endpoint := endpoint;
         md_lakefs_repository := repository;
         md_mlflow_tracking_uri := tracking_uri;
         md_experiment_tags := default [] (config_default_tags config);
         md_total_size_bytes := total_size |}.

(** *** upload_single_result *)

Definition newline : pystr := [10%N].

(** [try: uploader = LakeFSUploader(config)  except Exception: return False];
    [None] stands for the early return. *)
Definition try_uploader (config : Config) : M trace (option LakeFSUploader) :=
  try_except (let! u := LakeFSUploader_init config in ret (Some u))
             (λ _, ret None).

Definition upload_single_result (config : Config) (result_file : pystr)
    (model_name : option pystr) : M trace bool :=
  let! file_exists := query (EvPathExists result_file)
                           (λ t, os_path_exists w t result_file) in
  if negb file_exists then ret false else
  let! uploader := try_uploader config in
  match uploader with
  | None => ret false
  | Some uploader =>
    let! connected := check_connection uploader in
    if negb connected then ret false else
    let! timestamp := query (EvNow (lit "%Y%m%d"))
                            (λ t, now_strftime w t (lit "%Y%m%d")) in
    let experiment_branch :=
      if str_truthy model_name
      then branch_prefix uploader ++ lit "_"
           ++ sanitize_branch_name (default [] model_name) ++ lit "_" ++ timestamp
      else branch_prefix uploader ++ lit "_single_" ++ timestamp in
    create_branch uploader (repository uploader) experiment_branch (lit "main");;
    let filename := basename result_file in
    let remote_path := lit "results/" ++ timestamp ++ lit "/" ++ filename in
    let! uploaded :=
      upload_file uploader (repository uploader) experiment_branch
                  result_file remote_path in
    if uploaded then
      let commit_message :=
        lit "Single result upload: " ++ filename ++ newline
        ++ lit "Timestamp: " ++ timestamp
        ++ (if str_truthy model_name
            then newline ++ lit "Model: " ++ default [] model_name
            else []) in
      let! commit_id :=
        commit_changes uploader (repository uploader) experiment_branch
                       commit_message in
      if str_truthy commit_id then ret true else ret false
    else ret false
  end.

(** *** upload_benchmark_results *)

(** The body of [for local_file in result_files]; the accumulator is the
    pair [(uploaded_files, failed_files)]. *)
Definition upload_one (uploader : LakeFSUploader)
    (experiment_branch timestamp : pystr) (mlflow_logger : option MLflowLogger)
    (acc : list pystr * list pystr) (local_file : pystr)
  : M trace (list pystr * list pystr) :=
  let filename := basename local_file in
  let remote_path := lit "results/" ++ timestamp ++ lit "/" ++ filename in
  let! uploaded :=
    upload_file uploader (repository uploader) experiment_branch
                local_file remote_path in
  if uploaded then
    match mlflow_logger with
    | Some logger =>
        let benchmark_name :=
          str_replace (lit "-") (lit "_") (str_replace (lit ".jsonl") [] filename) in
        log_benchmark_results logger local_file benchmark_name
    | None => ret tt
    end;;
    ret (acc.1 ++ [remote_path], acc.2)
  else ret (acc.1, acc.2 ++ [local_file]).

Definition upload_loop (uploader : LakeFSUploader)
    (experiment_branch timestamp : pystr) (mlflow_logger : option MLflowLogger)
    (result_files : list pystr) : M trace (list pystr * list pystr) :=
  foldM (upload_one uploader experiment_branch timestamp mlflow_logger)
        ([], []) result_files.

(** Lines 544-562: the manifest.  Returns [uploaded_files] as the commit
    step sees it. *)
Definition publish_metadata (config : Config) (uploader : LakeFSUploader)
    (results_dir experiment_branch timestamp : pystr)
    (mlflow_logger : option MLflowLogger) (uploaded_files : list pystr)
  : M trace (list pystr) :=
  if nonempty uploaded_files then
    let! metadata := create_metadata_file results_dir uploaded_files config in
    let metadata_path :=
      lit "results/" ++ timestamp ++ lit "/experiment_metadata.json" in
    let temp_metadata_file := path_join results_dir (lit "temp_metadata.json") in
    ext (EvWriteJson temp_metadata_file metadata)
        (λ t, write_json w t temp_metadata_file metadata);;
    let! uploaded :=
      upload_file uploader (repository uploader) experiment_branch
                  temp_metadata_file metadata_path in
    let uploaded_files :=
      if uploaded then uploaded_files ++ [metadata_path] else uploaded_files in
    match mlflow_logger with
    | Some logger => log_artifacts logger (lit "metadata") (Some temp_metadata_file)
    | None => ret tt
    end;;
    ext (EvRemove temp_metadata_file) (λ t, os_remove w t temp_metadata_file);;
    ret uploaded_files
  else ret uploaded_files.

(** The dictionary [final_metrics], in the order of the source. *)
Definition final_metrics (uploaded_files failed_files result_files : list pystr)
  : M trace (pydict Q) :=
  let! rate :=
    if nonempty result_files
    then truediv (py_len uploaded_files) (py_len result_files)
    else ret (PInt 0) in
  ret [(lit "uploaded_files_count", len uploaded_files);
       (lit "failed_files_count", len failed_files);
       (lit "total_files_count", len result_files);
       (lit "upload_success_rate", value rate)].

Definition commit_message_of (timestamp : pystr)
    (uploaded_files failed_files : list pystr) : pystr :=
  lit "Benchmark results from " ++ timestamp ++ newline ++ newline
  ++ lit "Uploaded " ++ str_of_nat (length uploaded_files) ++ lit " files:" ++ newline
  ++ str_join newline ((λ f, lit "- " ++ f) <$> uploaded_files)
  ++ (if nonempty failed_files
      then newline ++ newline ++ lit "Failed to upload "
           ++ str_of_nat (length failed_files) ++ lit " files:" ++ newline
           ++ str_join newline ((λ f, lit "- " ++ basename f) <$> failed_files)
      else []).

(** Lines 564-605: commit and summary. *)
Definition commit_and_report (uploader : LakeFSUploader)
    (experiment_branch timestamp : pystr) (mlflow_logger : option MLflowLogger)
    (result_files uploaded_files failed_files : list pystr) : M trace bool :=
  if nonempty uploaded_files then
    let commit_message := commit_message_of timestamp uploaded_files failed_files in
    let! commit_id :=
      commit_changes uploader (repository uploader) experiment_branch
                     commit_message in
    if str_truthy commit_id then
      match mlflow_logger with
      | Some logger =>
          let! metrics := final_metrics uploaded_files failed_files result_files in
          log_metrics logger metrics;;
          log_params logger
            [(lit "lakefs_commit_id", default [] commit_id);
             (lit "lakefs_branch", experiment_branch);
             (lit "lakefs_repository", repository uploader)]
      | None => ret tt
      end;;
      ret true
    else ret false
  else ret false.

Definition upload_benchmark_results (config : Config)
    (results_dir : option pystr) (mlflow_logger : option MLflowLogger)
  : M trace bool :=
  let results_dir :=
    match results_dir with
    | Some d => d
    | None => default (lit "data/spec_bench/model_answer") (config_results_dir config)
    end in
  let! uploader := try_uploader config in
  match uploader with
  | None => ret false
  | Some uploader =>
    let! connected := check_connection uploader in
    if negb connected then ret false else
    let! dir_exists := query (EvPathExists results_dir)
                            (λ t, os_path_exists w t results_dir) in
    if negb dir_exists then ret false else
    let pattern := path_join results_dir (lit "*.jsonl") in
    let! result_files := query (EvGlob pattern) (λ t, glob_glob w t pattern) in
    if negb (nonempty result_files) then ret false else
    let! timestamp := query (EvNow (lit "%Y%m%d_%H%M%S"))
                            (λ t, now_strftime w t (lit "%Y%m%d_%H%M%S")) in
    let experiment_branch := branch_prefix uploader ++ lit "_" ++ timestamp in
    create_branch uploader (repository uploader) experiment_branch (lit "main");;
    match mlflow_logger with
    | Some logger =>
        let run_tags :=
          [(lit "experiment_timestamp", timestamp);
           (lit "lakefs_branch", experiment_branch);
           (lit "lakefs_repository", repository uploader);
           (lit "results_count", str_of_nat (length result_files))] in
        start_run logger (lit "benchmark_" ++ timestamp) run_tags;;
        let! info := get_system_info in
        log_params logger info
    | None => ret tt
    end;;
    let! files :=
      upload_loop uploader experiment_branch timestamp mlflow_logger result_files in
    let! uploaded_files :=
      publish_metadata config uploader results_dir experiment_branch timestamp
                       mlflow_logger files.1 in
    commit_and_report uploader experiment_branch timestamp mlflow_logger
                      result_files uploaded_files files.2
  end.

(** *** main *)

(** The two [except] clauses of [main].  [mlflow_logger] is the state of
    the local variable when the exception reached the [try] statement;
    [SystemExit] matches neither clause. *)
Definition main_except {A} (mlflow_logger : local (option MLflowLogger))
    (e : exn) : M trace A :=
  match e with
  | KeyboardInterrupt =>
      let! logger := read_local mlflow_logger in
      match logger with
      | Some l => end_run l
      | None => ret tt
      end;;
      sys_exit 130
  | PyError _ =>
      let! logger := read_local mlflow_logger in
      match logger with
      | Some l => end_run l
      | None => ret tt
      end;;
      sys_exit 1
  | SystemExit code => raise (SystemExit code)
  end.

(** A stretch of the [try] body during which [mlflow_logger] does not
    change. *)
Definition guarded {A} (mlflow_logger : local (option MLflowLogger))
    (body : M trace A) : M trace A :=
  λ t, match body t with
       | (Raise e, t') => main_except mlflow_logger e t'
       | r => r
       end.

(** [main] from the [try] statement on ([load_config] and [setup_logging]
    have run).  In the single-file branch [mlflow_logger] is never
    assigned; in the batch branch it is [None] while the logger is built
    and the logger afterwards. *)
Definition main (args : Args) (config : Config) : M trace unit :=
  if str_truthy (args_single_file args) then
    guarded Unbound (
      let! success :=
        upload_single_result config (default [] (args_single_file args))
                             (args_model_name args) in
      sys_exit (if success then 0 else 1))
  else
    let! mlflow_logger :=
      guarded (Bound None) (
        if negb (args_no_mlflow args)
        then let! l := MLflowLogger_init config in ret (Some l)
        else ret None) in
    guarded (Bound mlflow_logger) (
      let! success :=
        upload_benchmark_results config (args_results_dir args) mlflow_logger in
      match mlflow_logger with
      | Some l => end_run l
      | None => ret tt
      end;;
      sys_exit (if success then 0 else 1)).

End Program.

(** The run of the process: exit status and trace, from an empty history. *)
Definition run_main (w : World) (args : Args) (config : Config) : Z * trace :=
  let (r, t) := main w args config [] in (exit_status r, t).

(** ** Vocabulary of the properties *)

(** *** Events of a trace *)

Definition is_commit (e : event) : bool :=
  match e with EvCommit _ _ _ _ => true | _ => false end.

(** The commit call returned an id that [if commit_id:] accepts. *)
Definition commit_obtained (e : event) : bool :=
  match e with EvCommit _ _ _ (Returns (_ :: _)) => true | _ => false end.

Definition upload_succeeded (e : event) : bool :=
  match e with EvUploadObject _ _ _ (Returns _) => true | _ => false end.

(** An upload that did not go through: the local file could not be read, or
    the store refused the object. *)
Definition upload_failed (e : event) : bool :=
  match e with
  | EvReadBytes _ (Throws _) | EvUploadObject _ _ _ (Throws _) => true
  | _ => false
  end.

Definition is_end_run (e : event) : bool :=
  match e with EvEndRun _ => true | _ => false end.

(** Events of the LakeFS SDK. *)
Definition is_store_call (e : event) : bool :=
  match e with
  | EvListRepositories _ | EvCreateBranch _ _ _ _
  | EvUploadObject _ _ _ _ | EvCommit _ _ _ _ => true
  | _ => false
  end.

Definition outcome_interrupted {A} (o : outcome A) : bool :=
  match o with Interrupted => true | _ => false end.

(** The call was cut short by [KeyboardInterrupt]. *)
Definition interrupted (e : event) : bool :=
  match e with
  | EvListRepositories o | EvCreateBranch _ _ _ o | EvUploadObject _ _ _ o
  | EvSetTrackingUri _ o | EvSetExperiment _ o | EvLogParam _ _ o
  | EvLogMetric _ _ o | EvLogArtifact _ _ o | EvLogArtifacts _ o | EvEndRun o
  | EvEnvironSet _ _ o | EvReadBytes _ o | EvWriteJson _ _ o | EvRemove _ o =>
      outcome_interrupted o
  | EvCommit _ _ _ o | EvStartRun _ _ o => outcome_interrupted o
  | EvReadLines _ o => outcome_interrupted o
  | EvSystemInfo o => outcome_interrupted o
  | EvPathExists _ _ | EvGetSize _ _ | EvGlob _ _ | EvNow _ _ => false
  end.

Definition count_events (p : event → bool) (t : trace) : nat :=
  length (List.filter p t).

(** The remote paths of the objects the store accepted, in order. *)
Definition accepted_paths (t : trace) : list pystr :=
  omap (λ e, match e with
             | EvUploadObject _ _ path (Returns _) => Some path
             | _ => None
             end) t.

(** *** Record sets

    A record of the input format: an object whose [choices], when present,
    is an array; the first choice, when there is one, is an object whose
    four series, when present, are arrays of numbers. *)

Definition number_array (v : json) : bool :=
  match v with
  | JArr l => forallb (λ x, match x with JNum _ => true | _ => false end) l
  | _ => false
  end.

Definition series_keys : list pystr :=
  [lit "wall_time"; lit "decoding_steps"; lit "new_tokens"; lit "accept_lengths"].

Definition wf_choice (c : json) : bool :=
  match c with
  | JObj kv =>
      forallb (λ key, match dict_lookup key kv with
                      | Some v => number_array v
                      | None => true
                      end) series_keys
  | _ => false
  end.

Definition wf_record (r : json) : bool :=
  match r with
  | JObj kv =>
      match dict_lookup (lit "choices") kv with
      | None => true
      | Some (JArr []) => true
      | Some (JArr (c :: _)) => wf_choice c
      | Some _ => false
      end
  | _ => false
  end.

(** The numbers a record contributes to a series: those of the array under
    [key] in its first choice, none when anything on the way is absent. *)
Definition numbers_of (v : json) : list pynum :=
  match v with
  | JArr l => omap as_number l
  | _ => []
  end.

Definition field_values (key : pystr) (r : json) : list pynum :=
  match r with
  | JObj kv =>
      match dict_lookup (lit "choices") kv with
      | Some (JArr (JObj ckv :: _)) =>
          match dict_lookup key ckv with
          | Some v => numbers_of v
          | None => []
          end
      | _ => []
      end
  | _ => []
  end.

(** A flattened series of a record set: its numbers, and their values. *)
Definition series_of (key : string) (results : list json) : list pynum :=
  concat (field_values (lit key) <$> results).


(** The integers of a series that the statistics convert to a float are in
    the range of a float: the series has fewer than [float_limit] entries,
    and the absolute values of its [int] entries add up to less than
    [float_limit], which bounds every entry, every partial sum and the
    quotient of the sum by the length. *)
Fixpoint int_mass (l : list pynum) : Z :=
  match l with
  | [] => 0
  | PInt z :: l' => Z.abs z + int_mass l'
  | PFloat _ :: l' => int_mass l'
  end.

Definition series_in_range (l : list pynum) : bool :=
  (Z.of_nat (length l) <? float_limit)%Z && (int_mass l <? float_limit)%Z.

Definition integers_in_range (results : list json) : bool :=
  forallb (λ key, series_in_range (series_of key results))
          ["wall_time"; "decoding_steps"; "new_tokens"; "accept_lengths"]%string.

(** Two optional values that are equal as rational numbers. *)
Abbreviation same_value := (option_Forall2 Qeq).

(** [metrics.get(f'{benchmark_name}{suffix}')] *)
Definition metric (metrics : pydict Q) (benchmark_name : pystr) (suffix : string)
  : option Q :=
  dict_lookup (benchmark_name ++ lit suffix) metrics.







(** The records of a file without blank or malformed lines. *)
Definition file_of (results : list json) : list jsonl_line := JsonLine <$> results.


(** *** The process *)

(** The call [mlflow_logger.end_run()] of [main] makes after the history [t]. *)
Definition end_run_events (w : World) (logger : option MLflowLogger) (t : trace)
  : trace :=
  match logger with
  | Some l => if enabled l then [EvEndRun (mlflow_end_run w t)] else []
  | None => []
  end.

(** The exit status [main] chooses for the outcome of the publishing step. *)
Definition status_of (r : res bool) : Z :=
  match r with
  | Ret true => 0
  | Ret false => 1
  | Raise (PyError _) => 1
  | Raise KeyboardInterrupt => 130
  | Raise (SystemExit code) => code
  end.

(** The logger [main] works with in batch mode, when there is one. *)
Definition batch_logger (w : World) (args : Args) (config : Config)
  : option MLflowLogger :=
  if args_no_mlflow args then None
  else match MLflowLogger_init w config [] with
       | (Ret l, _) => Some l
       | _ => None
       end.

(** A batch run whose tracker was built and is enabled. *)
Definition tracker_active (w : World) (args : Args) (config : Config) : bool :=
  negb (str_truthy (args_single_file args))
  && match batch_logger w args config with
     | Some l => enabled l
     | None => false
     end.

(** The tracker credentials are not both in the configuration. *)
Definition credentials_missing (config : Config) : bool :=
  match config_mlflow config with
  | Some c =>
      match mlflow_username c, mlflow_password c with
      | Some _, Some _ => false
      | _, _ => true
      end
  | None => true
  end.

(** Two invocations of [create_branch] with identical arguments. *)
Definition create_branch_twice (w : World) (self : LakeFSUploader)
    (repo branch_name source_branch : pystr) : M trace (bool * bool) :=
  let! first := create_branch w self repo branch_name source_branch in
  let! second := create_branch w self repo branch_name source_branch in
  ret (first, second).

(** The branch [name] of [repo] was created by the call [e]. *)
Definition created (repo name : pystr) (e : event) : bool :=
  match e with
  | EvCreateBranch r n _ (Returns _) => bool_decide (r = repo) && bool_decide (n = name)
  | _ => false
  end.

(** A store that refuses to create a branch that exists. *)
Definition refuses_existing (w : World) : Prop :=
  ∀ t repo name source,
    existsb (created repo name) t = true →
    ∃ kind, sdk_create_branch w t repo name source = Throws kind.

(** [mlflow.log_metric] raised. *)
Definition log_metric_failed (e : event) : bool :=
  match e with EvLogMetric _ _ (Throws _) => true | _ => false end.

(** The ratio [(n + 1) / n]. *)
Definition rate_over (n : nat) : Q :=
  (inject_Z (Z.of_nat (S n)) / inject_Z (Z.of_nat n))%Q.

(** *** Reasoning about traces *)

(** The collaborator an event belongs to. *)
Inductive ekind :=
| KProbe | KBranch | KUpload | KCommit | KSetup | KLog | KEndRun | KFile.

Definition kind (e : event) : ekind :=
  match e with
  | EvListRepositories _ | EvPathExists _ _ | EvGetSize _ _ | EvGlob _ _
  | EvNow _ _ | EvSystemInfo _ => KProbe
  | EvCreateBranch _ _ _ _ => KBranch
  | EvReadBytes _ _ | EvUploadObject _ _ _ _ => KUpload
  | EvCommit _ _ _ _ => KCommit
  | EvSetTrackingUri _ _ | EvSetExperiment _ _ | EvEnvironSet _ _ _ => KSetup
  | EvStartRun _ _ _ | EvLogParam _ _ _ | EvLogMetric _ _ _
  | EvLogArtifact _ _ _ | EvLogArtifacts _ _ | EvReadLines _ _ => KLog
  | EvEndRun _ => KEndRun
  | EvWriteJson _ _ _ | EvRemove _ _ => KFile
  end.

Definition ekind_eqb (a b : ekind) : bool :=
  match a, b with
  | KProbe, KProbe | KBranch, KBranch | KUpload, KUpload | KCommit, KCommit
  | KSetup, KSetup | KLog, KLog | KEndRun, KEndRun | KFile, KFile => true
  | _, _ => false
  end.

Definition allowed (ks : list ekind) (e : event) : bool :=
  existsb (ekind_eqb (kind e)) ks.

(** [wp m Q t]: started after the history [t], [m] appends the events [d],
    and its result and [d] satisfy [Q]. *)
Definition wp {A} (m : M trace A) (Q : res A → trace → Prop) (t : trace) : Prop :=
  ∃ d, (m t).2 = t ++ d ∧ Q (m t).1 d.

Definition not_exit {A} (r : res A) : Prop :=
  match r with Raise (SystemExit _) => False | _ => True end.

(** Nothing but [KeyboardInterrupt] escapes. *)
Definition only_interrupt {A} (r : res A) : Prop :=
  match r with
  | Ret _ | Raise KeyboardInterrupt => True
  | Raise _ => False
  end.

(** [m] only makes calls of the kinds [ks] and does not leave through
    [sys.exit]. *)
Definition confined (ks : list ekind) {A} (m : M trace A) : Prop :=
  ∀ t, wp m (λ r d, Forall (λ e, allowed ks e = true) d ∧ not_exit r) t.

(** What a run of [upload_file] for the remote path [path] leaves. *)
Definition upload_file_post (path : pystr) (r : res bool) (d : trace) : Prop :=
  match r with
  | Ret true => accepted_paths d = [path] ∧ Forall (λ e, upload_failed e = false) d
  | Ret false => accepted_paths d = [] ∧ Exists (λ e, upload_failed e = true) d
  | Raise KeyboardInterrupt => accepted_paths d = []
  | Raise _ => False
  end.

(** The commit policy of a batch run with result [r] and events [d]: a
    commit is only attempted after an accepted upload; without an accepted
    upload there is no commit and no success; success is a commit id
    obtained in a run that is not interrupted afterwards. *)
Definition publish_post (r : res bool) (d : trace) : Prop :=
  (∀ d1 e d2, d = d1 ++ e :: d2 → is_commit e = true → accepted_paths d1 ≠ [])
  ∧ (accepted_paths d = [] → Forall (λ e, is_commit e = false) d ∧ r ≠ Ret true)
  ∧ (r = Ret true ↔ existsb commit_obtained d = true ∧ r ≠ Raise KeyboardInterrupt)
  ∧ not_exit r.

(** What the summary of a successful batch run over [files] logs when no
    upload and no [log_metric] call fails. *)
Definition rate_post (files : list pystr) (r : res bool) (d : trace) : Prop :=
  r = Ret true →
  Forall (λ e, upload_failed e = false) d →
  Forall (λ e, log_metric_failed e = false) d →
  EvLogMetric (lit "upload_success_rate") (rate_over (length files)) (Returns tt) ∈ d.

(** *** Auxiliary definitions of the proofs *)

(** The records of the lines that are neither blank nor malformed. *)
Definition records_of (lines : list jsonl_line) : list json :=
  omap (λ l, match l with JsonLine v => Some v | _ => None end) lines.







(** The result of a computation that neither blocks nor exits: a value or
    an [Exception]. *)
Definition value_or_error {A} (r : res A) : Prop :=
  match r with
  | Ret _ | Raise (PyError _) => True
  | Raise _ => False
  end.

(** [m] keeps the invariant [I] of the state, whether it returns or
    raises, and raises nothing but [Exception]s. *)
Definition keeps {S A} (I : S → Prop) (m : M S A) : Prop :=
  ∀ s, I s → I (m s).2 ∧ value_or_error (m s).1.

(** [s] ends with [sfx]. *)
Definition ends_with (sfx s : pystr) : bool :=
  bool_decide (drop (length s - length sfx) s = sfx).

(** An entry of the dictionary of a benchmark: its key is not the key of the
    summary's success rate, and an acceptance rate lies in [0, 1]. *)
Definition entry_ok (benchmark_name : pystr) (kv : pystr * Q) : Prop :=
  kv.1 ≠ lit "upload_success_rate"
  ∧ (kv.1 = benchmark_name ++ lit "_acceptance_rate" → (0 <= kv.2 <= 1)%Q).

Definition metrics_ok (benchmark_name : pystr) (metrics : pydict Q) : Prop :=
  Forall (entry_ok benchmark_name) metrics.

(** A [log_metric] call for the key [upload_success_rate]. *)
Definition rate_metric (e : event) : bool :=
  match e with
  | EvLogMetric k _ _ => bool_decide (k = lit "upload_success_rate")
  | _ => false
  end.

(** A call that does not log the summary's success rate. *)
Abbreviation not_rate_metric := (λ e : event, rate_metric e = false).

(** Every call that [m] makes satisfies [P]. *)
Definition emits (P : event → Prop) {A} (m : M trace A) : Prop :=
  ∀ t, wp m (λ _ d, Forall P d) t.

(** A call that logs the summary's success rate logs the value [q]. *)
Definition reports_rate (q : Q) (e : event) : Prop :=
  match e with
  | EvLogMetric k v _ => k = lit "upload_success_rate" → v = q
  | _ => True
  end.

(** In a successful batch run over [files] in which no upload fails, the
    success rate is logged with no other value than [(n + 1) / n]. *)
Definition rate_only (files : list pystr) (r : res bool) (d : trace) : Prop :=
  r = Ret true →
  Forall (λ e, upload_failed e = false) d →
  Forall (reports_rate (rate_over (length files))) d.


(** *** Sample records *)




(** *** Sample worlds *)

(** A store that, like LakeFS, refuses to create a branch that a previous
    call created in the same repository. *)
Definition refuse_existing_branch (t : trace) (repo name source : pystr)
  : outcome unit :=
  if existsb (λ e, match e with
                   | EvCreateBranch r n _ (Returns _) =>
                       bool_decide (r = repo) && bool_decide (n = name)
                   | _ => false
                   end) t
  then Throws "ApiException"
  else Returns tt.

(** A world in which everything works, except what the arguments script. *)
Definition scripted_world (files : list pystr)
    (branch : trace → pystr → pystr → pystr → outcome unit)
    (upload : trace → pystr → pystr → pystr → outcome unit)
    (commit : outcome pystr) (experiment : outcome unit) : World :=
  {| MLFLOW_AVAILABLE := true;
     os_path_exists := λ _ _, true;
     os_path_getsize := λ _ _, 100%N;
     glob_glob := λ _ _, files;
     now_strftime := λ _ _, lit "20240101";
     list_repositories := λ _, Returns tt;
     sdk_create_branch := branch;
     sdk_upload_object := upload;
     sdk_commit := λ _ _ _ _, commit;
     mlflow_set_tracking_uri := λ _ _, Returns tt;
     mlflow_set_experiment := λ _ _, experiment;
     mlflow_start_run := λ _ _ _, Returns (lit "run1");
     mlflow_log_param := λ _ _ _, Returns tt;
     mlflow_log_metric := λ _ _ _, Returns tt;
     mlflow_log_artifact := λ _ _ _, Returns tt;
     mlflow_log_artifacts := λ _ _, Returns tt;
     mlflow_end_run := λ _, Returns tt;
     os_environ_set := λ _ _ _, Returns tt;
     read_bytes := λ _ _, Returns tt;
     read_lines := λ _ _, Returns [];
     system_info := λ _, Returns [(lit "platform", lit "Linux")];
     write_json := λ _ _ _, Returns tt;
     os_remove := λ _ _, Returns tt |}.

Definition upload_always (o : outcome unit) : trace → pystr → pystr → pystr → outcome unit :=
  λ _ _ _ _, o.

Definition sample_lakefs : LakeFSConfig :=
  {| lakefs_endpoint := Some (lit "http://lakefs");
     lakefs_repository := Some (lit "bench");
     lakefs_branch_prefix := None;
     lakefs_access_key := Some (lit "key");
     lakefs_secret_key := Some (lit "secret") |}.

Definition sample_config (username password : option pystr) : Config :=
  {| config_lakefs := Some sample_lakefs;
     config_mlflow :=
       Some {| mlflow_tracking_uri := Some (lit "http://mlflow");
               mlflow_username := username;
               mlflow_password := password;
               mlflow_experiment_name := None |};
     config_default_tags := None;
     config_results_dir := None |}.

Definition batch_args : Args :=
  {| args_results_dir := Some (lit "out"); args_no_mlflow := false;
     args_single_file := None; args_model_name := None |}.

Definition single_args : Args :=
  {| args_results_dir := None; args_no_mlflow := false;
     args_single_file := Some (lit "out/a.jsonl");
     args_model_name := Some (lit "--bad/name") |}.

Definition sample_uploader : LakeFSUploader :=
  {| endpoint := lit "http://lakefs"; repository := lit "bench";
     branch_prefix := lit "experiment" |}.

Definition nominal_world : World :=
  scripted_world [lit "out/a.jsonl"; lit "out/b.jsonl"] refuse_existing_branch
                 (upload_always (Returns tt)) (Returns (lit "c0ffee")) (Returns tt).

(** Every upload is cut short by Ctrl-C. *)
Definition interrupting_world : World :=
  scripted_world [lit "out/a.jsonl"; lit "out/b.jsonl"] refuse_existing_branch
                 (upload_always Interrupted) (Returns (lit "c0ffee")) (Returns tt).

Definition full_config : Config := sample_config (Some (lit "user")) (Some (lit "pass")).

(** The store refuses every object. *)
Definition refusing_world : World :=
  scripted_world [lit "out/a.jsonl"; lit "out/b.jsonl"] refuse_existing_branch
                 (upload_always (Throws "ApiException")) (Returns (lit "c0ffee"))
                 (Returns tt).

(** Three result files; the store refuses the second. *)
Definition partial_world : World :=
  scripted_world [lit "out/a.jsonl"; lit "out/b.jsonl"; lit "out/c.jsonl"]
                 refuse_existing_branch
                 (λ _ _ _ path, if bool_decide (path = lit "results/20240101/b.jsonl")
                                then Throws "ApiException" else Returns tt)
                 (Returns (lit "c0ffee")) (Returns tt).

(** [w] with another answer to [mlflow.end_run]. *)
Definition with_end_run (answer : trace → outcome unit) (w : World) : World :=
  {| MLFLOW_AVAILABLE := MLFLOW_AVAILABLE w;
     os_path_exists := os_path_exists w;
     os_path_getsize := os_path_getsize w;
     glob_glob := glob_glob w;
     now_strftime := now_strftime w;
     list_repositories := list_repositories w;
     sdk_create_branch := sdk_create_branch w;
     sdk_upload_object := sdk_upload_object w;
     sdk_commit := sdk_commit w;
     mlflow_set_tracking_uri := mlflow_set_tracking_uri w;
     mlflow_set_experiment := mlflow_set_experiment w;
     mlflow_start_run := mlflow_start_run w;
     mlflow_log_param := mlflow_log_param w;
     mlflow_log_metric := mlflow_log_metric w;
     mlflow_log_artifact := mlflow_log_artifact w;
     mlflow_log_artifacts := mlflow_log_artifacts w;
     mlflow_end_run := answer;
     os_environ_set := os_environ_set w;
     read_bytes := read_bytes w;
     read_lines := read_lines w;
     system_info := system_info w;
     write_json := write_json w;
     os_remove := os_remove w |}.

(** Ctrl-C arrives during the first call of [mlflow.end_run]. *)
Definition interrupted_close_world : World :=
  with_end_run (λ t, if existsb is_end_run t then Returns tt else Interrupted)
               nominal_world.

Definition sample_logger : MLflowLogger :=
  {| enabled := true; experiment_name := Some (lit "spec-bench-evaluation");
     default_tags := Some [] |}.

(** ** Vocabulary of the further properties *)

(** The suffixes of the keys [_parse_benchmark_results] writes, in the
    order of the source. *)
Definition metric_suffixes : list string :=
  ["_total_questions";
   "_avg_wall_time"; "_total_wall_time"; "_max_wall_time"; "_min_wall_time";
   "_avg_decoding_steps"; "_total_decoding_steps";
   "_avg_new_tokens"; "_total_new_tokens";
   "_avg_tokens_per_sec"; "_max_tokens_per_sec";
   "_avg_accept_length"; "_max_accept_length"; "_acceptance_rate"].

(** An array cut down to its first element. *)
Definition head_only (v : json) : json :=
  match v with
  | JArr (c :: _) => JArr [c]
  | _ => v
  end.

(** A record with the array under [choices] cut down to its first
    element. *)
Definition first_choice_only (r : json) : json :=
  match r with
  | JObj kv =>
      JObj ((λ p, if bool_decide (p.1 = lit "choices")
                  then (p.1, head_only p.2) else p) <$> kv)
  | _ => r
  end.

(** The items [log_metrics] passed to [mlflow.log_metric], in order. *)
Definition logged_metrics (d : trace) : pydict Q :=
  omap (λ e, match e with EvLogMetric k v _ => Some (k, v) | _ => None end) d.

(** The call returned. *)
Definition returned (e : event) : bool :=
  match e with
  | EvListRepositories (Returns _) | EvCreateBranch _ _ _ (Returns _)
  | EvUploadObject _ _ _ (Returns _) | EvCommit _ _ _ (Returns _)
  | EvSetTrackingUri _ (Returns _) | EvSetExperiment _ (Returns _)
  | EvStartRun _ _ (Returns _) | EvLogParam _ _ (Returns _)
  | EvLogMetric _ _ (Returns _) | EvLogArtifact _ _ (Returns _)
  | EvLogArtifacts _ (Returns _) | EvEndRun (Returns _)
  | EvEnvironSet _ _ (Returns _) | EvReadBytes _ (Returns _)
  | EvReadLines _ (Returns _) | EvSystemInfo (Returns _)
  | EvWriteJson _ _ (Returns _) | EvRemove _ (Returns _)
  | EvPathExists _ _ | EvGetSize _ _ | EvGlob _ _ | EvNow _ _ => true
  | _ => false
  end.

(** The configuration has what [LakeFSUploader.__init__] cannot do without:
    the [lakefs] section with its endpoint and repository, and an access key
    and a secret key that are not empty. *)
Definition uploader_configured (config : Config) : bool :=
  match config_lakefs config with
  | Some c =>
      match lakefs_endpoint c, lakefs_repository c with
      | Some _, Some _ =>
          str_truthy (lakefs_access_key c) && str_truthy (lakefs_secret_key c)
      | _, _ => false
      end
  | None => false
  end.

(** What a single-file run with result [r] and events [d] leaves: no
    [Exception]; success is a commit id obtained; a commit is the last call
    and follows an accepted upload; at most one object is uploaded. *)
Definition single_post (r : res bool) (d : trace) : Prop :=
  only_interrupt r
  ∧ (r = Ret true ↔ existsb commit_obtained d = true)
  ∧ (∀ d1 e d2, d = d1 ++ e :: d2 → is_commit e = true →
                accepted_paths d1 ≠ [] ∧ d2 = [])
  ∧ (length (accepted_paths d) ≤ 1)%nat.

(** [results_dir] as [upload_benchmark_results] resolves it: the argument,
    else [benchmark.results_dir] of the configuration, else the default. *)
Definition resolved_results_dir (config : Config) (results_dir : option pystr)
  : pystr :=
  match results_dir with
  | Some d => d
  | None => default (lit "data/spec_bench/model_answer") (config_results_dir config)
  end.

(** Lines 512-605 of [upload_benchmark_results]: the tracker run is
    started, the files are uploaded, the manifest is published and the
    branch is committed. *)
Definition publish_on_branch (w : World) (config : Config)
    (results_dir : pystr) (mlflow_logger : option MLflowLogger)
    (uploader : LakeFSUploader) (result_files : list pystr) (timestamp : pystr)
  : M trace bool :=
  let experiment_branch := branch_prefix uploader ++ lit "_" ++ timestamp in
  match mlflow_logger with
  | Some logger =>
      let run_tags :=
        [(lit "experiment_timestamp", timestamp);
         (lit "lakefs_branch", experiment_branch);
         (lit "lakefs_repository", repository uploader);
         (lit "results_count", str_of_nat (length result_files))] in
      start_run w logger (lit "benchmark_" ++ timestamp) run_tags;;
      let! info := get_system_info w in
      log_params w logger info
  | None => ret tt
  end;;
  let! files :=
    upload_loop w uploader experiment_branch timestamp mlflow_logger result_files in
  let! uploaded_files :=
    publish_metadata w config uploader results_dir experiment_branch timestamp
                     mlflow_logger files.1 in
  commit_and_report w uploader experiment_branch timestamp mlflow_logger
                    result_files uploaded_files files.2.

(** Lines 505-605: what the function does once it has found result files
    and read the clock. *)
Definition publish_result_files (w : World) (config : Config)
    (results_dir : pystr) (mlflow_logger : option MLflowLogger)
    (uploader : LakeFSUploader) (result_files : list pystr) (timestamp : pystr)
  : M trace bool :=
  create_branch w uploader (repository uploader)
                (branch_prefix uploader ++ lit "_" ++ timestamp) (lit "main");;
  publish_on_branch w config results_dir mlflow_logger uploader result_files
                    timestamp.

(** The events with which a batch run that found [result_files] begins. *)
Definition batch_head (results_dir : pystr) (result_files : list pystr)
    (timestamp : pystr) : trace :=
  [EvListRepositories (Returns tt);
   EvPathExists results_dir true;
   EvGlob (path_join results_dir (lit "*.jsonl")) result_files;
   EvNow (lit "%Y%m%d_%H%M%S") timestamp].

(** The calls a batch run makes after it has read the clock. *)
Definition publish_event (e : event) : bool :=
  match e with
  | EvCreateBranch _ _ _ _ | EvStartRun _ _ _ | EvSystemInfo _ | EvLogParam _ _ _
  | EvReadBytes _ _ | EvUploadObject _ _ _ _ | EvPathExists _ _ | EvReadLines _ _
  | EvLogMetric _ _ _ | EvGetSize _ _ | EvWriteJson _ _ _ | EvLogArtifact _ _ _
  | EvRemove _ _ | EvCommit _ _ _ _ => true
  | _ => false
  end.

(** The call [e] is consistent with a run that read the time [ts] and works
    on the branch [branch] of the repository [repo]: the branch is created
    from [main], objects go to that branch under [results/ts/], the commit
    is made on that branch. *)
Definition addressed (repo branch ts : pystr) (e : event) : Prop :=
  match e with
  | EvNow _ now => now = ts
  | EvCreateBranch r b source _ => r = repo ∧ b = branch ∧ source = lit "main"
  | EvUploadObject r b path _ =>
      r = repo ∧ b = branch
      ∧ ∃ name, path = lit "results/" ++ ts ++ lit "/" ++ name ∧ 47%N ∉ name
  | EvCommit r b _ _ => r = repo ∧ b = branch
  | _ => True
  end.

(** An object, when [e] uploads one, goes to [path]. *)
Definition uploads_to (path : pystr) (e : event) : Prop :=
  match e with
  | EvUploadObject _ _ p _ => p = path
  | _ => True
  end.

(** The branch of a single-file run. *)
Definition single_branch (uploader : LakeFSUploader) (model_name : option pystr)
    (timestamp : pystr) : pystr :=
  if str_truthy model_name
  then branch_prefix uploader ++ lit "_"
       ++ sanitize_branch_name (default [] model_name) ++ lit "_" ++ timestamp
  else branch_prefix uploader ++ lit "_single_" ++ timestamp.

(** The local files [upload_file] tried to read, in order. *)
Definition attempted (d : trace) : list pystr :=
  omap (λ e, match e with EvReadBytes p _ => Some p | _ => None end) d.

(** How an attempt of [upload_file] ended, read off the call that ended it:
    [true] when the store accepted the object, [false] when reading the
    file or uploading it did not return.  A read that returned is followed
    by the upload and decides nothing. *)
Definition attempt_outcome (e : event) : option bool :=
  match e with
  | EvReadBytes _ (Returns _) => None
  | EvReadBytes _ _ => Some false
  | EvUploadObject _ _ _ (Returns _) => Some true
  | EvUploadObject _ _ _ _ => Some false
  | _ => None
  end.

(** The outcomes of the attempts of a run, in order. *)
Definition upload_outcomes (d : trace) : list bool := omap attempt_outcome d.

(** The files whose flag is [b]. *)
Definition select (b : bool) (files : list pystr) (flags : list bool) : list pystr :=
  (List.filter (λ p, Bool.eqb p.2 b) (zip files flags)).*1.

(** The local files whose upload failed, in order. *)
Definition failed_uploads (d : trace) : list pystr :=
  select false (attempted d) (upload_outcomes d).

(** The calls made before the manifest is written. *)
Fixpoint before_manifest (d : trace) : trace :=
  match d with
  | [] => []
  | EvWriteJson _ _ _ :: _ => []
  | e :: d' => e :: before_manifest d'
  end.

Definition is_write_json (e : event) : bool :=
  match e with EvWriteJson _ _ _ => true | _ => false end.

(** The temporary file of the manifest. *)
Definition temp_metadata_file (results_dir : pystr) : pystr :=
  path_join results_dir (lit "temp_metadata.json").

(** The manifest [md] describes the uploads [uploaded] found in
    [results_dir]. *)
Definition manifest_of (results_dir : pystr) (uploaded : list pystr)
    (md : Metadata) : Prop :=
  md_uploaded_files md = uploaded
  ∧ md_file_count md = length uploaded
  ∧ md_results_directory md = results_dir.

(** The manifest was built, written and removed again. *)
Definition manifest_done (results_dir : pystr) (dp dw : trace) : Prop :=
  (∃ info, EvSystemInfo (Returns info) ∈ dp)
  ∧ ∃ md dw', dw = EvWriteJson (temp_metadata_file results_dir) md (Returns tt) :: dw'
              ∧ EvRemove (temp_metadata_file results_dir) (Returns tt) ∈ dw'.

(** The calls of a batch run from the start of the tracker run on: [dl]
    until the upload loop ends, [dp] while the manifest is built, [dw] from
    the writing of the manifest to its removal, [dc] from the commit on. *)
Definition publish_shape (results_dir repo branch ts : pystr)
    (result_files : list pystr) (d : trace) : Prop :=
  ∃ dl dp dw dc failed_files,
    d = dl ++ dp ++ dw ++ dc
    ∧ Forall (λ e, allowed [KProbe; KUpload; KLog] e = true) dl
    ∧ Forall (λ e, allowed [KProbe] e = true) dp
    ∧ (accepted_paths dl = [] → dp = [] ∧ dw = [] ∧ dc = [])
    ∧ (dw = []
       ∨ ∃ md o dw',
           dw = EvWriteJson (temp_metadata_file results_dir) md o :: dw'
           ∧ manifest_of results_dir (accepted_paths dl) md
           ∧ Forall (λ e, allowed [KUpload; KLog] e = true
                          ∨ ∃ o, e = EvRemove (temp_metadata_file results_dir) o) dw')
    ∧ (dc = []
       ∨ ∃ o dc',
           dc = EvCommit repo branch
                  (commit_message_of ts (accepted_paths (dl ++ dp ++ dw)) failed_files)
                  o :: dc'
           ∧ Forall (λ e, allowed [KLog] e = true) dc'
           ∧ manifest_done results_dir dp dw
           ∧ (Forall (λ e, upload_failed e = false) dl → failed_files = [])
           ∧ (length failed_files + length (accepted_paths dl)
              = length result_files)%nat
           ∧ failed_files = failed_uploads dl).

(** The calls of a batch run: it ends before the clock is read, having only
    probed, or it goes through the creation of the branch and the
    publishing phase. *)
Definition batch_shape (results_dir : pystr) (d : trace) : Prop :=
  Forall (λ e, allowed [KProbe] e = true) d
  ∨ ∃ files ts repo branch o d',
      d = batch_head results_dir files ts
          ++ EvCreateBranch repo branch (lit "main") o :: d'
      ∧ publish_shape results_dir repo branch ts files d'.

(** The calls the manifest makes for one path: it asks whether the file
    exists and, only when it does, for its size. *)
Definition size_probe (p : pystr) (size : option N) : trace :=
  match size with
  | Some n => [EvPathExists p true; EvGetSize p n]
  | None => [EvPathExists p false]
  end.

(** The run has no tracker to talk to: [--no-mlflow], single-file mode, or
    the [mlflow] package could not be imported. *)
Definition tracker_unused (w : World) (args : Args) : bool :=
  args_no_mlflow args || str_truthy (args_single_file args)
  || negb (MLFLOW_AVAILABLE w).

(** No logger, or a disabled one. *)
Definition tracker_off (logger : option MLflowLogger) : bool :=
  match logger with
  | Some l => negb (enabled l)
  | None => true
  end.

(** The calls that are not addressed to the tracker. *)
Definition untracked : list ekind := [KProbe; KBranch; KUpload; KCommit; KFile].

(** A batch run with [--no-mlflow]. *)
Definition untracked_args : Args :=
  {| args_results_dir := Some (lit "out"); args_no_mlflow := true;
     args_single_file := None; args_model_name := None |}.

(** * Part II: properties *)

(** ** Sanitizing model names *)

Section Sanitize.

Implicit Types (name s : pystr) (c : N).

Lemma re_sub_unsafe_safe name :
  Forall (λ c, branch_safe c = true) (re_sub_unsafe name).
Proof.
  unfold re_sub_unsafe. apply Forall_fmap, Forall_forall. intros c _. simpl.
  destruct (branch_safe c) eqn:E; [exact E | reflexivity].
Qed.

Lemma re_sub_unsafe_lookup name i c :
  name !! i = Some c →
  re_sub_unsafe name !! i = Some (if branch_safe c then c else 95%N).
Proof. intros H. unfold re_sub_unsafe. by rewrite list_lookup_fmap, H. Qed.

Lemma startswith_dash_sub name :
  startswith (lit "-") (re_sub_unsafe name) = startswith (lit "-") name.
Proof.
  change (lit "-") with [45%N].
  destruct name as [|c name]; [reflexivity|].
  unfold re_sub_unsafe. rewrite fmap_cons. cbn [startswith].
  destruct (branch_safe c) eqn:E; [reflexivity|].
  destruct (N.eqb_spec 45 c) as [<-|]; [discriminate E | reflexivity].
Qed.

(** C8: every character of the result lies in [[A-Za-z0-9_-]]; a name that
    does not start with ['-'] is rewritten position by position, unsafe
    characters becoming ['_']; a name that starts with ['-'] loses that
    character and gains the prefix ["model_"]; the result never starts with
    ['-']; and ["--bad/name"] becomes ["model_-bad_name"]. *)
Theorem sanitize_branch_name_spec name :
  Forall (λ c, branch_safe c = true) (sanitize_branch_name name)
  ∧ startswith (lit "-") (sanitize_branch_name name) = false
  ∧ (startswith (lit "-") name = false →
       length (sanitize_branch_name name) = length name
       ∧ ∀ i c, name !! i = Some c →
           sanitize_branch_name name !! i
           = Some (if branch_safe c then c else 95%N))
  ∧ (∀ rest, name = 45%N :: rest →
       sanitize_branch_name name = lit "model_" ++ re_sub_unsafe rest
       ∧ ∀ i c, rest !! i = Some c →
           sanitize_branch_name name !! (length (lit "model_") + i)%nat
           = Some (if branch_safe c then c else 95%N))
  ∧ sanitize_branch_name (lit "--bad/name") = lit "model_-bad_name"
  ∧ startswith (lit "model_") (sanitize_branch_name (lit "--bad/name")) = true
  ∧ forallb branch_safe (sanitize_branch_name (lit "--bad/name")) = true.
Proof.
  unfold sanitize_branch_name. rewrite startswith_dash_sub.
  split_and!; try reflexivity.
  - destruct (startswith (lit "-") name).
    + apply Forall_app. split.
      * by repeat constructor.
      * apply Forall_drop, re_sub_unsafe_safe.
    + apply re_sub_unsafe_safe.
  - destruct (startswith (lit "-") name) eqn:E; [reflexivity|].
    by rewrite startswith_dash_sub.
  - intros ->. split.
    + unfold re_sub_unsafe. by rewrite length_fmap.
    + apply re_sub_unsafe_lookup.
  - intros rest ->. split; [reflexivity|].
    intros i c H.
    change (re_sub_unsafe rest !! i = Some (if branch_safe c then c else 95%N)).
    by apply re_sub_unsafe_lookup.
Qed.

End Sanitize.

(** ** Running the monad *)

Section Run.

Context {S : Type}.

Lemma run_bind_ret {A B} (m : M S A) (f : A → M S B) s a s' :
  m s = (Ret a, s') → bind m f s = f a s'.
Proof. unfold bind. by intros ->. Qed.

Lemma run_bind_raise {A B} (m : M S A) (f : A → M S B) s e s' :
  m s = (Raise e, s') → bind m f s = (Raise e, s').
Proof. unfold bind. by intros ->. Qed.

Lemma run_try_ret {A} (m : M S A) h s a s' :
  m s = (Ret a, s') → try_except m h s = (Ret a, s').
Proof. unfold try_except. by intros ->. Qed.

Lemma run_try_error {A} (m : M S A) h s kind s' :
  m s = (Raise (PyError kind), s') → try_except m h s = h kind s'.
Proof. unfold try_except. by intros ->. Qed.

End Run.

(** ** Aggregation *)

Section Aggregation.

Context {S : Type}.
Implicit Types (s : S) (W T : list pynum) (results : list json) (x : pynum).

Lemma lit_inj (s1 s2 : string) : lit s1 = lit s2 → s1 = s2.
Proof.
  unfold lit. revert s2. induction s1 as [|a s1 IH]; intros [|b s2] H;
    try discriminate; [reflexivity|].
  cbn in H. injection H as Hab Hrest.
  f_equal; [|by apply IH].
  rewrite <- (ascii_N_embedding a), <- (ascii_N_embedding b). by rewrite Hab.
Qed.

(** *** Integers in the range of a float *)

Lemma in_float_range_below q (b : Z) :
  (Qabs q <= inject_Z b)%Q → (b < float_limit)%Z → in_float_range q = true.
Proof.
  intros Hq Hb. unfold in_float_range. apply negb_true_iff.
  destruct (Qle_bool (inject_Z float_limit) (Qabs q)) eqn:E; [|done].
  apply Qle_bool_iff in E. pose proof (Qle_trans _ _ _ E Hq) as H.
  rewrite <- Zle_Qle in H. lia.
Qed.







(** *** Sums *)












(** *** Quotients *)



Lemma len_fmap {A B} (f : A → B) (l : list A) : len (f <$> l) = len l.
Proof. unfold len. by rewrite length_fmap. Qed.

Lemma nonempty_fmap {A B} (f : A → B) (l : list A) : nonempty (f <$> l) = nonempty l.
Proof. by destruct l. Qed.







End Aggregation.

Section Collect.

Context {S : Type}.
Implicit Types (s : S) (W T : list pynum) (results : list json) (acc : series).






Lemma json_loads_file results s :
  json_loads_lines (file_of results) s = (Ret results, s).
Proof.
  induction results as [|r results IH]; [done|].
  cbn. by erewrite run_bind_ret by apply IH.
Qed.

End Collect.


Section Statistics.

Implicit Types (W T : list pynum) (m : pydict Q) (name : pystr) (sfx : string).

Lemma dict_lookup_set {V} (k k' : pystr) (v : V) (d : pydict V) :
  dict_lookup k (dict_set k' v d)
  = if bool_decide (k' = k) then Some v else dict_lookup k d.
Proof.
  induction d as [|[k0 v0] d IH]; cbn.
  - done.
  - destruct (bool_decide_reflect (k0 = k')) as [->|Hne]; cbn.
    + by case_bool_decide.
    + rewrite IH. case_bool_decide; [|done].
      case_bool_decide; [congruence|done].
Qed.

Lemma metric_set name s v m sfx :
  metric (dict_set (name ++ lit s) v m) name sfx
  = if String.eqb s sfx then Some v else metric m name sfx.
Proof.
  unfold metric. rewrite dict_lookup_set.
  destruct (String.eqb_spec s sfx) as [->|Hne].
  - by rewrite bool_decide_eq_true_2.
  - rewrite bool_decide_eq_false_2; [done|].
    intros H%app_inv_head%lit_inj. done.
Qed.












Lemma count_positive_le (l : list Q) : (count_positive l ≤ length l)%nat.
Proof. unfold count_positive. apply length_filter. Qed.





End Statistics.

Section Claims.

Implicit Types (results : list json) (name : pystr) (lines : list jsonl_line).

Lemma json_loads_ok {S} lines (s : S) :
  MalformedLine ∉ lines → json_loads_lines lines s = (Ret (records_of lines), s).
Proof.
  induction lines as [|l lines IH]; [done|].
  intros [Hl Hnot]%not_elem_of_cons. destruct l; [by apply IH|done|].
  cbn. by erewrite run_bind_ret by (by apply IH).
Qed.









(** *** Arithmetic of the acceptance rate *)








End Claims.

(** *** Invariants of the aggregation, for every file *)

Section Invariant.

Context {S : Type} (I : S → Prop).

Lemma keeps_ret {A} (a : A) : keeps I (ret a).
Proof. by intros s H. Qed.

Lemma keeps_raise {A} kind : keeps I (raise (A:=A) (PyError kind)).
Proof. by intros s H. Qed.

Lemma keeps_bind {A B} (m : M S A) (f : A → M S B) :
  keeps I m → (∀ a, keeps I (f a)) → keeps I (bind m f).
Proof.
  intros Hm Hf s Hs. unfold bind. destruct (Hm s Hs) as [H1 H2].
  destruct (m s) as [[a|e] s1]; cbn in *; [by apply Hf|done].
Qed.

Lemma keeps_when b (m : M S unit) : keeps I m → keeps I (when b m).
Proof. intros H. destruct b; [done|apply keeps_ret]. Qed.

Lemma keeps_foldM {A B} (f : A → B → M S A) a l :
  (∀ a x, keeps I (f a x)) → keeps I (foldM f a l).
Proof.
  intros Hf. revert a. induction l as [|x l IH]; intros a; cbn [foldM].
  - apply keeps_ret.
  - apply keeps_bind; [apply Hf|apply IH].
Qed.

Lemma keeps_mapM {A B} (f : A → M S B) l :
  (∀ x, keeps I (f x)) → keeps I (mapM f l).
Proof.
  intros Hf. induction l as [|x l IH]; cbn [mapM].
  - apply keeps_ret.
  - apply keeps_bind; [apply Hf|]. intros y.
    apply keeps_bind; [apply IH|]. intros ys. apply keeps_ret.
Qed.

End Invariant.

Ltac keep_step :=
  first
    [ apply keeps_ret
    | apply keeps_raise
    | apply keeps_bind; [|intros ?]
    | apply keeps_when
    | apply keeps_foldM; intros ? ?
    | apply keeps_mapM; intros ?
    | progress cbv zeta
    | match goal with
      | |- keeps _ (match ?x with _ => _ end) => destruct x
      end ].

Ltac keep := repeat keep_step.

Section InvariantJson.

Context {S : Type} (I : S → Prop).

Lemma keeps_num v : keeps I (num v).
Proof. unfold num. keep. Qed.

Lemma keeps_truediv a b : keeps I (truediv a b).
Proof.
  unfold truediv, to_float, OverflowError, ZeroDivisionError. keep.
Qed.

Lemma keeps_py_add a b : keeps I (py_add a b).
Proof. unfold py_add, to_float, OverflowError. keep. Qed.

Lemma keeps_py_sum l : keeps I (py_sum l).
Proof.
  unfold py_sum. apply keeps_foldM. intros acc v.
  apply keeps_bind; [apply keeps_num|]. intros x. apply keeps_py_add.
Qed.

Lemma keeps_py_max l : keeps I (py_max l).
Proof. unfold py_max, extremum, num. keep. Qed.

Lemma keeps_py_min l : keeps I (py_min l).
Proof. unfold py_min, extremum, num. keep. Qed.

Lemma keeps_collect acc results : keeps I (foldM collect_result acc results).
Proof.
  apply keeps_foldM. intros a x.
  unfold collect_result, extend_if_present, dict_get, getitem0, contains_key,
    getitem_key, iter_items, TypeError.
  keep.
Qed.

Lemma keeps_json_loads lines : keeps I (json_loads_lines lines).
Proof.
  induction lines as [|[| |v] lines IH]; cbn [json_loads_lines]; keep; done.
Qed.

End InvariantJson.

Section MetricsOk.

Implicit Types (name : pystr) (s : series) (m : pydict Q).

Lemma ends_with_app name sfx : ends_with sfx (name ++ sfx) = true.
Proof.
  unfold ends_with. apply bool_decide_eq_true_2.
  rewrite length_app, Nat.add_sub. apply drop_app_length.
Qed.

Lemma key_not_rate name sfx :
  ends_with (lit sfx) (lit "upload_success_rate") = false →
  name ++ lit sfx ≠ lit "upload_success_rate".
Proof. intros H E. by rewrite <- E, ends_with_app in H. Qed.

Lemma dict_set_Forall {V} (P : pystr * V → Prop) k v (d : pydict V) :
  Forall P d → P (k, v) → Forall P (dict_set k v d).
Proof.
  intros Hd Hk. induction Hd as [|[k' v'] d Hkv Hd IH]; cbn [dict_set].
  - by repeat constructor.
  - case_bool_decide as E; [subst k'|]; by constructor.
Qed.


(** Writing any other statistic. *)
Lemma set_metric_ok name sfx v :
  ends_with (lit sfx) (lit "upload_success_rate") = false →
  String.eqb sfx "_acceptance_rate" = false →
  keeps (metrics_ok name) (set_metric name sfx v).
Proof.
  intros Hkey Hsfx m Hm. split; [|done]. unfold set_metric. cbn [snd].
  apply dict_set_Forall; [done|]. split; cbn [fst snd].
  - by apply key_not_rate.
  - intros E%app_inv_head%lit_inj. subst sfx. discriminate Hsfx.
Qed.

(** Writing the acceptance rate. *)
Lemma set_rate_ok name v :
  (0 <= v <= 1)%Q → keeps (metrics_ok name) (set_metric name "_acceptance_rate" v).
Proof.
  intros Hv m Hm. split; [|done]. unfold set_metric. cbn [snd].
  apply dict_set_Forall; [done|]. split; cbn [fst snd]; [|done].
  by apply key_not_rate.
Qed.

Lemma keeps_token_rate {S} (I : S → Prop) p : keeps I (token_rate p).
Proof.
  unfold token_rate.
  apply keeps_bind; [apply keeps_num|]. intros wt.
  destruct (Qgtb (value wt) 0); [|apply keeps_ret].
  apply keeps_bind; [apply keeps_num|]. intros nt. apply keeps_truediv.
Qed.

(** [mapM num] returns as many numbers as it was given values. *)
Lemma mapM_num_length {S} (l : list json) (st : S) qs st' :
  mapM num l st = (Ret qs, st') → length qs = length l.
Proof.
  revert qs st st'. induction l as [|x l IH]; intros qs st st'; cbn [mapM].
  - by intros [= <- _].
  - unfold bind at 1. unfold num at 1.
    destruct (as_number x); [|by intros [=]]. cbn [ret bind].
    unfold bind at 1.
    destruct (mapM num l st) as [[ys|e] st1] eqn:E; [|by intros [=]].
    intros [= <- _]. cbn [length]. f_equal. by eapply IH.
Qed.

Ltac keep_metrics_ok :=
  repeat first
    [ apply keeps_py_sum | apply keeps_py_max | apply keeps_py_min
    | apply keeps_truediv | apply keeps_token_rate
    | apply set_metric_ok; reflexivity
    | keep_step ].

Lemma wall_time_stats_ok name s : keeps (metrics_ok name) (wall_time_stats name s).
Proof. unfold wall_time_stats. keep_metrics_ok. Qed.

Lemma decoding_steps_stats_ok name s :
  keeps (metrics_ok name) (decoding_steps_stats name s).
Proof. unfold decoding_steps_stats. keep_metrics_ok. Qed.

Lemma new_tokens_stats_ok name s : keeps (metrics_ok name) (new_tokens_stats name s).
Proof. unfold new_tokens_stats, extremum. keep_metrics_ok. Qed.

(** A count of entries over the number of entries lies between 0 and 1. *)
Lemma count_over_length_bounds (k n : nat) :
  (k ≤ n)%nat → (0 < n)%nat →
  (0 <= inject_Z (Z.of_nat k) / inject_Z (Z.of_nat n) <= 1)%Q.
Proof.
  intros Hk Hn.
  assert (0 < inject_Z (Z.of_nat n))%Q as Hpos by (rewrite <- (Zlt_Qlt 0); lia).
  split.
  - apply Qle_shift_div_l; [done|]. rewrite Qmult_0_l.
    rewrite <- (Zle_Qle 0). lia.
  - apply Qle_shift_div_r; [done|]. rewrite Qmult_1_l.
    rewrite <- Zle_Qle. lia.
Qed.

(** The rate that is stored is a count of entries over the number of
    entries, whatever the entries are. *)
Lemma accept_length_stats_ok name s :
  keeps (metrics_ok name) (accept_length_stats name s).
Proof.
  unfold accept_length_stats.
  apply keeps_when.
  apply keeps_bind; [apply keeps_py_sum|intros total].
  apply keeps_bind; [apply keeps_truediv|intros avg].
  apply keeps_bind; [by apply set_metric_ok|intros _].
  apply keeps_bind; [apply keeps_py_max|intros mx].
  apply keeps_bind; [by apply set_metric_ok|intros _].
  destruct (accept_lengths s) as [|a A] eqn:EA; [apply keeps_ret|].
  rewrite bool_decide_eq_true_2 by (cbn; lia). cbn [when].
  intros m Hm. unfold bind.
  destruct (mapM num (a :: A) m) as [[als|e] m1] eqn:E.
  - pose proof (mapM_num_length _ _ _ _ E) as Hlen.
    assert (m1 = m) as ->.
    { pose proof (keeps_mapM (λ m', m' = m) num (a :: A)
                    (keeps_num _) m eq_refl) as [H _].
      by rewrite E in H. }
    unfold truediv, py_len.
    destruct (Z.eqb_spec (Z.of_nat (length (a :: A))) 0) as [?|_]; [done|].
    destruct (in_float_range _); [|done].
    apply (set_rate_ok name); [|done]. cbn [value].
    apply count_over_length_bounds; [|cbn; lia].
    rewrite <- Hlen, <- (length_fmap value). apply count_positive_le.
  - pose proof (keeps_mapM (metrics_ok name) num (a :: A)
                  (keeps_num _) m Hm) as H.
    by rewrite E in H.
Qed.

Lemma parse_body_ok lines name : keeps (metrics_ok name) (parse_body lines name).
Proof.
  unfold parse_body.
  apply keeps_bind; [apply keeps_json_loads|intros results].
  destruct (negb (nonempty results)); [apply keeps_ret|].
  apply keeps_bind; [by apply set_metric_ok|intros _].
  apply keeps_bind; [apply keeps_collect|intros s].
  apply keeps_bind; [apply wall_time_stats_ok|intros _].
  apply keeps_bind; [apply decoding_steps_stats_ok|intros _].
  apply keeps_bind; [apply new_tokens_stats_ok|intros _].
  apply accept_length_stats_ok.
Qed.

(** The dictionary returned is the dictionary of the [try] block at its
    end or at the exception. *)
Lemma parse_lines_state lines name :
  parse_lines lines name = (parse_body lines name []).2.
Proof.
  unfold parse_lines, try_except.
  by destruct (parse_body lines name []) as [[[]|[]] m].
Qed.


Lemma parse_lines_ok lines name : metrics_ok name (parse_lines lines name).
Proof.
  rewrite parse_lines_state.
  by destruct (parse_body_ok lines name []) as [H _]; [constructor|].
Qed.


(** No file makes the tracker's per-benchmark metrics use the key of the
    summary. *)
Lemma parse_lines_no_rate_key lines name :
  Forall (λ kv, kv.1 ≠ lit "upload_success_rate") (parse_lines lines name).
Proof.
  eapply Forall_impl; [apply parse_lines_ok|]. by intros kv [H _].
Qed.

End MetricsOk.

(** *** The claims on the aggregation *)

Section AggregationClaims.

Implicit Types (results : list json) (name : pystr) (lines : list jsonl_line).




End AggregationClaims.

(** *** Aggregation on concrete files *)

Section AggregationExamples.







(** One accept length that is an integer too large for a float: the mean
    of the accept lengths raises [OverflowError], and the acceptance rate is
    not computed. *)
Lemma oversized_accept_length_drops_rate :
  let results :=
    [JObj [(lit "choices",
            JArr [JObj [(lit "accept_lengths", JArr [JNum (PInt (10 ^ 400))])]])]] in
  Forall (λ r, wf_record r = true) results
  ∧ integers_in_range results = false
  ∧ (parse_body (file_of results) (lit "b") []).1 = Raise OverflowError
  ∧ metric (parse_lines (file_of results) (lit "b")) (lit "b") "_acceptance_rate"
    = None.
Proof.
  cbv zeta. split_and!; [by repeat constructor|by vm_compute..].
Qed.




End AggregationExamples.

(** ** The trace logic *)

Section Wp.

Context {A B : Type}.
Implicit Types (t d : trace).

Lemma wp_ret (a : A) (Q : res A → trace → Prop) t : Q (Ret a) [] → wp (ret a) Q t.
Proof. intros H. exists []. by rewrite app_nil_r. Qed.

Lemma wp_raise e (Q : res A → trace → Prop) t : Q (Raise e) [] → wp (raise e) Q t.
Proof. intros H. exists []. by rewrite app_nil_r. Qed.

Lemma wp_bind (m : M trace A) (f : A → M trace B) (Q : res B → trace → Prop) t :
  wp m (λ r d, match r with
               | Ret a => wp (f a) (λ r' d', Q r' (d ++ d')) (t ++ d)
               | Raise e => Q (Raise e) d
               end) t →
  wp (bind m f) Q t.
Proof.
  intros (d & Hd & H). unfold wp, bind. destruct (m t) as [[a|e] t1]; cbn in *; subst t1.
  - destruct H as (d' & Hd' & H). exists (d ++ d'). by rewrite Hd', app_assoc.
  - by exists d.
Qed.

Lemma wp_try (m : M trace A) h (Q : res A → trace → Prop) t :
  wp m (λ r d, match r with
               | Raise (PyError kind) => wp (h kind) (λ r' d', Q r' (d ++ d')) (t ++ d)
               | _ => Q r d
               end) t →
  wp (try_except m h) Q t.
Proof.
  intros (d & Hd & H). unfold wp, try_except.
  destruct (m t) as [[a|[k| |c]] t1]; cbn in *; subst t1; try by exists d.
  destruct H as (d' & Hd' & H). exists (d ++ d'). by rewrite Hd', app_assoc.
Qed.

Lemma wp_ext (record : outcome A → event) answer (Q : res A → trace → Prop) t :
  Q (res_of_outcome (answer t)) [record (answer t)] → wp (ext record answer) Q t.
Proof. intros H. by exists [record (answer t)]. Qed.

Lemma wp_query (record : A → event) answer (Q : res A → trace → Prop) t :
  Q (Ret (answer t)) [record (answer t)] → wp (query record answer) Q t.
Proof. intros H. by exists [record (answer t)]. Qed.

Lemma wp_mono (m : M trace A) (Q Q' : res A → trace → Prop) t :
  wp m Q t → (∀ r d, Q r d → Q' r d) → wp m Q' t.
Proof. intros (d & Hd & H) HQ. exists d. auto. Qed.

Lemma wp_and (m : M trace A) (Q Q' : res A → trace → Prop) t :
  wp m Q t → wp m Q' t → wp m (λ r d, Q r d ∧ Q' r d) t.
Proof.
  intros (d & Hd & H) (d' & Hd' & H'). exists d. split; [done|]. split; [done|].
  rewrite Hd in Hd'. by apply app_inv_head in Hd' as <-.
Qed.

(** What [wp] says about a run. *)
Lemma wp_run (m : M trace A) (Q : res A → trace → Prop) t r t' :
  wp m Q t → m t = (r, t') → ∃ d, t' = t ++ d ∧ Q r d.
Proof. intros (d & Hd & H) E. rewrite E in *. by exists d. Qed.

End Wp.

Section WpLoops.

Context {A B : Type}.
Implicit Types (t d : trace).

(** A loop with an invariant over the items done, the accumulator and the
    events so far. *)
Lemma wp_foldM (I : list B → A → trace → Prop) (f : A → B → M trace A)
    (l : list B) (a : A) (Q : res A → trace → Prop) t :
  I [] a [] →
  (∀ done x a d, I done a d →
     wp (f a x) (λ r d', match r with
                         | Ret a' => I (done ++ [x]) a' (d ++ d')
                         | Raise e => Q (Raise e) (d ++ d')
                         end) (t ++ d)) →
  (∀ a d, I l a d → Q (Ret a) d) →
  wp (foldM f a l) Q t.
Proof.
  intros H0 Hstep Hend.
  assert (∀ rest done a d, done ++ rest = l → I done a d →
            wp (foldM f a rest) (λ r d', Q r (d ++ d')) (t ++ d)) as Hgen.
  { induction rest as [|x rest IH]; intros done a' d Hl HI.
    - rewrite app_nil_r in Hl. subst done. apply wp_ret. rewrite app_nil_r. auto.
    - cbn [foldM]. apply wp_bind. eapply wp_mono; [by apply Hstep|].
      intros [a''|e] d' H; cbn in *.
      + rewrite <- app_assoc. eapply wp_mono.
        * apply (IH (done ++ [x])); [by rewrite <- app_assoc|done].
        * intros r d''. by rewrite app_assoc.
      + done. }
  specialize (Hgen l [] a [] eq_refl H0). rewrite app_nil_r in Hgen.
  eapply wp_mono; [exact Hgen|]. done.
Qed.

End WpLoops.

(** ** Which calls a function makes *)

Section Confined.

Implicit Types (t d : trace) (ks : list ekind).

Lemma confined_ret {A} ks (a : A) : confined ks (ret a).
Proof. intros t. by apply wp_ret. Qed.

Lemma confined_raise {A} ks e : not_exit (Raise (A:=A) e) → confined ks (raise (A:=A) e).
Proof. intros H t. by apply wp_raise. Qed.

Lemma confined_bind {A B} ks (m : M trace A) (f : A → M trace B) :
  confined ks m → (∀ a, confined ks (f a)) → confined ks (bind m f).
Proof.
  intros Hm Hf t. apply wp_bind. eapply wp_mono; [apply Hm|].
  intros [a|e] d [Hd Hr]; [|done].
  eapply wp_mono; [apply Hf|]. intros r d' [Hd' Hr']. split; [|done].
  by apply Forall_app.
Qed.

Lemma confined_try {A} ks (m : M trace A) h :
  confined ks m → (∀ kind, confined ks (h kind)) → confined ks (try_except m h).
Proof.
  intros Hm Hh t. apply wp_try. eapply wp_mono; [apply Hm|].
  intros [a|[k| |c]] d [Hd Hr]; try done.
  eapply wp_mono; [apply Hh|]. intros r d' [Hd' Hr']. split; [|done].
  by apply Forall_app.
Qed.

Lemma confined_ext {A} ks (record : outcome A → event) answer :
  (∀ o, allowed ks (record o) = true) → confined ks (ext record answer).
Proof.
  intros H t. apply wp_ext. split; [by repeat constructor|].
  by destruct (answer t).
Qed.

Lemma confined_query {A} ks (record : A → event) answer :
  (∀ a, allowed ks (record a) = true) → confined ks (query record answer).
Proof. intros H t. apply wp_query. split; [by repeat constructor|done]. Qed.

Lemma confined_foldM {A B} ks (f : A → B → M trace A) a l :
  (∀ a x, confined ks (f a x)) → confined ks (foldM f a l).
Proof.
  intros Hf. revert a. induction l as [|x l IH]; intros a; cbn [foldM].
  - apply confined_ret.
  - apply confined_bind; [apply Hf|apply IH].
Qed.

Lemma confined_forM_ {B} ks (f : B → M trace unit) l :
  (∀ x, confined ks (f x)) → confined ks (forM_ f l).
Proof.
  intros Hf. induction l as [|x l IH]; cbn [forM_].
  - apply confined_ret.
  - apply confined_bind; [apply Hf|intros _; apply IH].
Qed.

Lemma confined_when ks b (m : M trace unit) : confined ks m → confined ks (when b m).
Proof. intros H. destruct b; [done|apply confined_ret]. Qed.

Lemma allowed_sub ks ks' e :
  forallb (λ k, existsb (ekind_eqb k) ks') ks = true →
  allowed ks e = true → allowed ks' e = true.
Proof.
  unfold allowed. intros Hsub (k & Hk & E)%existsb_exists.
  rewrite forallb_forall in Hsub. specialize (Hsub k Hk).
  by destruct (kind e), k.
Qed.

Lemma confined_sub {A} ks ks' (m : M trace A) :
  confined ks m → forallb (λ k, existsb (ekind_eqb k) ks') ks = true →
  confined ks' m.
Proof.
  intros H Hsub t. eapply wp_mono; [apply H|]. intros r d [Hd Hr]. split; [|done].
  eapply Forall_impl; [exact Hd|]. intros e. by apply allowed_sub.
Qed.

Lemma confined_run {A} ks (m : M trace A) t r t' :
  confined ks m → m t = (r, t') →
  ∃ d, t' = t ++ d ∧ Forall (λ e, allowed ks e = true) d ∧ not_exit r.
Proof. intros H E. by apply (wp_run _ _ _ _ _ (H t)). Qed.

End Confined.

Create HintDb confined discriminated.

Ltac confine_step :=
  first
    [ eapply confined_sub; [solve [eauto with confined]|reflexivity]
    | apply confined_ret
    | apply confined_raise; exact I
    | apply confined_bind; [|intros ?]
    | apply confined_try; [|intros ?]
    | apply confined_ext; intros ?; reflexivity
    | apply confined_query; intros ?; reflexivity
    | apply confined_foldM; intros ? ?
    | apply confined_forM_; intros ?
    | apply confined_when
    | progress cbv zeta
    | match goal with
      | |- confined _ (match ?x with _ => _ end) => destruct x
      | |- confined _ (let '(_, _) := ?x in _) => destruct x
      end ].

Ltac confine := repeat confine_step.

Section ConfinedProgram.

Variable w : World.

Lemma config_item_confined {A} ks (o : option A) : confined ks (config_item o).
Proof. unfold config_item. confine. Qed.

Lemma truediv_confined ks a b : confined ks (truediv a b).
Proof.
  unfold truediv, to_float, OverflowError, ZeroDivisionError. confine.
Qed.

Lemma LakeFSUploader_init_confined config : confined [] (LakeFSUploader_init config).
Proof. unfold LakeFSUploader_init, config_item. confine. Qed.

Lemma try_uploader_confined config : confined [] (try_uploader config).
Proof. unfold try_uploader, LakeFSUploader_init, config_item. confine. Qed.

Lemma upload_file_confined self repo branch lp rp :
  confined [KUpload] (upload_file w self repo branch lp rp).
Proof. unfold upload_file. confine. Qed.

Lemma create_branch_confined self repo name src :
  confined [KBranch] (create_branch w self repo name src).
Proof. unfold create_branch. confine. Qed.

Lemma commit_changes_confined self repo branch msg :
  confined [KCommit] (commit_changes w self repo branch msg).
Proof. unfold commit_changes. confine. Qed.

Lemma check_connection_confined self : confined [KProbe] (check_connection w self).
Proof. unfold check_connection. confine. Qed.

Lemma MLflowLogger_init_confined config : confined [KSetup] (MLflowLogger_init w config).
Proof. unfold MLflowLogger_init, environ_setitem. confine. Qed.

Lemma start_run_confined self name tags : confined [KLog] (start_run w self name tags).
Proof. unfold start_run. confine. Qed.

Lemma log_params_confined self params : confined [KLog] (log_params w self params).
Proof. unfold log_params. confine. Qed.

Lemma log_metrics_confined self metrics : confined [KLog] (log_metrics w self metrics).
Proof. unfold log_metrics. confine. Qed.

Lemma log_artifacts_confined self path lp : confined [KLog] (log_artifacts w self path lp).
Proof. unfold log_artifacts. confine. Qed.

Hint Resolve log_metrics_confined log_params_confined log_artifacts_confined
  start_run_confined upload_file_confined create_branch_confined
  commit_changes_confined check_connection_confined try_uploader_confined
  : confined.

Lemma log_benchmark_results_confined self file name :
  confined [KProbe; KLog] (log_benchmark_results w self file name).
Proof. unfold log_benchmark_results, _parse_benchmark_results. confine. Qed.

Lemma end_run_confined self : confined [KEndRun] (end_run w self).
Proof. unfold end_run. confine. Qed.

Lemma create_metadata_file_confined dir files config :
  confined [KProbe] (create_metadata_file w dir files config).
Proof. unfold create_metadata_file, get_system_info, config_item. confine. Qed.

Hint Resolve log_benchmark_results_confined create_metadata_file_confined : confined.

Lemma upload_single_result_confined config file model :
  confined [KProbe; KBranch; KUpload; KCommit] (upload_single_result w config file model).
Proof. unfold upload_single_result. confine. Qed.

Lemma upload_loop_confined u branch ts logger files :
  confined [KProbe; KUpload; KLog] (upload_loop w u branch ts logger files).
Proof. unfold upload_loop, upload_one. confine. Qed.

Lemma publish_metadata_confined config u dir branch ts logger up :
  confined [KProbe; KUpload; KLog; KFile]
           (publish_metadata w config u dir branch ts logger up).
Proof. unfold publish_metadata. confine. Qed.

Lemma commit_and_report_confined u branch ts logger files up fl :
  confined [KCommit; KLog] (commit_and_report w u branch ts logger files up fl).
Proof.
  unfold commit_and_report, final_metrics, truediv, to_float, py_len,
    OverflowError, ZeroDivisionError.
  confine.
Qed.

Hint Resolve upload_loop_confined publish_metadata_confined
  commit_and_report_confined : confined.

Lemma upload_benchmark_results_confined config dir logger :
  confined [KProbe; KBranch; KUpload; KCommit; KLog; KFile]
           (upload_benchmark_results w config dir logger).
Proof. unfold upload_benchmark_results, get_system_info. confine. Qed.

End ConfinedProgram.

#[export] Hint Resolve log_metrics_confined log_params_confined
  log_artifacts_confined start_run_confined upload_file_confined
  create_branch_confined commit_changes_confined check_connection_confined
  try_uploader_confined log_benchmark_results_confined
  create_metadata_file_confined upload_loop_confined publish_metadata_confined
  commit_and_report_confined end_run_confined MLflowLogger_init_confined
  upload_single_result_confined upload_benchmark_results_confined : confined.

Section MainGeneral.

Variable w : World.

Lemma count_events_app p (t1 t2 : trace) :
  count_events p (t1 ++ t2) = (count_events p t1 + count_events p t2)%nat.
Proof. unfold count_events. by rewrite List.filter_app, length_app. Qed.

Lemma count_events_none p (t : trace) :
  Forall (λ e, p e = false) t → count_events p t = 0%nat.
Proof.
  unfold count_events. induction 1 as [|e t He _ IH]; [done|].
  cbn. by rewrite He.
Qed.

Lemma no_end_run_allowed ks e :
  existsb (ekind_eqb KEndRun) ks = false → allowed ks e = true → is_end_run e = false.
Proof.
  unfold allowed. intros Hks He. destruct e; try done.
  cbn in He. congruence.
Qed.

Lemma confined_no_end_run ks (d : trace) :
  existsb (ekind_eqb KEndRun) ks = false →
  Forall (λ e, allowed ks e = true) d → count_events is_end_run d = 0%nat.
Proof.
  intros Hks Hd. apply count_events_none. eapply Forall_impl; [exact Hd|].
  intros e. by apply no_end_run_allowed.
Qed.

(** An exception on the way to the logger: [mlflow_logger] is still [None],
    nothing is closed, and the process exits with the status of the
    exception. *)
Lemma main_init_failed args config e t1 :
  str_truthy (args_single_file args) = false →
  args_no_mlflow args = false →
  MLflowLogger_init w config [] = (Raise e, t1) →
  Forall (λ ev, allowed [KSetup] ev = true) t1
  ∧ not_exit (Raise (A:=bool) e)
  ∧ run_main w args config = (status_of (Raise e), t1).
Proof.
  intros Hbatch Hno E1.
  destruct (confined_run _ _ _ _ _ (MLflowLogger_init_confined w _) E1)
    as (d1 & -> & Hd1 & Hr1). cbn [app] in *.
  split_and!; try done.
  unfold run_main, main. rewrite Hbatch, Hno. cbn [negb].
  erewrite (run_bind_raise (guarded _ _ _) _ _ (SystemExit (status_of (Raise e))));
    [done|].
  unfold guarded. erewrite run_bind_raise by exact E1.
  destruct e as [k| |c]; [| |done]; cbn [main_except read_local];
    by repeat erewrite run_bind_ret by reflexivity.
Qed.

(** The single-file branch: [mlflow_logger] is unbound, so an exception that
    reaches the [except] clauses ends in [UnboundLocalError]. *)
Lemma main_single_run args config :
  str_truthy (args_single_file args) = true →
  ∃ r d,
    upload_single_result w config (default [] (args_single_file args))
                         (args_model_name args) [] = (r, d)
    ∧ Forall (λ ev, allowed [KProbe; KBranch; KUpload; KCommit] ev = true) d
    ∧ run_main w args config
      = (match r with Ret true => 0%Z | _ => 1%Z end, d).
Proof.
  intros Hsingle. unfold run_main, main. rewrite Hsingle.
  destruct (upload_single_result w config _ _ []) as [r t] eqn:E.
  destruct (confined_run _ _ _ _ _ (upload_single_result_confined w _ _ _) E)
    as (d & -> & Hd & Hr). cbn [app] in *.
  exists r, d. split_and!; try done. unfold guarded.
  destruct r as [b|e].
  - erewrite run_bind_ret by exact E. by destruct b.
  - erewrite run_bind_raise by exact E. by destruct e.
Qed.

End MainGeneral.

Section MainClosing.

Variable w : World.
Hypothesis end_run_completes : ∀ t, mlflow_end_run w t ≠ Interrupted.

Lemma close_logger_run (logger : option MLflowLogger) t :
  (match logger with Some l => end_run w l | None => ret tt end) t
  = (Ret tt, t ++ end_run_events w logger t).
Proof.
  unfold end_run_events. destruct logger as [l|]; [|by rewrite app_nil_r].
  unfold end_run, when. destruct (enabled l); [|by rewrite app_nil_r].
  unfold try_except, ext. pose proof (end_run_completes t).
  by destruct (mlflow_end_run w t) as [[]| |].
Qed.

Lemma main_except_run {A} (logger : option MLflowLogger) e t :
  not_exit (Raise (A:=bool) e) →
  main_except w (A:=A) (Bound logger) e t
  = (Raise (SystemExit (status_of (Raise e))), t ++ end_run_events w logger t).
Proof.
  intros He. destruct e as [k| |c]; [| |done]; cbn [main_except read_local status_of].
  - erewrite run_bind_ret by reflexivity. by erewrite run_bind_ret by apply close_logger_run.
  - erewrite run_bind_ret by reflexivity. by erewrite run_bind_ret by apply close_logger_run.
Qed.

(** The [try] statement of the batch branch once [mlflow_logger] is bound:
    whatever the publishing step does short of [sys.exit], the logger is
    closed and the process exits with the matching status. *)
Lemma batch_guarded_run (logger : option MLflowLogger) (body : M trace bool) t r t' :
  body t = (r, t') → not_exit r →
  guarded w (A:=unit) (Bound logger)
    (let! success := body in
     match logger with Some l => end_run w l | None => ret tt end;;
     sys_exit (if success then 0 else 1)) t
  = (Raise (SystemExit (status_of r)), t' ++ end_run_events w logger t').
Proof.
  intros E Hr. unfold guarded. destruct r as [b|e].
  - erewrite run_bind_ret by exact E.
    erewrite run_bind_ret by apply close_logger_run.
    by destruct b.
  - erewrite run_bind_raise by exact E. by apply main_except_run.
Qed.


(** The batch branch of [main]: either the logger cannot be built and the
    process exits at once, or the publishing step runs, the logger is
    closed, and the status is that of the step. *)
Lemma main_batch_run args config :
  str_truthy (args_single_file args) = false →
  let logger := batch_logger w args config in
  (∃ e t1, args_no_mlflow args = false
           ∧ MLflowLogger_init w config [] = (Raise e, t1)
           ∧ Forall (λ ev, allowed [KSetup] ev = true) t1
           ∧ not_exit (Raise (A:=bool) e)
           ∧ run_main w args config = (status_of (Raise e), t1))
  ∨ (∃ t1 d2 r2,
       Forall (λ ev, allowed [KSetup] ev = true) t1
       ∧ Forall (λ ev, allowed [KProbe; KBranch; KUpload; KCommit; KLog; KFile] ev = true) d2
       ∧ not_exit r2
       ∧ upload_benchmark_results w config (args_results_dir args) logger t1
         = (r2, t1 ++ d2)
       ∧ run_main w args config
         = (status_of r2, (t1 ++ d2) ++ end_run_events w logger (t1 ++ d2))).
Proof.
  intros Hbatch logger. unfold batch_logger in logger.
  destruct (args_no_mlflow args) eqn:Hno.
  - right. subst logger.
    destruct (upload_benchmark_results w config (args_results_dir args) None [])
      as [r2 t2] eqn:E2.
    destruct (confined_run _ _ _ _ _ (upload_benchmark_results_confined w _ _ _) E2)
      as (d2 & -> & Hd2 & Hr2).
    exists [], d2, r2. split_and!; try done.
    unfold run_main, main. rewrite Hbatch, Hno. cbn [negb].
    erewrite run_bind_ret by reflexivity.
    erewrite batch_guarded_run by done. by destruct r2 as [[]|[]].
  - destruct (MLflowLogger_init w config []) as [r1 t1] eqn:E1.
    destruct r1 as [l|e].
    + right. subst logger.
      destruct (confined_run _ _ _ _ _ (MLflowLogger_init_confined w _) E1)
        as (d1 & -> & Hd1 & Hr1). cbn [app] in *.
      destruct (upload_benchmark_results w config (args_results_dir args) (Some l) d1)
        as [r2 t2] eqn:E2.
      destruct (confined_run _ _ _ _ _ (upload_benchmark_results_confined w _ _ _) E2)
        as (d2 & -> & Hd2 & Hr2).
      exists d1, d2, r2. split_and!; try done.
      unfold run_main, main. rewrite Hbatch, Hno. cbn [negb].
      erewrite (run_bind_ret (guarded _ _ _)); cycle 1.
      { unfold guarded. by erewrite run_bind_ret by exact E1. }
      erewrite batch_guarded_run by done. by destruct r2 as [[]|[]].
    + left. exists e, t1.
      destruct (main_init_failed w args config e t1 Hbatch Hno E1) as (? & ? & ?).
      by split_and!.
Qed.

Lemma end_run_events_count logger t :
  count_events is_end_run (end_run_events w logger t)
  = match logger with
    | Some l => if enabled l then 1%nat else 0%nat
    | None => 0%nat
    end.
Proof. unfold end_run_events. by destruct logger as [[[] ? ?]|]. Qed.

(** C6, as the code has it: provided [mlflow.end_run] itself is not
    interrupted, [mlflow.end_run] is called exactly once, as the last call
    of the process, on every exit path of a batch run whose tracker was
    built and is enabled; in single-file mode, with [--no-mlflow], and when
    the tracker is disabled or could not be built, it is never called. *)
Theorem end_run_calls args config :
  let t := (run_main w args config).2 in
  count_events is_end_run t = (if tracker_active w args config then 1 else 0)%nat
  ∧ (tracker_active w args config = true → ∃ t' o, t = t' ++ [EvEndRun o]).
Proof.
  cbn zeta. unfold tracker_active.
  destruct (str_truthy (args_single_file args)) eqn:Hmode; cbn [negb andb].
  - destruct (main_single_run w args config Hmode) as (r & d & _ & Hd & ->).
    split; [|done]. cbn [snd]. eapply confined_no_end_run; [|exact Hd]. done.
  - destruct (main_batch_run args config Hmode)
      as [(e & t1 & Hno & E1 & Ht1 & _ & ->)|(t1 & d2 & r2 & Ht1 & Hd2 & _ & _ & ->)];
      cbn [snd].
    + unfold batch_logger. rewrite Hno, E1. split; [|done].
      eapply confined_no_end_run; [|exact Ht1]. done.
    + rewrite !count_events_app, end_run_events_count.
      rewrite (confined_no_end_run [KSetup] t1 eq_refl Ht1).
      rewrite (confined_no_end_run [KProbe; KBranch; KUpload; KCommit; KLog; KFile]
                 d2 eq_refl Hd2).
      split; [by destruct (batch_logger w args config) as [[[] ? ?]|]|].
      unfold end_run_events. destruct (batch_logger w args config) as [l|]; [|done].
      intros ->. eauto.
Qed.

End MainClosing.

Section Tracker.

Variable w : World.

Lemma MLflowLogger_init_raises config t :
  MLFLOW_AVAILABLE w = true → credentials_missing config = true →
  ∃ e t', MLflowLogger_init w config t = (Raise e, t').
Proof.
  intros Havail Hmiss. unfold MLflowLogger_init, credentials_missing in *.
  rewrite Havail. cbn [negb].
  destruct (config_mlflow config) as [[uri user pass name]|]; cbn in *.
  - unfold bind, ext, environ_setitem.
    destruct uri as [[|c uri]|]; cbn;
      repeat match goal with
             | |- context [mlflow_set_tracking_uri w ?t ?u] =>
                 destruct (mlflow_set_tracking_uri w t u); cbn
             | |- context [os_environ_set w ?t ?k ?v] =>
                 destruct (os_environ_set w t k v); cbn
             end;
      destruct user, pass; try discriminate; cbn; unfold ext; cbn;
      repeat match goal with
             | |- context [os_environ_set w ?t ?k ?v] =>
                 destruct (os_environ_set w t k v); cbn
             end; eauto.
  - unfold bind, environ_setitem. cbn. eauto.
Qed.

(** A disabled tracker makes no call at all. *)
Lemma disabled_tracker_silent l name tags params metrics path lp file bench t :
  enabled l = false →
  start_run w l name tags t = (Ret None, t)
  ∧ log_params w l params t = (Ret tt, t)
  ∧ log_metrics w l metrics t = (Ret tt, t)
  ∧ log_artifacts w l path lp t = (Ret tt, t)
  ∧ log_benchmark_results w l file bench t = (Ret tt, t)
  ∧ end_run w l t = (Ret tt, t).
Proof.
  intros H.
  unfold start_run, log_params, log_metrics, log_artifacts, log_benchmark_results,
    end_run.
  by rewrite H.
Qed.

Lemma setup_not_store ks e :
  existsb (ekind_eqb KProbe) ks = false → existsb (ekind_eqb KBranch) ks = false →
  existsb (ekind_eqb KUpload) ks = false → existsb (ekind_eqb KCommit) ks = false →
  allowed ks e = true → is_store_call e = false.
Proof. unfold allowed. intros H1 H2 H3 H4 He. destruct e; cbn in *; congruence. Qed.

(** C5 on the code: with MLflow importable and the user name or the
    password missing from the configuration, [MLflowLogger.__init__] raises
    instead of returning a tracker, enabled or not; in batch mode with the
    tracker switched on the process then exits with status 1 (130 if
    interrupted meanwhile) before any call to the store. *)
Theorem tracker_init_without_credentials args config :
  MLFLOW_AVAILABLE w = true →
  credentials_missing config = true →
  (∀ t, ∃ e t', MLflowLogger_init w config t = (Raise e, t'))
  ∧ (str_truthy (args_single_file args) = false →
     args_no_mlflow args = false →
     ((run_main w args config).1 = 1%Z ∨ (run_main w args config).1 = 130%Z)
     ∧ Forall (λ e, is_store_call e = false) (run_main w args config).2).
Proof.
  intros Havail Hmiss. split; [intros t; by apply MLflowLogger_init_raises|].
  intros Hbatch Hno.
  destruct (MLflowLogger_init_raises config [] Havail Hmiss) as (e & t1 & E1).
  destruct (main_init_failed w args config e t1 Hbatch Hno E1) as (Ht1 & He & ->).
  cbn [fst snd]. split.
  - destruct e as [k| |c]; [by left|by right|done].
  - eapply Forall_impl; [exact Ht1|]. intros ev. by apply setup_not_store.
Qed.

(** C9 on the code: in single-file mode the exit status is 0 when
    [upload_single_result] returns [True] and 1 in every other case; in
    particular a run cut short by [KeyboardInterrupt] exits with 1, not
    with 130. *)
Theorem single_file_exit_status args config :
  str_truthy (args_single_file args) = true →
  let r := (upload_single_result w config (default [] (args_single_file args))
                                 (args_model_name args) []).1 in
  (run_main w args config).1 = match r with Ret true => 0%Z | _ => 1%Z end
  ∧ (r = Raise KeyboardInterrupt → (run_main w args config).1 = 1%Z).
Proof.
  intros Hsingle.
  destruct (main_single_run w args config Hsingle) as (r & d & E & _ & ->).
  rewrite E. cbn [fst]. split; [done|]. by intros ->.
Qed.

(** C7, as the code has it: [create_branch] reports the answer of the
    store, [True] when the branch is created and [False] when the store
    raises, and lets no exception through; it does not look whether the
    branch exists, so on a store that refuses to create an existing branch
    a second, identical invocation after a successful one returns [False]. *)
Theorem create_branch_reports_store self repo name source t :
  let o := sdk_create_branch w t repo name source in
  create_branch w self repo name source t
  = (match o with
     | Returns _ => Ret true
     | Throws _ => Ret false
     | Interrupted => Raise KeyboardInterrupt
     end, t ++ [EvCreateBranch repo name source o])
  ∧ (refuses_existing w →
     ∀ t1, create_branch w self repo name source t = (Ret true, t1) →
           ∃ kind, create_branch w self repo name source t1
                   = (Ret false, t1 ++ [EvCreateBranch repo name source (Throws kind)])).
Proof.
  cbn zeta.
  assert (∀ t', create_branch w self repo name source t'
                = (match sdk_create_branch w t' repo name source with
                   | Returns _ => Ret true
                   | Throws _ => Ret false
                   | Interrupted => Raise KeyboardInterrupt
                   end,
                   t' ++ [EvCreateBranch repo name source
                            (sdk_create_branch w t' repo name source)])) as Hrun.
  { intros t'. unfold create_branch, try_except, bind, ext.
    by destruct (sdk_create_branch w t' repo name source). }
  split; [apply Hrun|].
  intros Hstore t1. rewrite Hrun.
  destruct (sdk_create_branch w t repo name source) as [[]| |] eqn:E; try done.
  intros [= <-].
  destruct (Hstore (t ++ [EvCreateBranch repo name source (Returns ())])
                   repo name source) as [kind Hkind].
  { rewrite existsb_app. cbn. rewrite !bool_decide_eq_true_2 by done.
    by rewrite orb_true_r. }
  exists kind. by rewrite Hrun, Hkind.
Qed.

End Tracker.

Section ProcessExamples.

Lemma refuse_existing_branch_refuses files upload commit experiment :
  refuses_existing (scripted_world files refuse_existing_branch upload commit experiment).
Proof.
  intros t repo name source Ht. exists "ApiException". cbn.
  unfold refuse_existing_branch. unfold created in Ht. by rewrite Ht.
Qed.

(** The theorem on [mlflow.end_run] in the nominal batch run. *)
Lemma end_run_calls_witness :
  count_events is_end_run (run_main nominal_world batch_args full_config).2 = 1%nat.
Proof.
  apply (end_run_calls nominal_world); by intros t.
Defined.

(** C6 fails as stated: a single-file run that completes normally never
    calls [mlflow.end_run]. *)
Lemma single_file_never_ends_run :
  (run_main nominal_world single_args full_config).1 = 0%Z
  ∧ count_events is_end_run (run_main nominal_world single_args full_config).2 ≠ 1%nat.
Proof. by vm_compute. Qed.

(** A batch run with the password missing exits with 1 after the tracker
    set-up, without a call to the store. *)
Lemma tracker_init_without_credentials_witness :
  (run_main nominal_world batch_args (sample_config (Some (lit "user")) None)).1 = 1%Z
  ∧ Forall (λ e, is_store_call e = false)
           (run_main nominal_world batch_args (sample_config (Some (lit "user")) None)).2.
Proof.
  destruct (tracker_init_without_credentials nominal_world batch_args
              (sample_config (Some (lit "user")) None) eq_refl eq_refl)
    as [_ H].
  destruct (H eq_refl eq_refl) as [[Hexit|Hexit] Hcalls]; [by split|].
  vm_compute in Hexit. discriminate Hexit.
Defined.

(** A single-file run interrupted during the upload exits with 1. *)
Lemma single_file_exit_status_witness :
  existsb interrupted (run_main interrupting_world single_args full_config).2 = true
  ∧ (run_main interrupting_world single_args full_config).1 = 1%Z.
Proof.
  split; [reflexivity|].
  by apply (single_file_exit_status interrupting_world single_args full_config).
Defined.

(** Two identical creations on a store that refuses the second. *)
Lemma create_branch_reports_store_witness :
  ∃ kind,
    create_branch nominal_world sample_uploader (lit "bench") (lit "exp") (lit "main")
      [EvCreateBranch (lit "bench") (lit "exp") (lit "main") (Returns ())]
    = (Ret false,
       [EvCreateBranch (lit "bench") (lit "exp") (lit "main") (Returns ());
        EvCreateBranch (lit "bench") (lit "exp") (lit "main") (Throws kind)]).
Proof.
  apply (create_branch_reports_store nominal_world sample_uploader
           (lit "bench") (lit "exp") (lit "main") []).
  - apply refuse_existing_branch_refuses.
  - reflexivity.
Defined.

(** C7 fails as stated: the second of two identical invocations returns
    [False]. *)
Lemma create_branch_not_idempotent :
  (create_branch_twice nominal_world sample_uploader
     (lit "bench") (lit "exp") (lit "main") []).1 = Ret (true, false).
Proof. reflexivity. Qed.

End ProcessExamples.

Section TraceFacts.

Implicit Types (d t : trace) (ks : list ekind).

Lemma excluded_kind ks K (p : event → bool) e :
  (∀ e, p e = true → kind e = K) → existsb (ekind_eqb K) ks = false →
  allowed ks e = true → p e = false.
Proof.
  intros Hp Hks He. destruct (p e) eqn:E; [|done].
  apply Hp in E. unfold allowed in He. rewrite E in He. congruence.
Qed.

Lemma is_commit_kind e : is_commit e = true → kind e = KCommit.
Proof. by destruct e. Qed.

Lemma upload_succeeded_kind e : upload_succeeded e = true → kind e = KUpload.
Proof. by destruct e. Qed.

Lemma upload_failed_kind e : upload_failed e = true → kind e = KUpload.
Proof. by destruct e as [| |? ? ? []| | | | | | | | | | | | | | |? []| | | |]. Qed.

Lemma commit_obtained_is_commit e : commit_obtained e = true → is_commit e = true.
Proof. by destruct e. Qed.

Lemma no_commit ks d :
  existsb (ekind_eqb KCommit) ks = false → Forall (λ e, allowed ks e = true) d →
  Forall (λ e, is_commit e = false) d.
Proof.
  intros Hks H. eapply Forall_impl; [exact H|]. intros e.
  apply (excluded_kind ks KCommit is_commit); [apply is_commit_kind|done].
Qed.

Lemma no_commit_obtained d :
  Forall (λ e, is_commit e = false) d → existsb commit_obtained d = false.
Proof.
  induction 1 as [|e d He _ IH]; [done|]. cbn. rewrite IH, orb_false_r.
  destruct (commit_obtained e) eqn:E; [|done].
  apply commit_obtained_is_commit in E. congruence.
Qed.

Lemma accepted_paths_app d1 d2 :
  accepted_paths (d1 ++ d2) = accepted_paths d1 ++ accepted_paths d2.
Proof. apply omap_app. Qed.

Lemma no_accepted ks d :
  existsb (ekind_eqb KUpload) ks = false → Forall (λ e, allowed ks e = true) d →
  accepted_paths d = [].
Proof.
  intros Hks. induction 1 as [|e d He _ IH]; [done|].
  unfold accepted_paths in *. cbn. rewrite IH.
  pose proof (excluded_kind ks KUpload upload_succeeded e upload_succeeded_kind Hks He).
  by destruct e as [| |? ? ? []| | | | | | | | | | | | | | | | | | |].
Qed.

Lemma no_upload_failed ks d :
  existsb (ekind_eqb KUpload) ks = false → Forall (λ e, allowed ks e = true) d →
  Forall (λ e, upload_failed e = false) d.
Proof.
  intros Hks H. eapply Forall_impl; [exact H|]. intros e.
  apply (excluded_kind ks KUpload upload_failed); [apply upload_failed_kind|done].
Qed.

(** An event that is not in the prefix [p] lies behind it. *)
Lemma split_behind (P : event → Prop) (p d d1 d2 : trace) e :
  Forall (λ x, ¬ P x) p → P e → p ++ d = d1 ++ e :: d2 →
  ∃ d1', d1 = p ++ d1' ∧ d = d1' ++ e :: d2.
Proof.
  intros Hp He. revert d1. induction Hp as [|x p Hx _ IH]; intros d1 E.
  - by exists d1.
  - destruct d1 as [|y d1]; cbn in E.
    + injection E as -> _. done.
    + injection E as -> E. destruct (IH d1 E) as (d1' & -> & ->). by exists d1'.
Qed.

End TraceFacts.

Section Publish.

Variable w : World.
Implicit Types (d t : trace) (uploader : LakeFSUploader).

Lemma upload_file_spec self repo branch lp rp t :
  wp (upload_file w self repo branch lp rp) (upload_file_post rp) t.
Proof.
  unfold wp, upload_file, try_except, bind, ext.
  destruct (read_bytes w t lp) as [[]|k|] eqn:E1; cbn.
  - destruct (sdk_upload_object w _ repo branch rp) as [[]|k|] eqn:E2; cbn;
      rewrite <- app_assoc; eexists; (split; [reflexivity|]); cbn.
    + split; [done|by repeat constructor].
    + split; [done|]. by apply Exists_cons_tl, Exists_cons_hd.
    + done.
  - eexists; (split; [reflexivity|]); cbn. split; [done|]. by apply Exists_cons_hd.
  - eexists; (split; [reflexivity|]); cbn. done.
Qed.

(** One turn of the upload loop. *)
Lemma upload_one_spec uploader branch ts logger acc local_file t :
  wp (upload_one w uploader branch ts logger acc local_file)
     (λ r d,
        Forall (λ e, allowed [KProbe; KUpload; KLog] e = true) d
        ∧ match r with
          | Ret acc' =>
              acc'.1 = acc.1 ++ accepted_paths d
              ∧ (length acc'.1 + length acc'.2 = S (length acc.1 + length acc.2))%nat
              ∧ (Forall (λ e, upload_failed e = false) d → acc'.2 = acc.2)
          | Raise e => not_exit (Raise (A:=bool) e)
          end) t.
Proof.
  unfold upload_one. apply wp_bind.
  eapply wp_mono; [apply (wp_and _ _ _ _ (upload_file_confined w _ _ _ _ _ t)
                                  (upload_file_spec _ _ _ _ _ t))|].
  intros r d [[Hd Hr] Hpost].
  assert (Forall (λ e, allowed [KProbe; KUpload; KLog] e = true) d) as Hd'.
  { eapply Forall_impl; [exact Hd|]. intros e. by apply allowed_sub. }
  destruct r as [[]|e]; cbn in Hpost.
  - destruct Hpost as [Hacc Hok]. apply wp_bind.
    eapply wp_mono.
    { assert (confined [KProbe; KLog]
                (match logger with
                 | Some l =>
                     log_benchmark_results w l local_file
                       (str_replace (lit "-") (lit "_")
                          (str_replace (lit ".jsonl") [] (basename local_file)))
                 | None => ret ()
                 end)) as Hc by (destruct logger; confine).
      apply Hc. }
    intros [[]|e] d2 [Hd2 Hr2].
    + apply wp_ret. rewrite app_nil_r.
      split; [apply Forall_app; split; [done|]|].
      { eapply Forall_impl; [exact Hd2|]. intros e. by apply allowed_sub. }
      cbn [fst snd]. rewrite accepted_paths_app, Hacc.
      rewrite (no_accepted [KProbe; KLog] d2) by done. rewrite app_nil_r.
      split_and!; [done| |done]. rewrite length_app. cbn. lia.
    + split; [|by destruct e]. apply Forall_app; split; [done|].
      eapply Forall_impl; [exact Hd2|]. intros ev. by apply allowed_sub.
  - destruct Hpost as [Hacc Hbad]. apply wp_ret. rewrite app_nil_r.
    split; [done|]. cbn [fst snd]. rewrite Hacc, app_nil_r.
    split_and!; [done| |].
    + rewrite length_app. cbn. lia.
    + intros Hall. apply Exists_exists in Hbad as (e & He & Hbad).
      rewrite Forall_forall in Hall. specialize (Hall e He). congruence.
  - split; [done|]. by destruct e.
Qed.

(** The upload loop: [uploaded_files] is the list of the paths the store
    accepted, every file ends in one of the two lists, and [failed_files]
    is empty when no upload failed. *)
Lemma upload_loop_spec uploader branch ts logger files t :
  wp (upload_loop w uploader branch ts logger files)
     (λ r d,
        Forall (λ e, allowed [KProbe; KUpload; KLog] e = true) d
        ∧ match r with
          | Ret acc =>
              acc.1 = accepted_paths d
              ∧ (length acc.1 + length acc.2 = length files)%nat
              ∧ (Forall (λ e, upload_failed e = false) d → acc.2 = [])
          | Raise e => not_exit (Raise (A:=bool) e)
          end) t.
Proof.
  unfold upload_loop.
  apply (wp_foldM
           (λ done acc d,
              Forall (λ e, allowed [KProbe; KUpload; KLog] e = true) d
              ∧ acc.1 = accepted_paths d
              ∧ (length acc.1 + length acc.2 = length done)%nat
              ∧ (Forall (λ e, upload_failed e = false) d → acc.2 = []))).
  - by split_and!.
  - intros done x acc d (Hd & Hacc & Hlen & Hfail).
    eapply wp_mono; [apply upload_one_spec|].
    intros [acc'|e] d' [Hd' Hpost].
    + destruct Hpost as (Hacc' & Hlen' & Hfail').
      split_and!.
      * by apply Forall_app.
      * by rewrite Hacc', Hacc, accepted_paths_app.
      * rewrite length_app. cbn. lia.
      * intros [H1 H2]%Forall_app. rewrite Hfail' by done. by apply Hfail.
    + split; [by apply Forall_app|done].
  - intros acc d (Hd & Hacc & Hlen & Hfail). by split_and!.
Qed.


Lemma try_except_only_interrupt {A} ks (m : M trace A) (a : A) t :
  confined ks m →
  wp (try_except m (λ _, ret a))
     (λ r d, Forall (λ e, allowed ks e = true) d ∧ only_interrupt r) t.
Proof.
  intros Hm. apply wp_try. eapply wp_mono; [apply Hm|].
  intros [x|[k| |c]] d [Hd Hr]; try done.
  apply wp_ret. by rewrite app_nil_r.
Qed.

Lemma log_metrics_only_interrupt logger metrics t :
  wp (log_metrics w logger metrics)
     (λ r d, Forall (λ e, allowed [KLog] e = true) d ∧ only_interrupt r) t.
Proof.
  unfold log_metrics. destruct (enabled logger); cbn [negb]; [|by apply wp_ret].
  apply try_except_only_interrupt. confine.
Qed.

Lemma log_params_only_interrupt logger params t :
  wp (log_params w logger params)
     (λ r d, Forall (λ e, allowed [KLog] e = true) d ∧ only_interrupt r) t.
Proof.
  unfold log_params. destruct (enabled logger); cbn [negb]; [|by apply wp_ret].
  apply try_except_only_interrupt. confine.
Qed.

(** The quotient of two lengths of which the first is at most twice the
    second is in the range of a float. *)
Lemma truediv_lengths {A B} (a : list A) (b : list B) t :
  nonempty b = true → (length a ≤ 2 * length b)%nat →
  truediv (S:=trace) (py_len a) (py_len b) t = (Ret (PFloat (len a / len b)), t).
Proof.
  intros Hb Hab. unfold truediv, py_len.
  assert (1 ≤ Z.of_nat (length b))%Z as Hpos by (destruct b; [discriminate|cbn; lia]).
  destruct (Z.eqb_spec (Z.of_nat (length b)) 0) as [?|_]; [lia|].
  rewrite (in_float_range_below _ 2); [done| |by vm_compute].
  destruct (Z.of_nat (length b)) as [|p|p] eqn:Eb; try lia.
  unfold Qdiv, Qinv, Qmult, Qabs, Qle, inject_Z. cbn [Qnum Qden].
  rewrite !Z.mul_1_r, Pos.mul_1_l. lia.
Qed.

(** The summary's dictionary, when [final_metrics] returns one. *)
Lemma final_metrics_cases up fl files t :
  ∃ r, final_metrics up fl files t = (r, t)
       ∧ value_or_error r
       ∧ ∀ metrics, r = Ret metrics →
           metrics = [(lit "uploaded_files_count", len up);
                      (lit "failed_files_count", len fl);
                      (lit "total_files_count", len files);
                      (lit "upload_success_rate",
                       if nonempty files then (len up / len files)%Q else 0%Q)].
Proof.
  unfold final_metrics. destruct (nonempty files) eqn:E.
  - unfold bind, truediv, py_len.
    destruct (Z.of_nat (length files) =? 0)%Z; [by eexists|].
    destruct (in_float_range _); eexists; (split; [reflexivity|]); [|done].
    split; [done|]. by intros metrics [= <-].
  - eexists. split; [reflexivity|]. split; [done|]. by intros metrics [= <-].
Qed.

(** In a run the list of uploads is at most one longer than the list of
    result files, so the summary's dictionary is computed. *)
Lemma final_metrics_run up fl files t :
  (length up ≤ length files + 1)%nat →
  final_metrics up fl files t
  = (Ret [(lit "uploaded_files_count", len up);
          (lit "failed_files_count", len fl);
          (lit "total_files_count", len files);
          (lit "upload_success_rate",
           if nonempty files then (len up / len files)%Q else 0%Q)], t).
Proof.
  intros Hlen. unfold final_metrics. destruct (nonempty files) eqn:E.
  - rewrite (run_bind_ret _ _ _ (PFloat (len up / len files)) t); [reflexivity|].
    apply truediv_lengths; [done|].
    destruct files; [discriminate|cbn [length] in *; lia].
  - by erewrite run_bind_ret by reflexivity.
Qed.

(** The summary makes tracker calls only. *)
Lemma summary_confined logger up fl files (params : pydict pystr) :
  confined [KLog]
    (match logger with
     | Some l =>
         let! metrics := final_metrics up fl files in
         log_metrics w l metrics;; log_params w l params
     | None => ret tt
     end).
Proof.
  unfold final_metrics, truediv, to_float, py_len, OverflowError, ZeroDivisionError.
  confine.
Qed.

(** The summary logged after a commit. *)
Lemma summary_only_interrupt logger up fl files (params : pydict pystr) t :
  (length up ≤ length files + 1)%nat →
  wp (match logger with
      | Some l =>
          let! metrics := final_metrics up fl files in
          log_metrics w l metrics;; log_params w l params
      | None => ret tt
      end)
     (λ r d, Forall (λ e, allowed [KLog] e = true) d ∧ only_interrupt r) t.
Proof.
  intros Hlen. destruct logger as [l|]; [|by apply wp_ret].
  apply wp_bind. exists []. rewrite final_metrics_run, app_nil_r by done.
  split; [done|].
  cbn [fst]. apply wp_bind. eapply wp_mono; [apply log_metrics_only_interrupt|].
  intros [[]|e] d [Hd Hr]; [|done].
  eapply wp_mono; [apply log_params_only_interrupt|].
  intros r d' [Hd' Hr']. cbn [app]. split; [by apply Forall_app|done].
Qed.

(** The commit step: nothing happens for an empty [uploaded_files]; success
    is a commit id obtained, unless the summary is interrupted. *)
Lemma commit_and_report_spec uploader branch ts logger files up fl t :
  (length up ≤ length files + 1)%nat →
  wp (commit_and_report w uploader branch ts logger files up fl)
     (λ r d,
        (up = [] → d = [] ∧ r = Ret false)
        ∧ (r = Ret true
           ↔ existsb commit_obtained d = true ∧ r ≠ Raise KeyboardInterrupt)) t.
Proof.
  intros Hlen. unfold commit_and_report. destruct up as [|p up]; cbn [nonempty].
  { apply wp_ret. split; [done|]. split; [done|]. by intros [? _]. }
  apply wp_bind. unfold wp at 1, commit_changes, try_except, bind, ext.
  destruct (sdk_commit w t _ _ _) as [id|k|] eqn:E; cbn [fst snd res_of_outcome];
    eexists; (split; [reflexivity|]).
  - destruct id as [|c id]; cbn [str_truthy].
    + apply wp_ret. split; [done|]. split; [done|]. by intros [? _].
    + apply wp_bind. eapply wp_mono; [by apply summary_only_interrupt|].
      intros [[]|e] d [Hd Hr].
      * apply wp_ret. split; [done|]. by split.
      * split; [done|]. destruct e; try done. split; [done|]. by intros [_ ?].
  - apply wp_ret. split; [done|]. split; [done|]. by intros [? _].
  - split; [done|]. split; [done|]. by intros [? _].
Qed.

(** The manifest step: nothing happens for an empty [uploaded_files]; a
    non-empty list stays non-empty and gains the manifest path when no
    upload fails. *)
Lemma publish_metadata_spec config uploader dir branch ts logger up t :
  wp (publish_metadata w config uploader dir branch ts logger up)
     (λ r d,
        (up = [] → d = [] ∧ r = Ret [])
        ∧ ∀ up', r = Ret up' →
            nonempty up' = nonempty up
            ∧ (Forall (λ e, upload_failed e = false) d → nonempty up = true →
               up' = up ++ [lit "results/" ++ ts ++ lit "/experiment_metadata.json"])) t.
Proof.
  unfold publish_metadata. destruct (nonempty up) eqn:Hup.
  2:{ apply wp_ret. split; [by intros ->|]. intros up' [= <-]. by rewrite Hup. }
  assert (up ≠ []) as Hne by (by destruct up).
  apply wp_bind. eapply wp_mono; [apply create_metadata_file_confined|].
  intros [md|e] d1 _; [|by split].
  apply wp_bind. eapply wp_mono; [apply (confined_ext [KFile]); by intros ?|].
  intros [[]|e] d2 _; [|by split].
  apply wp_bind. eapply wp_mono; [apply upload_file_spec|].
  intros [uploaded|e] d3 Hpost; [|by split].
  apply wp_bind. eapply wp_mono.
  { assert (confined [KLog]
              (match logger with
               | Some l => log_artifacts w l (lit "metadata")
                             (Some (path_join dir (lit "temp_metadata.json")))
               | None => ret ()
               end)) as Hc by (destruct logger; confine).
    apply Hc. }
  intros [[]|e] d4 _; [|by split].
  apply wp_bind. eapply wp_mono; [apply (confined_ext [KFile]); by intros ?|].
  intros [[]|e] d5 _; [|by split].
  apply wp_ret. split; [done|]. intros up' [= <-]. split.
  - destruct uploaded; [by destruct up|done].
  - intros Hall _. destruct uploaded; [done|]. cbn in Hpost.
    destruct Hpost as [_ (e & He & Hbad)%Exists_exists].
    rewrite Forall_forall in Hall. rewrite (Hall e) in Hbad; [done|].
    rewrite !elem_of_app. auto.
Qed.


(** The manifest step adds at most one path. *)
Lemma publish_metadata_length config uploader dir branch ts logger up t :
  wp (publish_metadata w config uploader dir branch ts logger up)
     (λ r d, ∀ up', r = Ret up' → (length up' ≤ length up + 1)%nat) t.
Proof.
  unfold publish_metadata. destruct (nonempty up).
  2:{ apply wp_ret. intros up' [= <-]. lia. }
  apply wp_bind. eapply wp_mono; [apply create_metadata_file_confined|].
  intros [md|e] d1 _; [|done].
  apply wp_bind. eapply wp_mono; [apply (confined_ext [KFile]); by intros ?|].
  intros [[]|e] d2 _; [|done].
  apply wp_bind. eapply wp_mono; [apply upload_file_spec|].
  intros [uploaded|e] d3 _; [|done].
  apply wp_bind. eapply wp_mono.
  { assert (confined [KLog]
              (match logger with
               | Some l => log_artifacts w l (lit "metadata")
                             (Some (path_join dir (lit "temp_metadata.json")))
               | None => ret ()
               end)) as Hc by (destruct logger; confine).
    apply Hc. }
  intros [[]|e] d4 _; [|done].
  apply wp_bind. eapply wp_mono; [apply (confined_ext [KFile]); by intros ?|].
  intros [[]|e] d5 _; [|done].
  apply wp_ret. intros up' [= <-]. destruct uploaded; [|lia].
  rewrite length_app. cbn. lia.
Qed.

(** *** The commit policy *)

Lemma publish_post_quiet ks (r : res bool) d :
  existsb (ekind_eqb KCommit) ks = false →
  Forall (λ e, allowed ks e = true) d → r ≠ Ret true → not_exit r →
  publish_post r d.
Proof.
  intros Hks Hd Hr Hexit. pose proof (no_commit ks d Hks Hd) as Hnc.
  split_and!; [|done| |done].
  - intros d1 e d2 -> He. apply Forall_app in Hnc as [_ Hnc].
    apply Forall_cons in Hnc as [Hnc _]. congruence.
  - split; [done|]. intros [H _]. by rewrite (no_commit_obtained d Hnc) in H.
Qed.

Lemma publish_post_prefix ks p (r : res bool) d :
  existsb (ekind_eqb KCommit) ks = false →
  existsb (ekind_eqb KUpload) ks = false →
  Forall (λ e, allowed ks e = true) p → publish_post r d → publish_post r (p ++ d).
Proof.
  intros Hkc Hku Hp (HA & HB & HC & Hexit).
  pose proof (no_commit ks p Hkc Hp) as Hnc.
  pose proof (no_accepted ks p Hku Hp) as Hna.
  split_and!; [| | |done].
  - intros d1 e d2 E He.
    destruct (split_behind (λ x, is_commit x = true) p d d1 d2 e) as (d1' & -> & ->);
      [|done|done|].
    { eapply Forall_impl; [exact Hnc|]. intros x Hx. by rewrite Hx. }
    rewrite accepted_paths_app, Hna. by eapply HA.
  - rewrite accepted_paths_app, Hna. intros [Hd Hr]%HB. split; [|done].
    by apply Forall_app.
  - rewrite existsb_app, (no_commit_obtained p Hnc). exact HC.
Qed.

(** A step that makes neither uploads nor commits, before the rest. *)
Lemma wp_quiet_bind {A} (m : M trace A) (f : A → M trace bool) t :
  confined [KProbe; KBranch; KLog] m →
  (∀ a t', wp (f a) publish_post t') →
  wp (bind m f) publish_post t.
Proof.
  intros Hm Hf. apply wp_bind. eapply wp_mono; [apply Hm|].
  intros [a|e] d [Hd Hr].
  - eapply wp_mono; [apply Hf|]. intros r d' H.
    by apply (publish_post_prefix [KProbe; KBranch; KLog]).
  - by apply (publish_post_quiet [KProbe; KBranch; KLog]).
Qed.

Lemma wp_early_return t : wp (ret false) publish_post t.
Proof. apply wp_ret. by apply (publish_post_quiet []). Qed.

(** Upload loop, manifest and commit, in sequence. *)
Lemma publish_steps_spec config uploader dir branch ts logger files t :
  wp (let! uploaded_and_failed := upload_loop w uploader branch ts logger files in
      let! uploaded_files :=
        publish_metadata w config uploader dir branch ts logger
                         uploaded_and_failed.1 in
      commit_and_report w uploader branch ts logger files uploaded_files
                        uploaded_and_failed.2)
     publish_post t.
Proof.
  apply wp_bind. eapply wp_mono; [apply upload_loop_spec|].
  intros [[up fl]|e] d1 [Hd1 Hpost];
    [|by apply (publish_post_quiet [KProbe; KUpload; KLog])].
  cbn [fst snd] in *. destruct Hpost as (Hup & Hlen & _).
  apply wp_bind.
  eapply wp_mono;
    [apply (wp_and _ _ _ _
              (wp_and _ _ _ _ (publish_metadata_confined w _ _ _ _ _ _ _ _)
                      (publish_metadata_spec _ _ _ _ _ _ _ _))
              (publish_metadata_length _ _ _ _ _ _ _ _))|].
  intros [up'|e] d2 [[[Hd2 Hr2] [Hnil Hup']] Hlen'].
  2:{ apply (publish_post_quiet [KProbe; KUpload; KLog; KFile]); try done.
      apply Forall_app. split; [|done].
      eapply Forall_impl; [exact Hd1|]. intros ev. by apply allowed_sub. }
  destruct (Hup' up' eq_refl) as [Hne _].
  specialize (Hlen' up' eq_refl).
  assert (length up' ≤ length files + 1)%nat as Hbound by lia.
  eapply wp_mono;
    [apply (wp_and _ _ _ _ (commit_and_report_confined w _ _ _ _ _ _ _ _)
                   (commit_and_report_spec _ _ _ _ _ _ _ _ Hbound))|].
  intros r d3 [[Hd3 Hr3] [Hnil3 Hiff]].
  assert (Forall (λ e, is_commit e = false) (d1 ++ d2)) as Hnc.
  { apply Forall_app. split.
    - by apply (no_commit [KProbe; KUpload; KLog]).
    - by apply (no_commit [KProbe; KUpload; KLog; KFile]). }
  rewrite (app_assoc d1 d2 d3).
  split_and!; [| | |done].
  - intros x1 e x2 E He.
    destruct (split_behind (λ x, is_commit x = true) (d1 ++ d2) d3 x1 x2 e)
      as (x1' & -> & ->); [|done|done|].
    { eapply Forall_impl; [exact Hnc|]. intros x Hx. by rewrite Hx. }
    rewrite !accepted_paths_app, <- Hup.
    destruct up as [|p up]; [|done].
    destruct (Hnil eq_refl) as [-> [= ->]].
    destruct (Hnil3 eq_refl) as [Hd3' _]. by destruct x1'.
  - rewrite !accepted_paths_app, <- Hup. intros Hacc.
    destruct up as [|p up]; [|done].
    destruct (Hnil eq_refl) as [-> [= ->]].
    destruct (Hnil3 eq_refl) as [-> ->]. rewrite !app_nil_r. split; [|done].
    by apply (no_commit [KProbe; KUpload; KLog]).
  - by rewrite existsb_app, (no_commit_obtained _ Hnc).
Qed.

Lemma upload_benchmark_results_spec config results_dir logger t :
  wp (upload_benchmark_results w config results_dir logger) publish_post t.
Proof.
  unfold upload_benchmark_results.
  apply wp_quiet_bind; [confine|]. intros [uploader|] t1; [|apply wp_early_return].
  apply wp_quiet_bind; [confine|]. intros [] t2; cbn [negb]; [|apply wp_early_return].
  apply wp_quiet_bind; [confine|]. intros [] t3; cbn [negb]; [|apply wp_early_return].
  apply wp_quiet_bind; [confine|]. intros files t4.
  destruct (nonempty files); cbn [negb]; [|apply wp_early_return].
  apply wp_quiet_bind; [confine|]. intros ts t5.
  apply wp_quiet_bind; [confine|]. intros _ t6.
  apply wp_quiet_bind; [unfold get_system_info; confine|]. intros _ t7.
  apply publish_steps_spec.
Qed.

(** C1: in every batch publish run, a commit is only attempted after the
    store accepted an upload; when no upload is accepted there is no commit
    and the run does not report success; success is reported exactly when a
    commit id is obtained, an interruption after the commit apart.  In terms
    of the variable: [uploaded_files] is the list of accepted paths when the
    loop ends, and the commit step does nothing and reports failure when it
    is empty. *)
Theorem batch_commit_policy config results_dir logger t :
  (∃ d, (upload_benchmark_results w config results_dir logger t).2 = t ++ d
        ∧ let r := (upload_benchmark_results w config results_dir logger t).1 in
          (∀ d1 e d2, d = d1 ++ e :: d2 → is_commit e = true →
                      accepted_paths d1 ≠ [])
          ∧ (accepted_paths d = [] →
             Forall (λ e, is_commit e = false) d ∧ r ≠ Ret true)
          ∧ (r = Ret true
             ↔ existsb commit_obtained d = true ∧ r ≠ Raise KeyboardInterrupt))
  ∧ (∀ uploader branch ts files,
       ∃ d, (upload_loop w uploader branch ts logger files t).2 = t ++ d
            ∧ ∀ uploaded_files failed_files,
                (upload_loop w uploader branch ts logger files t).1
                = Ret (uploaded_files, failed_files) →
                uploaded_files = accepted_paths d)
  ∧ (∀ uploader branch ts files failed_files,
       commit_and_report w uploader branch ts logger files [] failed_files t
       = (Ret false, t)).
Proof.
  split_and!.
  - destruct (upload_benchmark_results_spec config results_dir logger t)
      as (d & Hd & HA & HB & HC & _).
    exists d. by split_and!.
  - intros uploader branch ts files.
    destruct (upload_loop_spec uploader branch ts logger files t) as (d & Hd & _ & H).
    exists d. split; [done|]. intros up fl E. rewrite E in H. by destruct H.
  - done.
Qed.

End Publish.

(** *** What a function tells the tracker *)

Section Emits.

Implicit Types (t d : trace) (P : event → Prop).

Lemma emits_ret {A} P (a : A) : emits P (ret a).
Proof. intros t. by apply wp_ret. Qed.

Lemma emits_raise {A} P e : emits P (raise (A:=A) e).
Proof. intros t. by apply wp_raise. Qed.

(** The continuation may rely on a property [R] of the value. *)
Lemma emits_bind_with {A B} P (R : A → Prop) (m : M trace A) (f : A → M trace B) :
  (∀ t, wp m (λ r d, Forall P d ∧ ∀ a, r = Ret a → R a) t) →
  (∀ a, R a → emits P (f a)) →
  emits P (bind m f).
Proof.
  intros Hm Hf t. apply wp_bind. eapply wp_mono; [apply Hm|].
  intros [a|e] d [Hd Hr]; [|done].
  eapply wp_mono; [by apply Hf, Hr|]. intros r d' Hd'. by apply Forall_app.
Qed.

Lemma emits_bind {A B} P (m : M trace A) (f : A → M trace B) :
  emits P m → (∀ a, emits P (f a)) → emits P (bind m f).
Proof.
  intros Hm Hf. apply (emits_bind_with P (λ _, True)); [|by intros].
  intros t. eapply wp_mono; [apply Hm|]. by intros.
Qed.

Lemma emits_try {A} P (m : M trace A) h :
  emits P m → (∀ kind, emits P (h kind)) → emits P (try_except m h).
Proof.
  intros Hm Hh t. apply wp_try. eapply wp_mono; [apply Hm|].
  intros [a|[k| |c]] d Hd; try done.
  eapply wp_mono; [apply Hh|]. intros r d' Hd'. by apply Forall_app.
Qed.

Lemma emits_ext {A} P (record : outcome A → event) answer :
  (∀ o, P (record o)) → emits P (ext record answer).
Proof. intros H t. apply wp_ext. by repeat constructor. Qed.

Lemma emits_query {A} P (record : A → event) answer :
  (∀ a, P (record a)) → emits P (query record answer).
Proof. intros H t. apply wp_query. by repeat constructor. Qed.

Lemma emits_foldM {A B} P (f : A → B → M trace A) a l :
  (∀ a x, emits P (f a x)) → emits P (foldM f a l).
Proof.
  intros Hf. revert a. induction l as [|x l IH]; intros a; cbn [foldM].
  - apply emits_ret.
  - apply emits_bind; [apply Hf|apply IH].
Qed.

Lemma emits_forM_ {B} P (f : B → M trace unit) l :
  Forall (λ x, emits P (f x)) l → emits P (forM_ f l).
Proof.
  induction 1 as [|x l Hx _ IH]; cbn [forM_].
  - apply emits_ret.
  - apply emits_bind; [apply Hx|intros _; apply IH].
Qed.

Lemma emits_when P b (m : M trace unit) : emits P m → emits P (when b m).
Proof. intros H. destruct b; [done|apply emits_ret]. Qed.

Lemma emits_impl {A} P P' (m : M trace A) :
  emits P m → (∀ e, P e → P' e) → emits P' m.
Proof.
  intros H HP t. eapply wp_mono; [apply H|]. intros r d Hd.
  eapply Forall_impl; [exact Hd|exact HP].
Qed.

End Emits.

Create HintDb emits discriminated.

Ltac emit_step :=
  first
    [ solve [eauto with emits]
    | apply emits_ret
    | apply emits_raise
    | apply emits_bind; [|intros ?]
    | apply emits_try; [|intros ?]
    | apply emits_ext; intros ?; reflexivity
    | apply emits_query; intros ?; reflexivity
    | apply emits_foldM; intros ? ?
    | apply emits_forM_; apply Forall_forall; intros ? _
    | apply emits_when
    | progress cbv zeta
    | match goal with
      | |- emits _ (match ?x with _ => _ end) => destruct x
      | |- emits _ (let '(_, _) := ?x in _) => destruct x
      end ].

Ltac emit := repeat emit_step.

Section EmitsProgram.

Variable w : World.

Lemma try_uploader_no_rate config : emits not_rate_metric (try_uploader config).
Proof. unfold try_uploader, LakeFSUploader_init, config_item. emit. Qed.

Lemma check_connection_no_rate self : emits not_rate_metric (check_connection w self).
Proof. unfold check_connection. emit. Qed.

Lemma create_branch_no_rate self repo name src :
  emits not_rate_metric (create_branch w self repo name src).
Proof. unfold create_branch. emit. Qed.

Lemma start_run_no_rate self name tags : emits not_rate_metric (start_run w self name tags).
Proof. unfold start_run. emit. Qed.

Lemma log_params_no_rate self params : emits not_rate_metric (log_params w self params).
Proof. unfold log_params. emit. Qed.

Lemma log_artifacts_no_rate self path lp : emits not_rate_metric (log_artifacts w self path lp).
Proof. unfold log_artifacts. emit. Qed.

Lemma upload_file_no_rate self repo branch lp rp :
  emits not_rate_metric (upload_file w self repo branch lp rp).
Proof. unfold upload_file. emit. Qed.

Lemma commit_changes_no_rate self repo branch msg :
  emits not_rate_metric (commit_changes w self repo branch msg).
Proof. unfold commit_changes. emit. Qed.

Lemma create_metadata_file_no_rate dir files config :
  emits not_rate_metric (create_metadata_file w dir files config).
Proof. unfold create_metadata_file, get_system_info, config_item. emit. Qed.

(** [log_metrics] logs the items of the dictionary and nothing else. *)
Lemma log_metrics_emits (P : event → Prop) self (metrics : pydict Q) :
  Forall (λ kv, ∀ o, P (EvLogMetric kv.1 kv.2 o)) metrics →
  emits P (log_metrics w self metrics).
Proof.
  intros H. unfold log_metrics. destruct (negb (enabled self)); [apply emits_ret|].
  apply emits_try; [|intros ?; apply emits_ret].
  apply emits_forM_. eapply Forall_impl; [exact H|].
  intros kv Hkv. by apply emits_ext.
Qed.

Hint Resolve try_uploader_no_rate check_connection_no_rate create_branch_no_rate
  start_run_no_rate log_params_no_rate log_artifacts_no_rate upload_file_no_rate
  commit_changes_no_rate create_metadata_file_no_rate : emits.

(** The metrics of a results file never have the key of the summary. *)
Lemma log_benchmark_results_no_rate self file name :
  emits not_rate_metric (log_benchmark_results w self file name).
Proof.
  unfold log_benchmark_results.
  destruct (negb (enabled self)); [apply emits_ret|].
  apply emits_bind; [emit|]. intros [|]; cbn [negb]; [|apply emits_ret].
  apply emits_try; [|intros ?; apply emits_ret].
  apply (emits_bind_with _
           (λ metrics, Forall (λ kv, kv.1 ≠ lit "upload_success_rate") metrics)).
  - intros t. unfold _parse_benchmark_results. apply wp_try, wp_bind, wp_ext.
    destruct (read_lines w t file) as [lines|kind|]; cbn.
    + apply wp_ret. split; [by repeat constructor|].
      intros a [= <-]. apply parse_lines_no_rate_key.
    + apply wp_ret. split; [by repeat constructor|]. by intros a [= <-].
    + split; [by repeat constructor|done].
  - intros metrics Hm. apply emits_when, log_metrics_emits.
    eapply Forall_impl; [exact Hm|]. intros kv Hkv o. cbn.
    by apply bool_decide_eq_false_2.
Qed.

Hint Resolve log_benchmark_results_no_rate : emits.

Lemma upload_loop_no_rate u branch ts logger files :
  emits not_rate_metric (upload_loop w u branch ts logger files).
Proof. unfold upload_loop, upload_one. emit. Qed.

Lemma publish_metadata_no_rate config u dir branch ts logger up :
  emits not_rate_metric (publish_metadata w config u dir branch ts logger up).
Proof. unfold publish_metadata. emit. Qed.

End EmitsProgram.

Section SuccessRate.

Variable w : World.
Implicit Types (d t : trace) (l : MLflowLogger).

Lemma log_metric_calls (metrics : pydict Q) t :
  wp (forM_ (λ kv, ext (EvLogMetric kv.1 kv.2)
                       (λ t, mlflow_log_metric w t kv.1 kv.2)) metrics)
     (λ r d, match r with
             | Ret _ => ∀ k v, (k, v) ∈ metrics → EvLogMetric k v (Returns tt) ∈ d
             | Raise (PyError _) => Exists (λ e, log_metric_failed e = true) d
             | Raise _ => True
             end) t.
Proof.
  revert t. induction metrics as [|[k v] metrics IH]; intros t; cbn [forM_].
  - apply wp_ret. by intros k v ?%elem_of_nil.
  - apply wp_bind, wp_ext. cbn [fst snd].
    destruct (mlflow_log_metric w t k v) as [[]|kind|]; cbn; [|by repeat constructor|done].
    eapply wp_mono; [apply IH|]. intros [[]|[kind| |c]] d H; try done.
    + intros k' v' [[= -> ->]|Hin]%elem_of_cons; [by repeat constructor|].
      apply elem_of_cons. right. by apply H.
    + by apply Exists_cons_tl.
Qed.

Lemma log_metrics_logs l (metrics : pydict Q) t :
  enabled l = true →
  wp (log_metrics w l metrics)
     (λ r d, r = Ret tt → Forall (λ e, log_metric_failed e = false) d →
             ∀ k v, (k, v) ∈ metrics → EvLogMetric k v (Returns tt) ∈ d) t.
Proof.
  intros Hen. unfold log_metrics. rewrite Hen. cbn [negb].
  apply wp_try. eapply wp_mono; [apply log_metric_calls|].
  intros [[]|[kind| |c]] d H; try done.
  apply wp_ret. rewrite app_nil_r. intros _ Hall.
  apply Exists_exists in H as (e & He & Hbad).
  rewrite Forall_forall in Hall. rewrite (Hall e He) in Hbad. done.
Qed.


(** After a commit, an enabled tracker is told the ratio of the lengths of
    [uploaded_files] and [result_files]. *)
Lemma commit_and_report_logs uploader branch ts l files up fl t :
  enabled l = true →
  wp (commit_and_report w uploader branch ts (Some l) files up fl)
     (λ r d, r = Ret true → Forall (λ e, log_metric_failed e = false) d →
             EvLogMetric (lit "upload_success_rate")
               (if nonempty files then (len up / len files)%Q else 0%Q)
               (Returns tt) ∈ d) t.
Proof.
  intros Hen. unfold commit_and_report. destruct up as [|p up]; cbn [nonempty].
  { by apply wp_ret. }
  apply wp_bind. unfold wp at 1, commit_changes, try_except, bind, ext.
  destruct (sdk_commit w t _ _ _) as [id|k|] eqn:E; cbn;
    eexists; (split; [reflexivity|]); [|by apply wp_ret|done].
  destruct id as [|c id]; cbn [str_truthy]; [by apply wp_ret|].
  apply wp_bind, wp_bind.
  match goal with
  | |- wp (final_metrics ?a ?b ?c) _ ?t' =>
      destruct (final_metrics_cases a b c t') as (r0 & E0 & _ & Hr0)
  end.
  eexists []. rewrite E0, app_nil_r. split; [done|]. cbn [fst].
  destruct r0 as [metrics|e0]; [rewrite (Hr0 _ eq_refl)|by intros [=]].
  apply wp_bind. eapply wp_mono; [by apply log_metrics_logs|].
  intros [[]|e] d1 H1; [|by intros [=]].
  eapply wp_mono; [apply log_params_confined|].
  intros [[]|e] d2 _; [|by intros [=]].
  apply wp_ret. rewrite app_nil_r. intros _ Hall. cbn [app] in *.
  apply Forall_cons in Hall as [_ [Hall _]%Forall_app].
  apply elem_of_cons. right. apply elem_of_app. left.
  apply H1; [done|done|]. by repeat constructor.
Qed.

Lemma rate_over_gt_1 n : (1 ≤ n)%nat → (1 < rate_over n)%Q.
Proof.
  intros Hn. unfold rate_over. apply Qlt_shift_div_l.
  - rewrite <- (Zlt_Qlt 0). lia.
  - rewrite Qmult_1_l, <- Zlt_Qlt. lia.
Qed.

Lemma rate_post_prefix files p (r : res bool) d :
  rate_post files r d → rate_post files r (p ++ d).
Proof.
  intros H Hr [_ H1]%Forall_app [_ H2]%Forall_app.
  apply elem_of_app. right. by apply H.
Qed.

(** Upload loop, manifest and commit, for the logged ratio. *)
Lemma publish_steps_rate config uploader dir branch ts l files t :
  enabled l = true → nonempty files = true →
  wp (let! uploaded_and_failed := upload_loop w uploader branch ts (Some l) files in
      let! uploaded_files :=
        publish_metadata w config uploader dir branch ts (Some l)
                         uploaded_and_failed.1 in
      commit_and_report w uploader branch ts (Some l) files uploaded_files
                        uploaded_and_failed.2)
     (rate_post files) t.
Proof.
  intros Hen Hfiles.
  apply wp_bind. eapply wp_mono; [apply upload_loop_spec|].
  intros [[up fl]|e] d1 [Hd1 Hpost]; [|done].
  cbn [fst snd] in *. destruct Hpost as (Hup & Hlen & Hfl).
  apply wp_bind. eapply wp_mono; [apply publish_metadata_spec|].
  intros [up'|e] d2 [_ Hup']; [|done].
  destruct (Hup' up' eq_refl) as [_ Hmeta].
  eapply wp_mono; [by apply commit_and_report_logs|].
  intros r d3 H3 Hr [Hf1 [Hf2 Hf3]%Forall_app]%Forall_app
    [_ [_ Hl3]%Forall_app]%Forall_app.
  rewrite !elem_of_app. right. right.
  specialize (H3 Hr Hl3). rewrite Hfiles in H3.
  rewrite (Hfl Hf1) in Hlen. cbn in Hlen. rewrite Nat.add_0_r in Hlen.
  assert (nonempty up = true) as Hne.
  { destruct up; [|done]. destruct files; [done|discriminate Hlen]. }
  rewrite (Hmeta Hf2 Hne) in H3. unfold rate_over.
  unfold len in H3. rewrite length_app, Hlen in H3. cbn [length] in H3.
  by rewrite Nat.add_1_r in H3.
Qed.

Lemma not_rate_reports q e : rate_metric e = false → reports_rate q e.
Proof.
  destruct e; try done. cbn. intros H%bool_decide_eq_false_1. done.
Qed.

Lemma emits_no_rate {A} q (m : M trace A) :
  emits not_rate_metric m → emits (reports_rate q) m.
Proof. intros H. eapply emits_impl; [exact H|]. intros e. apply not_rate_reports. Qed.

(** The summary is the only place where the success rate is logged, and
    its value is the ratio of the two lengths. *)
Lemma commit_and_report_reports uploader branch ts logger files up fl :
  emits (reports_rate (if nonempty files then (len up / len files)%Q else 0%Q))
        (commit_and_report w uploader branch ts logger files up fl).
Proof.
  unfold commit_and_report. destruct (nonempty up); [|apply emits_ret].
  cbv zeta. apply emits_bind; [apply emits_no_rate, commit_changes_no_rate|].
  intros id. destruct (str_truthy id); [|apply emits_ret].
  apply emits_bind; [|intros _; apply emits_ret].
  destruct logger as [logger|]; [|apply emits_ret].
  apply (emits_bind_with _ (λ metrics,
           metrics = [(lit "uploaded_files_count", len up);
                      (lit "failed_files_count", len fl);
                      (lit "total_files_count", len files);
                      (lit "upload_success_rate",
                       if nonempty files then (len up / len files)%Q else 0%Q)])).
  - intros t. destruct (final_metrics_cases up fl files t) as (r0 & E0 & _ & Hr0).
    exists []. rewrite E0. cbn [fst snd].
    rewrite app_nil_r. split; [done|]. split; [done|]. exact Hr0.
  - intros metrics ->.
    apply emits_bind; [|intros _; apply emits_no_rate, log_params_no_rate].
    apply log_metrics_emits.
    repeat constructor; cbn; try done; by intros o [=]%lit_inj.
Qed.

Lemma rate_only_prefix files p (r : res bool) d :
  Forall not_rate_metric p → rate_only files r d → rate_only files r (p ++ d).
Proof.
  intros Hp H Hr [_ H1]%Forall_app. apply Forall_app. split; [|by apply H].
  eapply Forall_impl; [exact Hp|]. intros e. apply not_rate_reports.
Qed.

(** Upload loop, manifest and commit, for the values logged. *)
Lemma publish_steps_reports config uploader dir branch ts logger files t :
  nonempty files = true →
  wp (let! uploaded_and_failed := upload_loop w uploader branch ts logger files in
      let! uploaded_files :=
        publish_metadata w config uploader dir branch ts logger
                         uploaded_and_failed.1 in
      commit_and_report w uploader branch ts logger files uploaded_files
                        uploaded_and_failed.2)
     (rate_only files) t.
Proof.
  intros Hfiles.
  apply wp_bind. eapply wp_mono;
    [apply wp_and; [apply upload_loop_spec|apply upload_loop_no_rate]|].
  intros [[up fl]|e] d1 [[Hd1 Hpost] Hq1]; [|done].
  cbn [fst snd] in *. destruct Hpost as (Hup & Hlen & Hfl).
  apply wp_bind. eapply wp_mono;
    [apply wp_and; [apply publish_metadata_spec|apply publish_metadata_no_rate]|].
  intros [up'|e] d2 [[_ Hup'] Hq2]; [|done].
  destruct (Hup' up' eq_refl) as [_ Hmeta].
  eapply wp_mono; [apply commit_and_report_reports|].
  intros r d3 H3 Hr [Hf1 [Hf2 Hf3]%Forall_app]%Forall_app.
  rewrite Hfiles in H3.
  rewrite (Hfl Hf1) in Hlen. cbn in Hlen. rewrite Nat.add_0_r in Hlen.
  assert (nonempty up = true) as Hne.
  { destruct up; [|done]. destruct files; [done|discriminate Hlen]. }
  rewrite (Hmeta Hf2 Hne) in H3.
  unfold len in H3. rewrite length_app, Hlen in H3. cbn [length] in H3.
  rewrite Nat.add_1_r in H3.
  apply Forall_app. split; [|apply Forall_app; split; [|exact H3]].
  - eapply Forall_impl; [exact Hq1|]. intros e. apply not_rate_reports.
  - eapply Forall_impl; [exact Hq2|]. intros e. apply not_rate_reports.
Qed.

(** A step whose calls do not matter to the postcondition. *)
Lemma wp_skip_bind {A B} ks (m : M trace A) (f : A → M trace B)
    (Q : res B → trace → Prop) t :
  confined ks m →
  (∀ p r d, Q r d → Q r (p ++ d)) → (∀ e d, Q (Raise e) d) →
  (∀ a t', wp (f a) Q t') →
  wp (bind m f) Q t.
Proof.
  intros Hm Hpre Hraise Hf. apply wp_bind. eapply wp_mono; [apply Hm|].
  intros [a|e] d _; [|done].
  eapply wp_mono; [apply Hf|]. intros r d'. apply Hpre.
Qed.

(** A step before the upload loop that does not log the success rate. *)
Lemma wp_skip_no_rate {A B} (m : M trace A) (f : A → M trace B)
    (Q : res B → trace → Prop) t :
  emits not_rate_metric m →
  (∀ p r d, Forall not_rate_metric p → Q r d → Q r (p ++ d)) →
  (∀ e d, Q (Raise e) d) →
  (∀ a t', wp (f a) Q t') →
  wp (bind m f) Q t.
Proof.
  intros Hm Hpre Hraise Hf. apply wp_bind. eapply wp_mono; [apply Hm|].
  intros [a|e] d Hd; [|done].
  eapply wp_mono; [apply Hf|]. intros r d'. by apply Hpre.
Qed.

(** C10: in a batch run with an enabled tracker that reports success, when
    no upload fails (result files and manifest) and no [log_metric] call
    fails, the run found [n >= 1] result files and logged
    [upload_success_rate] with the value [(n + 1) / n]; every call that logs
    this key logs this value, which is greater than 1. *)
Theorem success_rate_over_one config results_dir l t :
  enabled l = true →
  ∃ d, (upload_benchmark_results w config results_dir (Some l) t).2 = t ++ d
       ∧ ((upload_benchmark_results w config results_dir (Some l) t).1 = Ret true →
          Forall (λ e, upload_failed e = false) d →
          Forall (λ e, log_metric_failed e = false) d →
          ∃ pattern files,
            EvGlob pattern files ∈ d
            ∧ (1 ≤ length files)%nat
            ∧ EvLogMetric (lit "upload_success_rate")
                (inject_Z (Z.of_nat (S (length files)))
                 / inject_Z (Z.of_nat (length files)))%Q (Returns tt) ∈ d
            ∧ (∀ v o, EvLogMetric (lit "upload_success_rate") v o ∈ d →
                 v = (inject_Z (Z.of_nat (S (length files)))
                      / inject_Z (Z.of_nat (length files)))%Q)
            ∧ (1 < inject_Z (Z.of_nat (S (length files)))
                   / inject_Z (Z.of_nat (length files)))%Q).
Proof.
  intros Hen.
  set (Q := λ (r : res bool) (d : trace),
         r = Ret true →
         Forall (λ e, upload_failed e = false) d →
         Forall (λ e, log_metric_failed e = false) d →
         ∃ pattern files,
           EvGlob pattern files ∈ d ∧ (1 ≤ length files)%nat
           ∧ EvLogMetric (lit "upload_success_rate") (rate_over (length files))
                         (Returns tt) ∈ d
           ∧ (∀ v o, EvLogMetric (lit "upload_success_rate") v o ∈ d →
                v = rate_over (length files))
           ∧ (1 < rate_over (length files))%Q).
  assert (∀ p r d, Forall not_rate_metric p → Q r d → Q r (p ++ d)) as Hpre.
  { intros p r d Hp H Hr [_ H1]%Forall_app [_ H2]%Forall_app.
    destruct (H Hr H1 H2) as (pat & files & Hg & Hn & Hm & Hall & Hgt).
    exists pat, files. rewrite !elem_of_app. split_and!; auto.
    intros v o [Hin|Hin]%elem_of_app; [|by eapply Hall].
    rewrite Forall_forall in Hp. specialize (Hp _ Hin). cbn in Hp.
    by apply bool_decide_eq_false_1 in Hp. }
  assert (∀ e d, Q (Raise e) d) as Hraise by done.
  assert (∀ t', wp (ret false) Q t') as Hearly by (intros t'; by apply wp_ret).
  enough (wp (upload_benchmark_results w config results_dir (Some l)) Q t) as H.
  { destruct H as (d & Hd & H). by exists d. }
  unfold upload_benchmark_results.
  apply wp_skip_no_rate; [apply try_uploader_no_rate|done|done|].
  intros [uploader|] t1; [|apply Hearly].
  apply wp_skip_no_rate; [apply check_connection_no_rate|done|done|].
  intros [] t2; cbn [negb]; [|apply Hearly].
  apply wp_skip_no_rate; [emit|done|done|]. intros [] t3; cbn [negb]; [|apply Hearly].
  apply wp_bind, wp_query.
  set (pattern := path_join _ _). set (files := glob_glob w t3 pattern).
  destruct (nonempty files) eqn:Hfiles; cbn [negb]; [|by apply wp_ret].
  set (R := λ r d, rate_post files r d ∧ rate_only files r d).
  assert (∀ r d, R r d → Q r ([EvGlob pattern files] ++ d)) as Hrate.
  { intros r d [H H'] Hr [_ H1]%Forall_app [_ H2]%Forall_app.
    assert (1 ≤ length files)%nat as Hn by (destruct files; [done|cbn; lia]).
    exists pattern, files. split_and!; [by repeat constructor|done| | |].
    - apply elem_of_cons. right. by apply H.
    - intros v o [[=]|Hin]%elem_of_cons.
      specialize (H' Hr H1). rewrite Forall_forall in H'.
      by apply (H' _ Hin).
    - by apply rate_over_gt_1. }
  assert (∀ p r d, Forall not_rate_metric p → R r d → R r (p ++ d)) as HpreR.
  { intros p r d Hp [H H']. split; [by apply rate_post_prefix|by apply rate_only_prefix]. }
  eapply wp_mono; [|exact Hrate].
  apply wp_skip_no_rate; [emit|exact HpreR|done|]. intros ts t5.
  apply wp_skip_no_rate; [apply create_branch_no_rate|exact HpreR|done|]. intros _ t6.
  apply wp_skip_no_rate;
    [unfold get_system_info; emit; [apply start_run_no_rate|apply log_params_no_rate]
    |exact HpreR|done|]. intros _ t7.
  apply wp_and; [by apply publish_steps_rate|by apply publish_steps_reports].
Qed.

End SuccessRate.

(** *** The tracker that comes out of the constructor *)

Section TrackerState.

Variable w : World.

(** An enabled tracker comes out of the constructor only when MLflow is
    there and [mlflow.set_experiment] returned; without MLflow, or when the
    backend cannot be reached, the tracker is disabled. *)
Lemma enabled_tracker_reached_backend config t l t' :
  MLflowLogger_init w config t = (Ret l, t') → enabled l = true →
  MLFLOW_AVAILABLE w = true
  ∧ ∃ t0 name, t' = t0 ++ [EvSetExperiment name (Returns tt)].
Proof.
  intros E Hen.
  set (Q := λ (r : res MLflowLogger) (d : trace),
         ∀ l, r = Ret l → enabled l = true →
              MLFLOW_AVAILABLE w = true
              ∧ ∃ d0 name, d = d0 ++ [EvSetExperiment name (Returns tt)]).
  enough (wp (MLflowLogger_init w config) Q t) as (d & Hd & H).
  { rewrite E in Hd, H. cbn [fst snd] in *. subst t'.
    destruct (H l eq_refl Hen) as (Hav & d0 & name & ->).
    split; [done|]. exists (t ++ d0), name. by rewrite app_assoc. }
  assert (∀ p r d, Q r d → Q r (p ++ d)) as Hpre.
  { intros p r d H l' Hr Hl'. destruct (H l' Hr Hl') as (Hav & d0 & name & ->).
    split; [done|]. exists (p ++ d0), name. by rewrite app_assoc. }
  assert (∀ e d, Q (Raise e) d) as Hraise by done.
  unfold MLflowLogger_init. destruct (MLFLOW_AVAILABLE w); cbn [negb].
  2:{ apply wp_ret. by intros l' [= <-]. }
  apply (wp_skip_bind [KSetup]); [confine|done|done|]. intros _ t1.
  apply (wp_skip_bind [KSetup]); [unfold environ_setitem; confine|done|done|].
  intros _ t2.
  apply (wp_skip_bind [KSetup]); [unfold environ_setitem; confine|done|done|].
  intros _ t3.
  apply wp_try, wp_bind, wp_ext.
  destruct (mlflow_set_experiment w t3 _) as [[]|kind|]; cbn; [| |done].
  - apply wp_ret. intros l' _ _. split; [done|]. by eexists [], _.
  - apply wp_ret. by intros l' [= <-].
Qed.

End TrackerState.

(** *** Batch runs on concrete worlds *)

Section PublishExamples.

(** The theorem on the commit policy in a run where the store refuses every
    object: no commit, no success. *)
Lemma batch_commit_policy_witness :
  let run := upload_benchmark_results refusing_world full_config (Some (lit "out"))
                                      None [] in
  accepted_paths run.2 = []
  ∧ Forall (λ e, is_commit e = false) run.2
  ∧ run.1 ≠ Ret true.
Proof.
  cbn zeta.
  destruct (batch_commit_policy refusing_world full_config (Some (lit "out")) None [])
    as [(d & Hd & _ & HB & _) _].
  cbn [app] in Hd. rewrite <- Hd in HB.
  split; [by vm_compute|]. apply HB. by vm_compute.
Defined.

(** The theorem on the success rate in the nominal run: two result files,
    three accepted uploads. *)
Lemma success_rate_over_one_witness :
  let run := upload_benchmark_results nominal_world full_config (Some (lit "out"))
                                      (Some sample_logger) [] in
  ∃ pattern files,
    EvGlob pattern files ∈ run.2
    ∧ (1 ≤ length files)%nat
    ∧ EvLogMetric (lit "upload_success_rate")
        (inject_Z (Z.of_nat (S (length files))) / inject_Z (Z.of_nat (length files)))%Q
        (Returns tt) ∈ run.2
    ∧ (∀ v o, EvLogMetric (lit "upload_success_rate") v o ∈ run.2 →
         v = (inject_Z (Z.of_nat (S (length files)))
              / inject_Z (Z.of_nat (length files)))%Q)
    ∧ (1 < inject_Z (Z.of_nat (S (length files)))
           / inject_Z (Z.of_nat (length files)))%Q.
Proof.
  cbn zeta.
  destruct (success_rate_over_one nominal_world full_config (Some (lit "out"))
              sample_logger [] eq_refl) as (d & Hd & H).
  cbn [app] in Hd. rewrite <- Hd in H. apply H.
  - by vm_compute.
  - vm_compute. by repeat constructor.
  - vm_compute. by repeat constructor.
Defined.

(** Scenario A of the specification: three files, one refused.  Two
    result files and the manifest are accepted, one commit is made, the run
    succeeds, and the logged ratio is 3/3. *)
Example one_upload_of_three_fails :
  let run := upload_benchmark_results partial_world full_config (Some (lit "out"))
                                      (Some sample_logger) [] in
  run.1 = Ret true
  ∧ length (accepted_paths run.2) = 3%nat
  ∧ count_events upload_failed run.2 = 1%nat
  ∧ count_events is_commit run.2 = 1%nat
  ∧ EvLogMetric (lit "upload_success_rate") (3 # 3) (Returns tt) ∈ run.2.
Proof. split_and!; try reflexivity. vm_compute. by repeat constructor. Qed.

(** Why the theorem on [mlflow.end_run] asks that the call itself is not
    interrupted: when Ctrl-C arrives during the call of the normal path,
    the [except] clause calls it a second time. *)
Example interrupted_close_is_repeated :
  (run_main interrupted_close_world batch_args full_config).1 = 130%Z
  ∧ count_events is_end_run
      (run_main interrupted_close_world batch_args full_config).2 = 2%nat.
Proof. by vm_compute. Qed.

End PublishExamples.

(** * Part III: further properties *)

(** ** File names, remote paths and benchmark names *)

Section Names.

Implicit Types (p s name stem dir ts : pystr) (c : N).

Lemma re_sub_unsafe_id name :
  Forall (λ c, branch_safe c = true) name → re_sub_unsafe name = name.
Proof.
  unfold re_sub_unsafe. induction 1 as [|c name Hc _ IH]; [done|].
  rewrite fmap_cons, Hc. by f_equal.
Qed.

Lemma sanitize_safe_id name :
  Forall (λ c, branch_safe c = true) name → startswith (lit "-") name = false →
  sanitize_branch_name name = name.
Proof.
  intros Hsafe Hdash. unfold sanitize_branch_name.
  by rewrite startswith_dash_sub, Hdash, re_sub_unsafe_id.
Qed.

(** X1: a name made of safe characters that does not start with ['-'] is
    returned as it is, and sanitizing twice is the same as sanitizing
    once. *)
Theorem sanitize_branch_name_fixpoint name :
  (Forall (λ c, branch_safe c = true) name → startswith (lit "-") name = false →
     sanitize_branch_name name = name)
  ∧ sanitize_branch_name (sanitize_branch_name name) = sanitize_branch_name name.
Proof.
  split; [apply sanitize_safe_id|].
  apply sanitize_safe_id.
  - unfold sanitize_branch_name. rewrite startswith_dash_sub.
    destruct (startswith (lit "-") name).
    + apply Forall_app. split; [by repeat constructor|].
      apply Forall_drop, re_sub_unsafe_safe.
    + apply re_sub_unsafe_safe.
  - unfold sanitize_branch_name. rewrite startswith_dash_sub.
    destruct (startswith (lit "-") name) eqn:E; [reflexivity|].
    by rewrite startswith_dash_sub.
Qed.

(** *** basename and join *)

Lemma basename_from p acc :
  47%N ∉ p →
  fold_left (λ acc c, if (c =? 47)%N then [] else acc ++ [c]) p acc = acc ++ p.
Proof.
  revert acc. induction p as [|c p IH]; intros acc Hp; cbn [fold_left].
  - by rewrite app_nil_r.
  - apply not_elem_of_cons in Hp as [Hc Hp].
    destruct (N.eqb_spec c 47) as [->|_]; [done|].
    rewrite IH by done. by rewrite <- app_assoc.
Qed.

Lemma basename_slash_free p : 47%N ∉ p → basename p = p.
Proof. intros H. unfold basename. by rewrite basename_from. Qed.

Lemma basename_after_slash p s : basename (p ++ 47%N :: s) = basename s.
Proof. unfold basename. by rewrite fold_left_app. Qed.

Lemma basename_no_slash p : 47%N ∉ basename p.
Proof.
  unfold basename.
  assert (∀ acc, 47%N ∉ acc →
            47%N ∉ fold_left (λ acc c, if (c =? 47)%N then [] else acc ++ [c]) p acc)
    as H; [|apply H, not_elem_of_nil].
  induction p as [|c p IH]; intros acc Hacc; cbn [fold_left]; [done|].
  apply IH. destruct (N.eqb_spec c 47) as [->|Hc]; [apply not_elem_of_nil|].
  rewrite elem_of_app, list_elem_of_singleton. intros [?|?]; congruence.
Qed.

Lemma basename_path_join dir s : 47%N ∉ s → basename (path_join dir s) = s.
Proof.
  intros Hs. unfold path_join. destruct (last dir) as [c|] eqn:E.
  - destruct (N.eqb_spec c 47) as [->|_].
    + apply last_Some in E as [d' ->]. rewrite <- app_assoc. cbn [app].
      by rewrite basename_after_slash, basename_slash_free.
    + change (lit "/") with [47%N]. cbn [app].
      by rewrite basename_after_slash, basename_slash_free.
  - by apply basename_slash_free.
Qed.

(** X2: the remote path under which a result file is uploaded ends in the
    local file's name, which has no ['/']; and the path whose size the
    manifest adds up, [results_dir] joined with the base name of the remote
    path, is a file of that name. *)
Theorem remote_path_keeps_file_name dir ts p :
  let filename := basename p in
  let remote_path := lit "results/" ++ ts ++ lit "/" ++ filename in
  (47%N ∉ filename)
  ∧ basename remote_path = filename
  ∧ basename (path_join dir (basename (basename remote_path))) = filename.
Proof.
  intros filename remote_path.
  assert (47%N ∉ filename) as Hfn by apply basename_no_slash.
  assert (basename remote_path = filename) as Hr.
  { unfold remote_path. change (lit "/") with [47%N]. cbn [app].
    rewrite (app_assoc (lit "results/") ts).
    by rewrite basename_after_slash, basename_slash_free. }
  split_and!; [done|done|].
  rewrite Hr. rewrite (basename_slash_free filename) by done.
  by apply basename_path_join.
Qed.

(** *** The benchmark name of a results file *)

Lemma replace_char a b s :
  str_replace [a] [b] s = (λ c, if (a =? c)%N then b else c) <$> s.
Proof.
  unfold str_replace. induction s as [|c s IH]; [done|].
  cbn [replace_from startswith length Nat.sub app].
  rewrite andb_true_r, fmap_cons, IH. by destruct (a =? c)%N.
Qed.

Lemma strip_extension stem :
  46%N ∉ stem → str_replace (lit ".jsonl") [] (stem ++ lit ".jsonl") = stem.
Proof.
  unfold str_replace. induction stem as [|c stem IH]; intros H.
  - reflexivity.
  - apply not_elem_of_cons in H as [Hc H].
    change (lit ".jsonl") with (46%N :: lit "jsonl") at 1.
    cbn [app replace_from startswith].
    destruct (N.eqb_spec 46 c) as [E|_]; [congruence|]. cbn [andb].
    f_equal. by apply IH.
Qed.

(** X3: the benchmark name under which the metrics of a results file are
    logged contains no ['-']; for a file [stem.jsonl] whose stem has no
    ['.'] it is the stem with every ['-'] turned into ['_']. *)
Theorem benchmark_name_of_file filename :
  let benchmark_name :=
    str_replace (lit "-") (lit "_") (str_replace (lit ".jsonl") [] filename) in
  (45%N ∉ benchmark_name)
  ∧ ∀ stem, filename = stem ++ lit ".jsonl" → 46%N ∉ stem →
      benchmark_name = (λ c, if (45 =? c)%N then 95%N else c) <$> stem.
Proof.
  cbv zeta. change (lit "-") with [45%N]. change (lit "_") with [95%N].
  rewrite replace_char. split.
  - intros (c & Hc & _)%list_elem_of_fmap.
    destruct (45 =? c)%N eqn:E; [discriminate Hc|].
    subst c. by rewrite N.eqb_refl in E.
  - intros stem -> Hstem. by rewrite strip_extension.
Qed.

End Names.

(** *** The mapping of an arbitrary file *)

Section AnyFile.

Implicit Types (name : pystr) (s : series) (m : pydict Q) (lines : list jsonl_line).

(** The four blocks of statistics keep an invariant that every assignment
    of a statistic keeps. *)
Lemma keeps_statistics (I : pydict Q → Prop) name s :
  (∀ sfx v, sfx ∈ metric_suffixes → sfx ≠ "_total_questions" →
            keeps I (set_metric name sfx v)) →
  keeps I (wall_time_stats name s;; decoding_steps_stats name s;;
           new_tokens_stats name s;; accept_length_stats name s).
Proof.
  intros Hset.
  unfold wall_time_stats, decoding_steps_stats, new_tokens_stats,
    accept_length_stats, extremum.
  repeat first
    [ apply keeps_py_sum | apply keeps_py_max | apply keeps_py_min
    | apply keeps_truediv | apply keeps_token_rate | apply keeps_num
    | apply Hset; [by repeat constructor|discriminate]
    | keep_step ].
Qed.

Lemma parse_body_start lines name :
  MalformedLine ∉ lines → records_of lines ≠ [] →
  parse_body lines name []
  = (let! s := foldM collect_result empty_series (records_of lines) in
     wall_time_stats name s;; decoding_steps_stats name s;;
     new_tokens_stats name s;; accept_length_stats name s)
      [(name ++ lit "_total_questions", len (records_of lines))].
Proof.
  intros Hok Hne. unfold parse_body.
  erewrite run_bind_ret by (by apply json_loads_ok).
  by destruct (records_of lines).
Qed.

(** X5: when no line of the file is malformed, the number of records is in
    the mapping returned whatever the records hold, also when the
    aggregation that follows raises; a file without records gives the empty
    mapping. *)
Theorem total_questions_survives lines name :
  MalformedLine ∉ lines →
  (records_of lines = [] → parse_lines lines name = [])
  ∧ (records_of lines ≠ [] →
       metric (parse_lines lines name) name "_total_questions"
       = Some (len (records_of lines))).
Proof.
  intros Hok. rewrite parse_lines_state. split.
  - intros Hnone. unfold parse_body.
    erewrite run_bind_ret by (by apply json_loads_ok). by rewrite Hnone.
  - intros Hsome. rewrite parse_body_start by done.
    set (I := λ m, metric m name "_total_questions" = Some (len (records_of lines))).
    enough (keeps I (let! s := foldM collect_result empty_series (records_of lines) in
                     wall_time_stats name s;; decoding_steps_stats name s;;
                     new_tokens_stats name s;; accept_length_stats name s)) as H.
    { apply H. unfold I, metric. cbn [dict_lookup].
      by rewrite bool_decide_eq_true_2. }
    apply keeps_bind; [apply keeps_collect|]. intros s.
    apply keeps_statistics. intros sfx v _ Hsfx m Hm. split; [|done].
    unfold I, set_metric. cbn [snd]. rewrite metric_set.
    destruct (String.eqb_spec sfx "_total_questions"); [done|exact Hm].
Qed.

(** *** Keys *)

Lemma dict_set_keys {V} k (v : V) (d : pydict V) :
  (dict_set k v d).*1 = if bool_decide (k ∈ d.*1) then d.*1 else d.*1 ++ [k].
Proof.
  induction d as [|[k' v'] d IH]; cbn [dict_set]; [done|].
  destruct (bool_decide_reflect (k' = k)) as [->|E].
  - rewrite bool_decide_eq_true_2; [done|]. cbn. by left.
  - rewrite !fmap_cons. cbn [fst]. rewrite IH.
    destruct (bool_decide_reflect (k ∈ d.*1)) as [Hin|Hnot].
    + rewrite bool_decide_eq_true_2; [done|]. by right.
    + rewrite bool_decide_eq_false_2; [done|].
      intros [?|?]%elem_of_cons; congruence.
Qed.

Lemma dict_set_NoDup {V} k (v : V) (d : pydict V) :
  NoDup d.*1 → NoDup (dict_set k v d).*1.
Proof.
  intros H. rewrite dict_set_keys. case_bool_decide as E; [done|].
  apply NoDup_app. split_and!; [done| |by apply NoDup_singleton].
  intros x Hx ->%list_elem_of_singleton. done.
Qed.

(** X6: whatever the file holds, the keys of the mapping returned are
    distinct, each is the benchmark name followed by one of the fourteen
    suffixes of the source, and so the mapping has at most fourteen
    entries. *)
Theorem metric_keys_are_namespaced lines name :
  let m := parse_lines lines name in
  NoDup m.*1
  ∧ Forall (λ kv, ∃ sfx, sfx ∈ metric_suffixes ∧ kv.1 = name ++ lit sfx) m
  ∧ (length m ≤ 14)%nat.
Proof.
  set (I := λ m : pydict Q,
         NoDup m.*1
         ∧ Forall (λ kv, ∃ sfx, sfx ∈ metric_suffixes ∧ kv.1 = name ++ lit sfx) m).
  assert (∀ sfx v, sfx ∈ metric_suffixes → keeps I (set_metric name sfx v)) as Hset.
  { intros sfx v Hsfx m [Hnd Hall]. split; [|done]. unfold set_metric. cbn [snd].
    split; [by apply dict_set_NoDup|].
    apply dict_set_Forall; [done|]. by exists sfx. }
  assert (keeps I (parse_body lines name)) as Hbody.
  { unfold parse_body.
    apply keeps_bind; [apply keeps_json_loads|]. intros results.
    destruct (negb (nonempty results)); [apply keeps_ret|].
    apply keeps_bind; [apply Hset; by repeat constructor|]. intros _.
    apply keeps_bind; [apply keeps_collect|]. intros s.
    apply keeps_statistics. intros sfx v Hsfx _. by apply Hset. }
  cbv zeta. rewrite parse_lines_state.
  destruct (Hbody []) as [[Hnd Hall] _]; [split; constructor|].
  split_and!; [done|done|].
  rewrite <- (length_fmap fst).
  change 14%nat with (length ((λ sfx, name ++ lit sfx) <$> metric_suffixes)).
  apply submseteq_length, NoDup_submseteq; [done|].
  intros k ((k' & v) & -> & Hin)%list_elem_of_fmap.
  rewrite Forall_forall in Hall. destruct (Hall _ Hin) as (sfx & Hsfx & E).
  apply list_elem_of_fmap. by exists sfx.
Qed.

(** *** Further choices *)

Lemma first_choice_lookup key (kv : list (pystr * json)) :
  dict_lookup key
    ((λ p, if bool_decide (p.1 = lit "choices")
           then (p.1, head_only p.2) else p) <$> kv)
  = if bool_decide (key = lit "choices")
    then head_only <$> dict_lookup key kv
    else dict_lookup key kv.
Proof.
  induction kv as [|[k v] kv IH]; [by case_bool_decide|].
  rewrite fmap_cons. cbn [fst snd].
  destruct (bool_decide_reflect (k = lit "choices")) as [->|Hk];
    cbn [dict_lookup fst snd].
  - destruct (bool_decide_reflect (lit "choices" = key)) as [<-|Hne].
    + rewrite bool_decide_eq_true_2 by done. reflexivity.
    + rewrite IH. by repeat case_bool_decide.
  - destruct (bool_decide_reflect (k = key)) as [<-|Hne].
    + by rewrite bool_decide_eq_false_2.
    + by rewrite IH.
Qed.

Lemma collect_first_choice {S} acc r (s : S) :
  collect_result acc (first_choice_only r) s = collect_result acc r s.
Proof.
  destruct r as [| | | | |kv]; try reflexivity.
  unfold collect_result, first_choice_only, dict_get.
  rewrite first_choice_lookup, bool_decide_eq_true_2 by done.
  destruct (dict_lookup (lit "choices") kv) as [[| | | |[|c l]|]|]; reflexivity.
Qed.

Lemma collect_all_first_choice {S} results acc (s : S) :
  foldM collect_result acc (first_choice_only <$> results) s
  = foldM collect_result acc results s.
Proof.
  revert acc s. induction results as [|r results IH]; intros acc s; [done|].
  rewrite fmap_cons. cbn [foldM]. unfold bind.
  rewrite collect_first_choice.
  destruct (collect_result acc r s) as [[acc'|e] s']; [apply IH|done].
Qed.

(** X7: only the first element of [choices] is read: cutting every
    record's [choices] down to its first element leaves the mapping
    unchanged, whatever the records hold. *)
Theorem only_first_choice_counts results name :
  parse_lines (file_of (first_choice_only <$> results)) name
  = parse_lines (file_of results) name.
Proof.
  rewrite !parse_lines_state. unfold parse_body.
  erewrite !run_bind_ret by apply json_loads_file.
  rewrite nonempty_fmap, len_fmap.
  destruct (negb (nonempty results)); [done|].
  unfold bind, set_metric. by rewrite collect_all_first_choice.
Qed.

End AnyFile.

(** One record that is not an object: the count is kept, nothing else. *)
Lemma total_questions_survives_witness :
  (MalformedLine ∉ [JsonLine (JNum (PInt 1))])
  ∧ metric (parse_lines [JsonLine (JNum (PInt 1))] (lit "b")) (lit "b") "_total_questions"
    = Some (len [JNum (PInt 1)]).
Proof.
  assert (MalformedLine ∉ [JsonLine (JNum (PInt 1))]) as H.
  { intros [E|E]%elem_of_cons; [discriminate E|]. by apply elem_of_nil in E. }
  split; [exact H|].
  apply (total_questions_survives [JsonLine (JNum (PInt 1))] (lit "b") H). discriminate.
Defined.

(** ** The collaborators *)

Section Collaborators.

Variable w : World.
Implicit Types (t d : trace) (l : MLflowLogger).

Lemma wp_only_interrupt {A} (m : M trace A) (Q : res A → trace → Prop) t :
  wp m (λ r d, Q r d ∧ only_interrupt r) t → only_interrupt (m t).1.
Proof. by intros (d & _ & _ & H). Qed.

(** X8: no method of the tracker lets an [Exception] through, whatever
    the state of the tracker and whatever MLflow answers (only
    [KeyboardInterrupt] passes); and a disabled tracker makes no call at
    all. *)
Theorem tracker_is_best_effort l name tags params metrics path lp file bench t :
  only_interrupt (start_run w l name tags t).1
  ∧ only_interrupt (log_params w l params t).1
  ∧ only_interrupt (log_metrics w l metrics t).1
  ∧ only_interrupt (log_artifacts w l path lp t).1
  ∧ only_interrupt (log_benchmark_results w l file bench t).1
  ∧ only_interrupt (end_run w l t).1
  ∧ (enabled l = false →
       (start_run w l name tags t).2 = t
       ∧ (log_params w l params t).2 = t
       ∧ (log_metrics w l metrics t).2 = t
       ∧ (log_artifacts w l path lp t).2 = t
       ∧ (log_benchmark_results w l file bench t).2 = t
       ∧ (end_run w l t).2 = t).
Proof.
  split_and!.
  - unfold start_run. destruct (enabled l); cbn [negb]; [|done].
    eapply wp_only_interrupt, (try_except_only_interrupt [KLog]). confine.
  - eapply wp_only_interrupt, log_params_only_interrupt.
  - eapply wp_only_interrupt, log_metrics_only_interrupt.
  - unfold log_artifacts. destruct (enabled l); cbn [negb]; [|done].
    eapply wp_only_interrupt, (try_except_only_interrupt [KLog]). confine.
  - unfold log_benchmark_results. destruct (enabled l); cbn [negb]; [|done].
    unfold bind, query. cbn.
    destruct (os_path_exists w t file); cbn [negb]; [|done].
    eapply wp_only_interrupt, (try_except_only_interrupt [KLog]).
    unfold _parse_benchmark_results. confine.
  - unfold end_run. destruct (enabled l); cbn [when]; [|done].
    eapply wp_only_interrupt, (try_except_only_interrupt [KEndRun]). confine.
  - intros H.
    destruct (disabled_tracker_silent w l name tags params metrics path lp file bench t H)
      as (-> & -> & -> & -> & -> & ->).
    done.
Qed.

(** *** upload_file *)

(** X9: [upload_file] contacts the store only after the local file was
    read, at most once, and for the repository, branch and remote path it
    was given; it returns [True] exactly when the store accepted the object,
    [False] when reading or uploading raised, and lets no [Exception]
    through. *)
Theorem upload_file_reports_store self repo branch lp rp t :
  ∃ d, (upload_file w self repo branch lp rp t).2 = t ++ d
       ∧ let r := (upload_file w self repo branch lp rp t).1 in
         only_interrupt r
         ∧ (r = Ret true
            ↔ d = [EvReadBytes lp (Returns tt);
                   EvUploadObject repo branch rp (Returns tt)])
         ∧ (r = Ret false ↔ Exists (λ e, upload_failed e = true) d)
         ∧ (∀ e, e ∈ d → is_store_call e = true →
              ∃ o, e = EvUploadObject repo branch rp o
                   ∧ d = [EvReadBytes lp (Returns tt); e]).
Proof.
  unfold upload_file, try_except, bind, ext. cbn.
  destruct (read_bytes w t lp) as [[]|kind|] eqn:Eread; cbn.
  - destruct (sdk_upload_object w _ repo branch rp) as [[]|kind|] eqn:Eup; cbn;
      eexists; (split; [by rewrite <- app_assoc|]); split_and!; try done.
    + split; [done|]. intros [H|[H|H%Exists_nil]%Exists_cons]%Exists_cons; done.
    + intros e [->|[->|[]%elem_of_nil]%elem_of_cons]%elem_of_cons; [done|].
      intros _. by eexists.
    + split; [intros _|done]. apply Exists_cons_tl. by repeat constructor.
    + intros e [->|[->|[]%elem_of_nil]%elem_of_cons]%elem_of_cons; [done|].
      intros _. by eexists.
    + split; [done|]. intros [H|[H|H%Exists_nil]%Exists_cons]%Exists_cons; done.
    + intros e [->|[->|[]%elem_of_nil]%elem_of_cons]%elem_of_cons; [done|].
      intros _. by eexists.
  - eexists; (split; [reflexivity|]); split_and!; try done.
    + split; [intros _|done]. by repeat constructor.
    + by intros e ->%list_elem_of_singleton.
  - eexists; (split; [reflexivity|]); split_and!; try done.
    + split; [done|]. intros [H|H%Exists_nil]%Exists_cons; done.
    + by intros e ->%list_elem_of_singleton.
Qed.

(** *** The logging loops *)

Lemma log_metric_loop (metrics : pydict Q) t :
  wp (forM_ (λ kv, ext (EvLogMetric kv.1 kv.2)
                       (λ t, mlflow_log_metric w t kv.1 kv.2)) metrics)
     (λ r d,
        Forall (λ e, ∃ k v o, e = EvLogMetric k v o) d
        ∧ logged_metrics d `prefix_of` metrics
        ∧ (∀ d1 e d2, d = d1 ++ e :: d2 → d2 ≠ [] → returned e = true)
        ∧ (Forall (λ e, returned e = true) d → logged_metrics d = metrics)) t.
Proof.
  revert t. induction metrics as [|[k v] metrics IH]; intros t; cbn [forM_].
  - apply wp_ret. split_and!; [done|done| |done].
    by intros [|??] ? ? ?.
  - apply wp_bind, wp_ext. cbn [fst snd].
    destruct (mlflow_log_metric w t k v) as [[]|kind|]; cbn [res_of_outcome].
    + eapply wp_mono; [apply IH|]. intros r d (Hall & Hpre & Hlast & Hfull).
      cbn [app]. split_and!.
      * constructor; [by eexists _, _, _|done].
      * cbn. by apply prefix_cons.
      * intros [|x d1] e d2; cbn [app]; intros [= <- E] Hd2; [done|].
        by eapply Hlast.
      * intros [_ H]%Forall_cons. cbn. f_equal. by apply Hfull.
    + split_and!.
      * constructor; [by eexists _, _, _|done].
      * cbn. apply prefix_cons, prefix_nil.
      * intros [|x [|y d1]] e d2; cbn [app]; by intros [= <- E] Hd2.
      * by intros [[=] _]%Forall_cons.
    + split_and!.
      * constructor; [by eexists _, _, _|done].
      * cbn. apply prefix_cons, prefix_nil.
      * intros [|x [|y d1]] e d2; cbn [app]; by intros [= <- E] Hd2.
      * by intros [[=] _]%Forall_cons.
Qed.

(** X10: [log_metrics] calls [mlflow.log_metric] for the items of the
    dictionary in their order and gives up at the first call that does not
    return: every call but the last returned, what was logged is a prefix of
    the dictionary, and it is the whole dictionary when every call
    returned.  A disabled tracker logs nothing. *)
Theorem log_metrics_stops_at_first_failure l (metrics : pydict Q) t :
  ∃ d, (log_metrics w l metrics t).2 = t ++ d
       ∧ Forall (λ e, ∃ k v o, e = EvLogMetric k v o) d
       ∧ logged_metrics d `prefix_of` metrics
       ∧ (∀ d1 e d2, d = d1 ++ e :: d2 → d2 ≠ [] → returned e = true)
       ∧ (enabled l = true → Forall (λ e, returned e = true) d →
            logged_metrics d = metrics)
       ∧ (enabled l = false → d = []).
Proof.
  unfold log_metrics. destruct (enabled l); cbn [negb].
  - destruct (log_metric_loop metrics t) as (d & Hd & Hall & Hpre & Hlast & Hfull).
    exists d. unfold try_except.
    destruct (forM_ _ metrics t) as [[[]|[kind| |c]] t'] eqn:E; cbn in Hd |- *;
      (split; [done|]); split_and!; try done; by intros _.
  - exists []. rewrite app_nil_r. split_and!; try done.
    + apply prefix_nil.
    + by intros [|??] ? ? ?.
Qed.

Lemma dict_lookup_absent {V} k (d : pydict V) : k ∉ d.*1 → dict_lookup k d = None.
Proof.
  induction d as [|[k' v] d IH]; [done|]. rewrite fmap_cons. cbn [fst dict_lookup].
  intros [Hk Hd]%not_elem_of_cons. rewrite bool_decide_eq_false_2 by done.
  by apply IH.
Qed.

Lemma dict_update_lookup {V} k (d other : pydict V) :
  NoDup other.*1 →
  dict_lookup k (dict_update d other)
  = match dict_lookup k other with
    | Some v => Some v
    | None => dict_lookup k d
    end.
Proof.
  unfold dict_update. revert d. induction other as [|[k0 v0] other IH]; intros d.
  - done.
  - rewrite fmap_cons. cbn [fst snd fold_left dict_lookup].
    intros [Hk0 Hnd]%NoDup_cons. rewrite IH by done. rewrite dict_lookup_set.
    destruct (bool_decide_reflect (k0 = k)) as [->|Hne]; [|done].
    by rewrite dict_lookup_absent.
Qed.

Lemma dict_update_NoDup {V} (d other : pydict V) :
  NoDup d.*1 → NoDup (dict_update d other).*1.
Proof.
  unfold dict_update. revert d. induction other as [|[k0 v0] other IH]; intros d H.
  - done.
  - cbn [fold_left fst snd]. by apply IH, dict_set_NoDup.
Qed.

(** X11: an enabled tracker starts the run with the union of its default
    tags and the tags it is given, a tag that is given winning over a
    default tag of the same key; distinct keys stay distinct. *)
Theorem start_run_merges_tags l name (tags own : pydict pystr) t :
  enabled l = true → default_tags l = Some own → NoDup tags.*1 →
  ∃ all_tags o,
    (start_run w l name tags t).2 = t ++ [EvStartRun name all_tags o]
    ∧ (∀ k, dict_lookup k all_tags
            = match dict_lookup k tags with
              | Some v => Some v
              | None => dict_lookup k own
              end)
    ∧ (NoDup own.*1 → NoDup all_tags.*1).
Proof.
  intros Hen Hown Hnd. unfold start_run. rewrite Hen, Hown. cbn [negb].
  unfold try_except, bind, ret, ext.
  set (all_tags := if nonempty tags then dict_update own tags else own).
  exists all_tags, (mlflow_start_run w t name all_tags).
  split; [by destruct (mlflow_start_run w t name all_tags) as [?|?|]|].
  unfold all_tags. destruct tags as [|kv tags]; cbn [nonempty].
  - done.
  - split; [intros k; by apply dict_update_lookup|apply dict_update_NoDup].
Qed.

End Collaborators.

(** The default tag [team] is kept, the default [lakefs_branch] is
    replaced. *)
Lemma start_run_merges_tags_witness :
  ∃ all_tags o,
    (start_run nominal_world
       {| enabled := true; experiment_name := Some (lit "e");
          default_tags := Some [(lit "team", lit "nlp"); (lit "lakefs_branch", lit "old")] |}
       (lit "run") [(lit "lakefs_branch", lit "new")] []).2
    = [EvStartRun (lit "run") all_tags o]
    ∧ dict_lookup (lit "team") all_tags = Some (lit "nlp")
    ∧ dict_lookup (lit "lakefs_branch") all_tags = Some (lit "new").
Proof.
  destruct (start_run_merges_tags nominal_world
              {| enabled := true; experiment_name := Some (lit "e");
                 default_tags := Some [(lit "team", lit "nlp");
                                       (lit "lakefs_branch", lit "old")] |}
              (lit "run") [(lit "lakefs_branch", lit "new")]
              [(lit "team", lit "nlp"); (lit "lakefs_branch", lit "old")] []
              eq_refl eq_refl)
    as (all_tags & o & Hd & Hlook & _).
  { apply NoDup_singleton. }
  exists all_tags, o. split; [exact Hd|].
  split; [by rewrite Hlook|by rewrite Hlook].
Defined.

(** ** Publishing one file *)

Section SingleResult.

Variable w : World.
Implicit Types (t d : trace) (config : Config).

Lemma LakeFSUploader_init_run config t :
  LakeFSUploader_init config t
  = (if uploader_configured config
     then match config_lakefs config with
          | Some c =>
              Ret {| endpoint := default [] (lakefs_endpoint c);
                     repository := default [] (lakefs_repository c);
                     branch_prefix :=
                       default (lit "experiment") (lakefs_branch_prefix c) |}
          | None => Raise (PyError "KeyError")
          end
     else Raise (PyError (match config_lakefs config with
                          | Some c =>
                              match lakefs_endpoint c, lakefs_repository c with
                              | Some _, Some _ => "ValueError"
                              | _, _ => "KeyError"
                              end
                          | None => "KeyError"
                          end)), t).
Proof.
  unfold LakeFSUploader_init, uploader_configured, config_item, bind, ret, raise.
  destruct (config_lakefs config) as [c|]; [|done].
  destruct (lakefs_endpoint c) as [ep|]; [|done].
  destruct (lakefs_repository c) as [repo|]; [|done]. cbn.
  by destruct (str_truthy (lakefs_access_key c)), (str_truthy (lakefs_secret_key c)).
Qed.

Lemma try_uploader_run config t :
  try_uploader config t
  = (Ret (if uploader_configured config
          then match config_lakefs config with
               | Some c =>
                   Some {| endpoint := default [] (lakefs_endpoint c);
                           repository := default [] (lakefs_repository c);
                           branch_prefix :=
                             default (lit "experiment") (lakefs_branch_prefix c) |}
               | None => None
               end
          else None), t).
Proof.
  unfold try_uploader, try_except, bind. rewrite LakeFSUploader_init_run.
  destruct (uploader_configured config); [|done].
  by destruct (config_lakefs config).
Qed.

(** X12: when the [lakefs] section, its endpoint, its repository, or a
    non-empty access key or secret key is missing from the configuration,
    neither way of publishing contacts the store: the batch run returns
    [False] without any call, the single-file run after looking whether the
    file exists. *)
Theorem store_needs_credentials config :
  uploader_configured config = false →
  (∀ results_dir logger t,
     upload_benchmark_results w config results_dir logger t = (Ret false, t))
  ∧ (∀ result_file model_name t,
       ∃ found,
         upload_single_result w config result_file model_name t
         = (Ret false, t ++ [EvPathExists result_file found])).
Proof.
  intros H. split.
  - intros results_dir logger t. unfold upload_benchmark_results.
    erewrite run_bind_ret by apply try_uploader_run. by rewrite H.
  - intros result_file model_name t. exists (os_path_exists w t result_file).
    unfold upload_single_result.
    erewrite run_bind_ret by reflexivity.
    destruct (os_path_exists w t result_file); cbn [negb]; [|done].
    erewrite run_bind_ret by apply try_uploader_run. by rewrite H.
Qed.

(** What a single-file run leaves. *)
Lemma single_post_quiet ks (r : res bool) d :
  existsb (ekind_eqb KCommit) ks = false →
  Forall (λ e, allowed ks e = true) d → r ≠ Ret true → only_interrupt r →
  (length (accepted_paths d) ≤ 1)%nat →
  single_post r d.
Proof.
  intros Hks Hd Hr Hint Hlen. pose proof (no_commit ks d Hks Hd) as Hnc.
  split_and!; [done| | |done].
  - split; [done|]. by rewrite (no_commit_obtained d Hnc).
  - intros d1 e d2 -> He. apply Forall_app in Hnc as [_ Hnc].
    apply Forall_cons in Hnc as [Hnc _]. congruence.
Qed.

Lemma single_post_prefix ks p (r : res bool) d :
  existsb (ekind_eqb KCommit) ks = false →
  existsb (ekind_eqb KUpload) ks = false →
  Forall (λ e, allowed ks e = true) p → single_post r d → single_post r (p ++ d).
Proof.
  intros Hkc Hku Hp (Hint & Hiff & Hlast & Hlen).
  pose proof (no_commit ks p Hkc Hp) as Hnc.
  pose proof (no_accepted ks p Hku Hp) as Hna.
  split_and!; [done| | |].
  - by rewrite existsb_app, (no_commit_obtained p Hnc).
  - intros d1 e d2 E He.
    destruct (split_behind (λ x, is_commit x = true) p d d1 d2 e) as (d1' & -> & ->);
      [|done|done|].
    { eapply Forall_impl; [exact Hnc|]. intros x Hx. by rewrite Hx. }
    rewrite accepted_paths_app, Hna. by eapply Hlast.
  - rewrite accepted_paths_app, Hna. exact Hlen.
Qed.

Lemma wp_single_bind {A} ks (m : M trace A) (f : A → M trace bool) t :
  existsb (ekind_eqb KCommit) ks = false →
  existsb (ekind_eqb KUpload) ks = false →
  (∀ t', wp m (λ r d, Forall (λ e, allowed ks e = true) d ∧ only_interrupt r) t') →
  (∀ a t', wp (f a) single_post t') →
  wp (bind m f) single_post t.
Proof.
  intros Hkc Hku Hm Hf. apply wp_bind. eapply wp_mono; [apply Hm|].
  intros [a|e] d [Hd Hr].
  - eapply wp_mono; [apply Hf|]. intros r d' H. by apply (single_post_prefix ks).
  - apply (single_post_quiet ks); try done.
    rewrite (no_accepted ks d Hku Hd). cbn. lia.
Qed.

Lemma wp_query_quiet {A} ks (record : A → event) answer t :
  (∀ a, allowed ks (record a) = true) →
  wp (query record answer)
     (λ r d, Forall (λ e, allowed ks e = true) d ∧ only_interrupt r) t.
Proof. intros H. apply wp_query. split; [by repeat constructor|done]. Qed.

Lemma single_commit_post d1 e p (r : res bool) :
  Forall (λ e, is_commit e = false) d1 → accepted_paths d1 = [p] →
  is_commit e = true → only_interrupt r →
  (r = Ret true ↔ commit_obtained e = true) →
  single_post r (d1 ++ [e]).
Proof.
  intros Hnc Hacc He Hint Hiff. split_and!; [done| | |].
  - rewrite existsb_app, (no_commit_obtained d1 Hnc). cbn. by rewrite orb_false_r.
  - intros x1 e' x2 Ex He'.
    destruct (split_behind (λ x, is_commit x = true) d1 [e] x1 x2 e')
      as (x1' & -> & Ex'); [|done|done|].
    { eapply Forall_impl; [exact Hnc|]. intros x Hx. by rewrite Hx. }
    destruct x1' as [|? [|??]]; [|done|done]. injection Ex' as <- <-.
    by rewrite app_nil_r, Hacc.
  - rewrite accepted_paths_app, Hacc. by destruct e.
Qed.

(** The single-file run, step by step. *)
Lemma upload_single_result_post config result_file model_name t :
  wp (upload_single_result w config result_file model_name) single_post t.
Proof.
  assert (∀ t', wp (ret false) single_post t') as Hearly.
  { intros t'. apply wp_ret. apply (single_post_quiet []); try done. cbn. lia. }
  unfold upload_single_result.
  apply (wp_single_bind [KProbe]); [done|done| |].
  { intros t'. by apply wp_query_quiet. }
  intros [] t1; cbn [negb]; [|apply Hearly].
  apply wp_bind. exists []. rewrite try_uploader_run, app_nil_r. split; [done|].
  cbn [fst]. destruct (if uploader_configured config then _ else None) as [uploader|];
    [|apply Hearly].
  apply (wp_single_bind [KProbe]); [done|done| |].
  { intros t'. apply try_except_only_interrupt. confine. }
  intros [] t2; cbn [negb]; [|apply Hearly].
  apply (wp_single_bind [KProbe]); [done|done| |].
  { intros t'. by apply wp_query_quiet. }
  intros ts t3. cbv zeta.
  apply (wp_single_bind [KBranch]); [done|done| |].
  { intros t'. apply try_except_only_interrupt. confine. }
  intros _ t4.
  apply wp_bind.
  eapply wp_mono;
    [apply (wp_and _ _ _ _ (upload_file_confined w _ _ _ _ _ _)
                   (upload_file_spec w _ _ _ _ _ _))|].
  intros [[]|e] d1 [[Hd1 _] Hpost]; cbn in Hpost.
  - destruct Hpost as [Hacc _].
    pose proof (no_commit [KUpload] d1 eq_refl Hd1) as Hnc.
    apply wp_bind. unfold wp at 1, commit_changes, try_except, bind, ext.
    destruct (sdk_commit w _ _ _ _) as [id|k|] eqn:E; cbn;
      eexists; (split; [reflexivity|]).
    + destruct id as [|c id]; cbn [str_truthy]; apply wp_ret; rewrite app_nil_r;
        eapply single_commit_post; try done.
    + apply wp_ret. rewrite app_nil_r. eapply single_commit_post; try done.
    + eapply single_commit_post; try done.
  - destruct Hpost as [Hacc _]. apply wp_ret. rewrite app_nil_r.
    apply (single_post_quiet [KUpload]); try done. rewrite Hacc. cbn. lia.
  - destruct e; try done.
    apply (single_post_quiet [KUpload]); try done. rewrite Hpost. cbn. lia.
Qed.

(** X13: a single-file run lets no [Exception] through; it returns [True]
    exactly when the commit call returned an id that is not empty; a commit
    is attempted only after the store accepted the file and is the last call
    of the run; at most one object is uploaded. *)
Theorem single_result_commit_policy config result_file model_name t :
  ∃ d, (upload_single_result w config result_file model_name t).2 = t ++ d
       ∧ let r := (upload_single_result w config result_file model_name t).1 in
         only_interrupt r
         ∧ (r = Ret true ↔ existsb commit_obtained d = true)
         ∧ (∀ d1 e d2, d = d1 ++ e :: d2 → is_commit e = true →
                       accepted_paths d1 ≠ [] ∧ d2 = [])
         ∧ (length (accepted_paths d) ≤ 1)%nat.
Proof.
  destruct (upload_single_result_post config result_file model_name t)
    as (d & Hd & H).
  by exists d.
Qed.

End SingleResult.

(** A configuration without the secret key. *)
Lemma store_needs_credentials_witness :
  let config :=
    {| config_lakefs :=
         Some {| lakefs_endpoint := Some (lit "http://lakefs");
                 lakefs_repository := Some (lit "bench");
                 lakefs_branch_prefix := None;
                 lakefs_access_key := Some (lit "key");
                 lakefs_secret_key := None |};
       config_mlflow := None; config_default_tags := None;
       config_results_dir := None |} in
  upload_benchmark_results nominal_world config None None [] = (Ret false, []).
Proof.
  cbv zeta.
  apply (store_needs_credentials nominal_world
           {| config_lakefs :=
                Some {| lakefs_endpoint := Some (lit "http://lakefs");
                        lakefs_repository := Some (lit "bench");
                        lakefs_branch_prefix := None;
                        lakefs_access_key := Some (lit "key");
                        lakefs_secret_key := None |};
              config_mlflow := None; config_default_tags := None;
              config_results_dir := None |}).
  reflexivity.
Defined.

(** ** The batch run, step by step *)

Section BatchHead.

Variable w : World.
Implicit Types (t d : trace) (config : Config).

Lemma check_connection_run self t :
  check_connection w self t
  = (match list_repositories w t with
     | Returns _ => Ret true
     | Throws _ => Ret false
     | Interrupted => Raise KeyboardInterrupt
     end, t ++ [EvListRepositories (list_repositories w t)]).
Proof.
  unfold check_connection, try_except, bind, ext.
  by destruct (list_repositories w t).
Qed.

(** The run up to the clock, case by case. *)
Lemma upload_benchmark_results_head config results_dir logger t
    (Q : res bool → trace → Prop) :
  let dir := resolved_results_dir config results_dir in
  let pattern := path_join dir (lit "*.jsonl") in
  (uploader_configured config = false → Q (Ret false) []) →
  (∀ kind, Q (Ret false) [EvListRepositories (Throws kind)]) →
  Q (Raise KeyboardInterrupt) [EvListRepositories Interrupted] →
  Q (Ret false) [EvListRepositories (Returns tt); EvPathExists dir false] →
  Q (Ret false) [EvListRepositories (Returns tt); EvPathExists dir true;
                 EvGlob pattern []] →
  (∀ u files ts,
     try_uploader config t = (Ret (Some u), t) → files ≠ [] →
     wp (publish_result_files w config dir logger u files ts)
        (λ r d, Q r (batch_head dir files ts ++ d))
        (t ++ batch_head dir files ts)) →
  wp (upload_benchmark_results w config results_dir logger) Q t.
Proof.
  intros dir pattern H0 H1 H1' H2 H3 H4.
  unfold upload_benchmark_results. fold (resolved_results_dir config results_dir).
  fold dir. fold pattern.
  apply wp_bind. exists []. rewrite app_nil_r.
  pose proof (try_uploader_run config t) as Hu.
  destruct (uploader_configured config) eqn:Hc.
  2:{ rewrite Hu. split; [done|]. cbn [fst]. apply wp_ret. by apply H0. }
  destruct (config_lakefs config) as [c|] eqn:Hl;
    [|by unfold uploader_configured in Hc; rewrite Hl in Hc].
  rewrite Hu. split; [done|]. cbn [fst].
  set (u := {| endpoint := _ |}) in *.
  apply wp_bind. unfold wp at 1. rewrite check_connection_run.
  eexists; (split; [reflexivity|]). cbn [fst].
  destruct (list_repositories w t) as [[]|kind|] eqn:E1; cbn [negb];
    [|apply wp_ret, H1|apply H1'].
  apply wp_bind, wp_query.
  destruct (os_path_exists w _ dir) eqn:E2; cbn [negb]; [|apply wp_ret, H2].
  apply wp_bind, wp_query.
  destruct (glob_glob w _ pattern) as [|f files] eqn:E3; cbn [negb nonempty];
    [apply wp_ret, H3|].
  apply wp_bind, wp_query.
  set (ts := now_strftime w _ _).
  specialize (H4 u (f :: files) ts Hu).
  unfold batch_head in H4. fold pattern in H4.
  eapply wp_mono.
  - unfold publish_result_files, publish_on_branch in H4.
    replace (((((t ++ [EvListRepositories (Returns ())]) ++ [EvPathExists dir true]) ++
               [EvGlob pattern (f :: files)]) ++ [EvNow (lit "%Y%m%d_%H%M%S") ts]))
      with (t ++ [EvListRepositories (Returns ()); EvPathExists dir true;
                  EvGlob pattern (f :: files); EvNow (lit "%Y%m%d_%H%M%S") ts])
      by (by rewrite <- !app_assoc).
    by apply H4.
  - intros r d. cbn [app]. done.
Qed.

End BatchHead.

Ltac inv_elem H :=
  repeat (apply elem_of_cons in H as [H|H]; [try discriminate H|]);
  try (by apply elem_of_nil in H).

Section BatchSteps.

Variable w : World.
Implicit Types (t d : trace) (config : Config).

Lemma create_branch_run self repo name source t :
  create_branch w self repo name source t
  = (match sdk_create_branch w t repo name source with
     | Returns _ => Ret true
     | Throws _ => Ret false
     | Interrupted => Raise KeyboardInterrupt
     end, t ++ [EvCreateBranch repo name source
                  (sdk_create_branch w t repo name source)]).
Proof.
  unfold create_branch, try_except, bind, ext.
  by destruct (sdk_create_branch w t repo name source).
Qed.

Lemma path_join_truthy a b : b ≠ [] → str_truthy (Some (path_join a b)) = true.
Proof.
  intros Hb. unfold path_join. destruct (last a) as [c|] eqn:E.
  - apply last_Some in E as [a' ->].
    destruct (c =? 47)%N; by destruct a'.
  - by destruct b.
Qed.

(** The manifest is logged as one artifact. *)
Lemma manifest_artifact_events dir l :
  emits (λ e, publish_event e = true)
        (log_artifacts w l (lit "metadata")
                       (Some (path_join dir (lit "temp_metadata.json")))).
Proof.
  unfold log_artifacts. rewrite path_join_truthy by done. emit.
Qed.

Lemma publish_on_branch_events config dir logger u files ts :
  emits (λ e, publish_event e = true)
        (publish_on_branch w config dir logger u files ts).
Proof.
  pose proof (manifest_artifact_events dir) as Hartifact.
  unfold publish_on_branch, upload_loop, upload_one, publish_metadata,
    commit_and_report, create_metadata_file, log_benchmark_results,
    _parse_benchmark_results, start_run, get_system_info, upload_file,
    config_item, commit_changes, final_metrics, truediv, to_float, py_len,
    OverflowError, ZeroDivisionError, log_params, log_metrics.
  repeat first [ apply Hartifact | emit_step ].
Qed.

(** The run from the branch on: it begins with the call that creates the
    branch, and every later call is one of the publishing phase. *)
Lemma publish_result_files_events config dir logger u files ts t :
  wp (publish_result_files w config dir logger u files ts)
     (λ r d, ∃ o d',
        d = EvCreateBranch (repository u) (branch_prefix u ++ lit "_" ++ ts)
                           (lit "main") o :: d'
        ∧ Forall (λ e, publish_event e = true) d'
        ∧ (o = Interrupted → d' = [] ∧ r = Raise KeyboardInterrupt)) t.
Proof.
  unfold publish_result_files. apply wp_bind. unfold wp at 1.
  rewrite create_branch_run. eexists; (split; [reflexivity|]). cbn [fst].
  destruct (sdk_create_branch w t _ _ _) as [[]|kind|].
  - eapply wp_mono; [apply publish_on_branch_events|]. intros r d Hd.
    by eexists _, d.
  - eapply wp_mono; [apply publish_on_branch_events|]. intros r d Hd.
    by eexists _, d.
  - by eexists _, [].
Qed.

(** X14: a batch run searches [*.jsonl] in the directory given as
    argument, else in [benchmark.results_dir] of the configuration, else in
    [data/spec_bench/model_answer], and searches once; when the search finds
    nothing the run has only probed (store listing, directory, search) and
    does not succeed; when it finds files the run reads the clock and goes
    on with the creation of the branch. *)
Theorem batch_needs_result_files config results_dir logger t :
  let dir := resolved_results_dir config results_dir in
  ∃ d, (upload_benchmark_results w config results_dir logger t).2 = t ++ d
       ∧ let r := (upload_benchmark_results w config results_dir logger t).1 in
         (∀ pattern files, EvGlob pattern files ∈ d →
            pattern = path_join dir (lit "*.jsonl"))
         ∧ ((∀ pattern files, EvGlob pattern files ∈ d → files = []) →
              Forall (λ e, allowed [KProbe] e = true) d ∧ r ≠ Ret true
              ∧ (length d ≤ 3)%nat)
         ∧ (∀ pattern files, EvGlob pattern files ∈ d → files ≠ [] →
              ∃ ts repo branch o d',
                d = batch_head dir files ts
                    ++ EvCreateBranch repo branch (lit "main") o :: d').
Proof.
  intros dir.
  set (Q := λ (r : res bool) (d : trace),
         (∀ pattern files, EvGlob pattern files ∈ d →
            pattern = path_join dir (lit "*.jsonl"))
         ∧ ((∀ pattern files, EvGlob pattern files ∈ d → files = []) →
              Forall (λ e, allowed [KProbe] e = true) d ∧ r ≠ Ret true
              ∧ (length d ≤ 3)%nat)
         ∧ (∀ pattern files, EvGlob pattern files ∈ d → files ≠ [] →
              ∃ ts repo branch o d',
                d = batch_head dir files ts
                    ++ EvCreateBranch repo branch (lit "main") o :: d')).
  enough (wp (upload_benchmark_results w config results_dir logger) Q t)
    as (d & Hd & H) by (by exists d).
  apply upload_benchmark_results_head; fold dir; unfold Q.
  - intros _. split_and!; [by intros ?? ?%elem_of_nil| |by intros ?? ?%elem_of_nil].
    intros _. split_and!; [constructor|done|cbn; lia].
  - intros kind. split_and!.
    + intros pattern files H. inv_elem H.
    + intros _. split_and!; [by repeat constructor|done|cbn; lia].
    + intros pattern files H. inv_elem H.
  - split_and!.
    + intros pattern files H. inv_elem H.
    + intros _. split_and!; [by repeat constructor|done|cbn; lia].
    + intros pattern files H. inv_elem H.
  - split_and!.
    + intros pattern files H. inv_elem H.
    + intros _. split_and!; [by repeat constructor|done|cbn; lia].
    + intros pattern files H. inv_elem H.
  - split_and!.
    + intros pattern files H. inv_elem H. by injection H as -> _.
    + intros _. split_and!; [by repeat constructor|done|cbn; lia].
    + intros pattern files H. inv_elem H. by injection H as _ ->.
  - intros u files ts _ Hfiles.
    eapply wp_mono; [apply publish_result_files_events|].
    intros r d (o & d' & -> & Hd' & _).
    assert (∀ pattern fs, EvGlob pattern fs ∈ batch_head dir files ts
                                   ++ EvCreateBranch (repository u)
                                        (branch_prefix u ++ lit "_" ++ ts)
                                        (lit "main") o :: d' →
              pattern = path_join dir (lit "*.jsonl") ∧ fs = files) as Hglob.
    { intros pattern fs [H|H]%elem_of_app.
      - unfold batch_head in H. inv_elem H. by injection H as -> ->.
      - inv_elem H. rewrite Forall_forall in Hd'. by apply Hd' in H. }
    split_and!.
    + intros pattern fs H. by apply Hglob in H as [-> _].
    + intros Hnone. destruct (Hnone (path_join dir (lit "*.jsonl")) files); [|done].
      apply elem_of_app. left. unfold batch_head. by repeat constructor.
    + intros pattern fs H _. apply Hglob in H as [-> ->].
      by eexists ts, _, _, o, d'.
Qed.

End BatchSteps.

(** ** One repository, one branch *)

Ltac emit_by tac :=
  repeat first
    [ apply emits_ret
    | apply emits_raise
    | apply emits_bind; [|intros ?]
    | apply emits_try; [|intros ?]
    | apply emits_ext; intros ?; tac
    | apply emits_query; intros ?; tac
    | apply emits_foldM; intros ? ?
    | apply emits_forM_; apply Forall_forall; intros ? _
    | apply emits_when
    | progress cbv zeta
    | match goal with
      | |- emits _ (match ?x with _ => _ end) => destruct x
      end ].

Section OneBranch.

Variable w : World.
Implicit Types (t d : trace) (config : Config) (u : LakeFSUploader).

Lemma init_try_uploader config t u :
  (LakeFSUploader_init config t).1 = Ret u →
  try_uploader config t = (Ret (Some u), t).
Proof.
  rewrite try_uploader_run, LakeFSUploader_init_run. cbn [fst].
  destruct (uploader_configured config); [|done].
  destruct (config_lakefs config); [|done]. by intros [= <-].
Qed.

Lemma manifest_name_slash_free : 47%N ∉ lit "experiment_metadata.json".
Proof. intros H. inv_elem H. Qed.

Lemma upload_file_addressed u branch ts lp name :
  47%N ∉ name →
  emits (addressed (repository u) branch ts)
        (upload_file w u (repository u) branch lp
                     (lit "results/" ++ ts ++ lit "/" ++ name)).
Proof.
  intros Hname. unfold upload_file.
  emit_by ltac:(first [exact I | by (split_and!; [done|done|by exists name])]).
Qed.

Lemma tracker_addressed repo branch ts l name tags params file bench path lp :
  emits (addressed repo branch ts) (start_run w l name tags)
  ∧ emits (addressed repo branch ts) (log_params w l params)
  ∧ emits (addressed repo branch ts) (log_benchmark_results w l file bench)
  ∧ emits (addressed repo branch ts) (log_artifacts w l path lp).
Proof.
  split_and!.
  - unfold start_run. emit_by ltac:(exact I).
  - unfold log_params. emit_by ltac:(exact I).
  - unfold log_benchmark_results, _parse_benchmark_results, log_metrics.
    emit_by ltac:(exact I).
  - unfold log_artifacts. emit_by ltac:(exact I).
Qed.

Lemma publish_result_files_addressed config dir logger u files ts :
  emits (addressed (repository u) (branch_prefix u ++ lit "_" ++ ts) ts)
        (publish_result_files w config dir logger u files ts).
Proof.
  set (P := addressed (repository u) (branch_prefix u ++ lit "_" ++ ts) ts).
  assert (∀ lp name, 47%N ∉ name →
            emits P (upload_file w u (repository u) (branch_prefix u ++ lit "_" ++ ts)
                       lp (lit "results/" ++ ts ++ lit "/" ++ name))) as Hup.
  { intros. by apply upload_file_addressed. }
  assert (∀ l name tags, emits P (start_run w l name tags)) as H1.
  { intros. eapply (tracker_addressed _ _ _ _ _ _ [] [] [] [] None). }
  assert (∀ l params, emits P (log_params w l params)) as H2.
  { intros. eapply (tracker_addressed _ _ _ _ [] [] _ [] [] [] None). }
  assert (∀ l file bench, emits P (log_benchmark_results w l file bench)) as H3.
  { intros. eapply (tracker_addressed _ _ _ _ [] [] [] _ _ [] None). }
  assert (∀ l path lp, emits P (log_artifacts w l path lp)) as H4.
  { intros. eapply (tracker_addressed _ _ _ _ [] [] [] [] []). }
  unfold publish_result_files, publish_on_branch, upload_loop, upload_one,
    publish_metadata, commit_and_report, create_metadata_file, create_branch,
    get_system_info, config_item, commit_changes, final_metrics, truediv, to_float,
    py_len, OverflowError, ZeroDivisionError, log_metrics.
  repeat first
    [ apply H1 | apply H2 | apply H3 | apply H4
    | apply Hup; apply basename_no_slash
    | apply (Hup _ (lit "experiment_metadata.json")); apply manifest_name_slash_free
    | apply emits_ret
    | apply emits_raise
    | apply emits_bind; [|intros ?]
    | apply emits_try; [|intros ?]
    | apply emits_ext; intros ?; first [exact I | done]
    | apply emits_query; intros ?; exact I
    | apply emits_foldM; intros ? ?
    | apply emits_forM_; apply Forall_forall; intros ? _
    | apply emits_when
    | progress cbv zeta
    | match goal with
      | |- emits _ (match ?x with _ => _ end) => destruct x
      end ].
Qed.

(** X15: every call of a batch run that names a repository or a branch
    names the repository of the configuration and one branch,
    [<branch_prefix>_<timestamp>] for the time the run read from the clock;
    the branch is created from [main]; every object goes to
    [results/<timestamp>/<name>] with a [name] that has no ['/']. *)
Theorem batch_run_uses_one_branch config results_dir logger t :
  ∃ d, (upload_benchmark_results w config results_dir logger t).2 = t ++ d
       ∧ ∀ u, (LakeFSUploader_init config t).1 = Ret u →
           ∃ ts, Forall (addressed (repository u)
                                   (branch_prefix u ++ lit "_" ++ ts) ts) d.
Proof.
  set (Q := λ (r : res bool) (d : trace),
         ∀ u, (LakeFSUploader_init config t).1 = Ret u →
           ∃ ts, Forall (addressed (repository u)
                                   (branch_prefix u ++ lit "_" ++ ts) ts) d).
  enough (wp (upload_benchmark_results w config results_dir logger) Q t)
    as (d & Hd & H) by (by exists d).
  apply upload_benchmark_results_head; unfold Q.
  - intros _ u _. by exists [].
  - intros kind u _. exists []. by repeat constructor.
  - intros u _. exists []. by repeat constructor.
  - intros u _. exists []. by repeat constructor.
  - intros u _. exists []. by repeat constructor.
  - intros u' files ts Hu' _.
    eapply wp_mono; [apply publish_result_files_addressed|].
    intros r d Hd u Hu. apply init_try_uploader in Hu.
    rewrite Hu in Hu'. injection Hu' as ->.
    exists ts. apply Forall_app. split; [|done].
    unfold batch_head. by repeat constructor.
Qed.

(** X16: every call of a single-file run that names a repository or a
    branch names the repository of the configuration and one branch,
    [<branch_prefix>_<sanitized model name>_<date>] when a model name is
    given and [<branch_prefix>_single_<date>] otherwise, created from
    [main]; the object goes to [results/<date>/<file name>], the file name
    being the last component of the path of the result file. *)
Theorem single_run_uses_one_branch config result_file model_name t :
  ∃ d, (upload_single_result w config result_file model_name t).2 = t ++ d
       ∧ ∀ u, (LakeFSUploader_init config t).1 = Ret u →
           ∃ ts, Forall (addressed (repository u) (single_branch u model_name ts) ts) d
                 ∧ Forall (uploads_to (lit "results/" ++ ts ++ lit "/"
                                       ++ basename result_file)) d.
Proof.
  set (Q := λ (r : res bool) (d : trace),
         ∀ u, (LakeFSUploader_init config t).1 = Ret u →
           ∃ ts, Forall (addressed (repository u) (single_branch u model_name ts) ts) d
                 ∧ Forall (uploads_to (lit "results/" ++ ts ++ lit "/"
                                       ++ basename result_file)) d).
  enough (wp (upload_single_result w config result_file model_name) Q t)
    as (d & Hd & H) by (by exists d).
  unfold upload_single_result.
  apply wp_bind, wp_query.
  destruct (os_path_exists w t result_file); cbn [negb].
  2:{ apply wp_ret. intros u _. exists []. by repeat constructor. }
  apply wp_bind. exists []. rewrite try_uploader_run, app_nil_r. split; [done|].
  cbn [fst].
  destruct (if uploader_configured config then _ else None) as [u'|] eqn:Hu'.
  2:{ apply wp_ret. intros u _. exists []. by repeat constructor. }
  assert (∀ u, (LakeFSUploader_init config t).1 = Ret u → u = u') as Hsame.
  { intros u Hu%init_try_uploader. rewrite try_uploader_run, Hu' in Hu.
    by injection Hu as ->. }
  apply wp_bind. unfold wp at 1. rewrite check_connection_run.
  eexists; (split; [reflexivity|]). cbn [fst].
  destruct (list_repositories w _) as [[]|kind|]; cbn [negb].
  2:{ apply wp_ret. intros u _. exists []. by repeat constructor. }
  2:{ intros u _. exists []. by repeat constructor. }
  apply wp_bind, wp_query. set (ts := now_strftime w _ _). cbv zeta.
  fold (single_branch u' model_name ts).
  assert (emits (addressed (repository u') (single_branch u' model_name ts) ts)
            (create_branch w u' (repository u') (single_branch u' model_name ts)
               (lit "main");;
             let! uploaded :=
               upload_file w u' (repository u') (single_branch u' model_name ts)
                 result_file (lit "results/" ++ ts ++ lit "/" ++ basename result_file) in
             if uploaded
             then
               let! commit_id :=
                 commit_changes w u' (repository u') (single_branch u' model_name ts)
                   (lit "Single result upload: " ++ basename result_file ++ newline
                    ++ lit "Timestamp: " ++ ts
                    ++ (if str_truthy model_name
                        then newline ++ lit "Model: " ++ default [] model_name
                        else [])) in
               if str_truthy commit_id then ret true else ret false
             else ret false)) as Hrest.
  { apply emits_bind; [unfold create_branch; emit_by ltac:(first [exact I | done])|].
    intros _.
    apply emits_bind; [apply upload_file_addressed, basename_no_slash|].
    intros []; [|apply emits_ret].
    apply emits_bind; [unfold commit_changes; emit_by ltac:(first [exact I | done])|].
    intros id. destruct (str_truthy id); apply emits_ret. }
  eapply wp_mono.
  { apply wp_and; [apply Hrest|].
    apply (emits_impl (λ e, uploads_to (lit "results/" ++ ts ++ lit "/"
                                        ++ basename result_file) e)); [|done].
    unfold create_branch, upload_file, commit_changes.
    emit_by ltac:(first [exact I | reflexivity]). }
  intros r d [Hd Hd'] u Hu. rewrite (Hsame u Hu). exists ts.
  split; repeat (apply Forall_cons; split; [done|]); done.
Qed.

End OneBranch.

(** ** The upload loop and the manifest *)

Section Loop.

Variable w : World.
Implicit Types (t d : trace) (config : Config) (u : LakeFSUploader).

Lemma attempted_app d1 d2 : attempted (d1 ++ d2) = attempted d1 ++ attempted d2.
Proof. apply omap_app. Qed.

Lemma upload_outcomes_app d1 d2 :
  upload_outcomes (d1 ++ d2) = upload_outcomes d1 ++ upload_outcomes d2.
Proof. apply omap_app. Qed.

Lemma no_attempted ks d :
  existsb (ekind_eqb KUpload) ks = false → Forall (λ e, allowed ks e = true) d →
  attempted d = [].
Proof.
  intros Hks. induction 1 as [|e d He _ IH]; [done|].
  unfold attempted in *. cbn. rewrite IH.
  destruct e; try done. unfold allowed in He. cbn in He. congruence.
Qed.

Lemma no_outcomes ks d :
  existsb (ekind_eqb KUpload) ks = false → Forall (λ e, allowed ks e = true) d →
  upload_outcomes d = [].
Proof.
  intros Hks. induction 1 as [|e d He _ IH]; [done|].
  unfold upload_outcomes in *. cbn [omap list_omap]. rewrite IH.
  destruct e; try done; unfold allowed in He; cbn in He; congruence.
Qed.

(** Calls that are no uploads, before or after, change nothing to the
    list of failed uploads. *)
Lemma failed_uploads_behind ks p d :
  existsb (ekind_eqb KUpload) ks = false → Forall (λ e, allowed ks e = true) p →
  failed_uploads (p ++ d) = failed_uploads d.
Proof.
  intros Hks Hp. unfold failed_uploads.
  by rewrite attempted_app, upload_outcomes_app, (no_attempted ks p),
    (no_outcomes ks p).
Qed.

Lemma failed_uploads_before ks d q :
  existsb (ekind_eqb KUpload) ks = false → Forall (λ e, allowed ks e = true) q →
  failed_uploads (d ++ q) = failed_uploads d.
Proof.
  intros Hks Hq. unfold failed_uploads.
  by rewrite attempted_app, upload_outcomes_app, (no_attempted ks q),
    (no_outcomes ks q), !app_nil_r.
Qed.

(** One attempt: the file is read, and the result of [upload_file] is the
    outcome read off the trace. *)
Lemma upload_file_attempts self repo branch lp rp t :
  wp (upload_file w self repo branch lp rp)
     (λ r d, attempted d = [lp] ∧ not_exit r
             ∧ ∀ b, r = Ret b → upload_outcomes d = [b]) t.
Proof.
  unfold wp, upload_file, try_except, bind, ext.
  destruct (read_bytes w t lp) as [[]|k|]; cbn.
  - destruct (sdk_upload_object w _ repo branch rp) as [[]|k|]; cbn;
      rewrite <- app_assoc; eexists; (split; [reflexivity|]);
      (split_and!; [done|done|]); by intros b [= <-].
  - eexists; (split; [reflexivity|]). split_and!; [done|done|]. by intros b [= <-].
  - eexists; (split; [reflexivity|]). by split_and!.
Qed.

Lemma select_snoc b files flags x f :
  length flags = length files →
  select b (files ++ [x]) (flags ++ [f])
  = select b files flags ++ (if Bool.eqb f b then [x] else []).
Proof.
  intros Hlen. unfold select.
  rewrite zip_with_app by done. rewrite List.filter_app, fmap_app. cbn.
  by destruct (Bool.eqb f b).
Qed.

(** The two lists the loop returns, from the outcomes of its attempts. *)
Lemma upload_loop_outcomes u branch ts logger files t :
  wp (upload_loop w u branch ts logger files)
     (λ r d,
        ∀ up fl, r = Ret (up, fl) →
          attempted d = files
          ∧ length (upload_outcomes d) = length files
          ∧ up = (λ f, lit "results/" ++ ts ++ lit "/" ++ basename f)
                   <$> select true files (upload_outcomes d)
          ∧ fl = select false files (upload_outcomes d)) t.
Proof.
  set (remote := λ f, lit "results/" ++ ts ++ lit "/" ++ basename f).
  unfold upload_loop.
  apply (wp_foldM
           (λ done acc d,
              attempted d = done
              ∧ length (upload_outcomes d) = length done
              ∧ acc.1 = remote <$> select true done (upload_outcomes d)
              ∧ acc.2 = select false done (upload_outcomes d))).
  - by split_and!.
  - intros done x acc d (Hatt & Hlen & Hup & Hfl).
    unfold upload_one. cbv zeta. apply wp_bind.
    eapply wp_mono; [apply upload_file_attempts|].
    intros [[]|e] d1 (Hd1 & _ & Hout); [| |by intros up fl [=]].
    + specialize (Hout true eq_refl).
      apply wp_bind. eapply wp_mono.
      { assert (confined [KProbe; KLog]
                  (match logger with
                   | Some l =>
                       log_benchmark_results w l x
                         (str_replace (lit "-") (lit "_")
                            (str_replace (lit ".jsonl") [] (basename x)))
                   | None => ret ()
                   end)) as Hc by (destruct logger; confine).
        apply Hc. }
      intros [[]|e] d2 [Hd2 _]; [|by intros up fl [=]].
      apply wp_ret.
      rewrite app_nil_r, !attempted_app, !upload_outcomes_app, Hatt, Hd1, Hout.
      rewrite (no_attempted [KProbe; KLog] d2), (no_outcomes [KProbe; KLog] d2) by done.
      rewrite !app_nil_r, !length_app, !select_snoc by done.
      cbn [fst snd Bool.eqb length].
      rewrite Hlen, fmap_app, app_nil_r, Hup, Hfl. by split_and!.
    + specialize (Hout false eq_refl).
      apply wp_ret.
      rewrite app_nil_r, !attempted_app, !upload_outcomes_app, Hatt, Hd1, Hout.
      rewrite !length_app, !select_snoc by done. cbn [fst snd Bool.eqb length].
      rewrite Hlen, app_nil_r, Hup, Hfl. by split_and!.
  - intros [up fl] d (Hatt & Hlen & Hup & Hfl) up' fl' [= <- <-]. by split_and!.
Qed.

(** X20: when the upload loop ends, every result file has been tried once,
    in the order of [result_files], and stands in exactly one of the two
    lists according to the outcome of its attempt: [uploaded_files] holds
    [results/<timestamp>/<file name>] for the files the store accepted,
    which are the accepted paths of the trace, and [failed_files] the local
    paths of the files whose reading or uploading raised, both in that
    order. *)
Theorem upload_loop_partitions_files u branch ts logger files t :
  ∃ d, (upload_loop w u branch ts logger files t).2 = t ++ d
       ∧ ∀ uploaded_files failed_files,
           (upload_loop w u branch ts logger files t).1
           = Ret (uploaded_files, failed_files) →
           attempted d = files
           ∧ length (upload_outcomes d) = length files
           ∧ uploaded_files
             = (λ f, lit "results/" ++ ts ++ lit "/" ++ basename f)
                 <$> select true files (upload_outcomes d)
           ∧ uploaded_files = accepted_paths d
           ∧ failed_files = select false files (upload_outcomes d)
           ∧ failed_files = failed_uploads d.
Proof.
  destruct (wp_and _ _ _ _ (upload_loop_outcomes u branch ts logger files t)
              (upload_loop_spec w u branch ts logger files t))
    as (d & Hd & Hout & _ & Hspec).
  exists d. split; [done|]. intros up fl E.
  destruct (Hout up fl E) as (Hatt & Hlen & Hup & Hfl).
  rewrite E in Hspec. cbn [fst snd] in Hspec. destruct Hspec as (Hacc & _).
  unfold failed_uploads. rewrite Hatt. by split_and!.
Qed.

(** *** Sizes *)

Lemma sum_snoc (l : list N) (n : N) :
  foldr N.add 0%N (l ++ [n]) = (foldr N.add 0 l + n)%N.
Proof. induction l as [|x l IH]; cbn; lia. Qed.

(** X21: the manifest is built with one call for the system information
    and then, for each uploaded path in order, the question whether
    [results_dir/<name>] exists, [<name>] being the last component of the
    path, followed by the question for its size exactly when it exists;
    [total_size_bytes] is the sum of the sizes obtained, a file that does
    not exist counting for nothing. *)
Theorem manifest_adds_up_sizes dir uploaded_files config t :
  ∃ d, (create_metadata_file w dir uploaded_files config t).2 = t ++ d
       ∧ ∀ md, (create_metadata_file w dir uploaded_files config t).1 = Ret md →
           ∃ info answers,
             length answers = length uploaded_files
             ∧ d = EvSystemInfo (Returns info)
                   :: concat (zip_with size_probe
                                ((λ f, path_join dir (basename f)) <$> uploaded_files)
                                answers)
             ∧ md_total_size_bytes md = foldr N.add 0%N (default 0%N <$> answers).
Proof.
  set (local := λ f, path_join dir (basename f)).
  set (Q := λ (r : res Metadata) (d : trace),
         ∀ md, r = Ret md →
           ∃ info answers,
             length answers = length uploaded_files
             ∧ d = EvSystemInfo (Returns info)
                   :: concat (zip_with size_probe (local <$> uploaded_files) answers)
             ∧ md_total_size_bytes md = foldr N.add 0%N (default 0%N <$> answers)).
  enough (wp (create_metadata_file w dir uploaded_files config) Q t)
    as (d & Hd & H) by (by exists d).
  unfold create_metadata_file.
  apply wp_bind. unfold get_system_info. apply wp_ext.
  destruct (system_info w t) as [info|kind|]; cbn [res_of_outcome]; [|by unfold Q..].
  unfold config_item.
  destruct (config_lakefs config) as [c|]; [|by apply wp_bind, wp_raise].
  apply wp_bind, wp_ret.
  destruct (lakefs_endpoint c) as [ep|]; [|by apply wp_bind, wp_raise].
  apply wp_bind, wp_ret.
  destruct (lakefs_repository c) as [repo|]; [|by apply wp_bind, wp_raise].
  apply wp_bind, wp_ret. cbv zeta.
  apply wp_bind.
  apply (wp_foldM
           (λ done total d,
              ∃ answers,
                length answers = length done
                ∧ d = concat (zip_with size_probe (local <$> done) answers)
                ∧ total = foldr N.add 0%N (default 0%N <$> answers))).
  - by exists [].
  - intros done f total d (answers & Hlen & Hd & Htot).
    rewrite (basename_slash_free (basename f)) by apply basename_no_slash.
    fold (local f).
    assert (∀ a, concat (zip_with size_probe (local <$> done ++ [f]) (answers ++ [a]))
                 = d ++ size_probe (local f) a) as Hstep.
    { intros a. rewrite fmap_app, zip_with_app by (by rewrite length_fmap).
      rewrite concat_app, <- Hd. cbn. by rewrite app_nil_r. }
    apply wp_bind, wp_query.
    destruct (os_path_exists w _ (local f)) eqn:Ex.
    + apply wp_bind, wp_query. apply wp_ret.
      match goal with
      | |- context [EvGetSize (local f) ?n] => exists (answers ++ [Some n])
      end.
      split_and!.
      * rewrite !length_app. cbn. lia.
      * rewrite Hstep. cbn [size_probe]. by rewrite app_nil_r.
      * rewrite fmap_app. cbn [fmap list_fmap default]. rewrite sum_snoc.
        by rewrite Htot.
    + apply wp_ret. exists (answers ++ [None]). split_and!.
      * rewrite !length_app. cbn. lia.
      * rewrite Hstep. cbn [size_probe]. by rewrite app_nil_r.
      * rewrite fmap_app. cbn [fmap list_fmap default]. rewrite sum_snoc.
        rewrite Htot. lia.
  - intros total d (answers & Hlen & Hd & Htot).
    apply wp_ret. rewrite !app_nil_r. cbn [app].
    intros md [= <-]. cbn [md_total_size_bytes]. exists info, answers.
    by rewrite Hd.
Qed.

End Loop.

(** ** The publishing phase in detail *)

Section PublishShape.

Variable w : World.
Implicit Types (t d : trace) (config : Config) (u : LakeFSUploader).

Lemma create_metadata_file_spec dir up config t :
  wp (create_metadata_file w dir up config)
     (λ r d,
        Forall (λ e, allowed [KProbe] e = true) d
        ∧ ∀ md, r = Ret md →
            manifest_of dir up md ∧ ∃ info, EvSystemInfo (Returns info) ∈ d) t.
Proof.
  unfold create_metadata_file.
  apply wp_bind. unfold get_system_info. apply wp_ext.
  destruct (system_info w t) as [info|kind|]; cbn [res_of_outcome];
    [|by split; [repeat constructor|]..].
  unfold config_item.
  destruct (config_lakefs config) as [c|]; [|by apply wp_bind, wp_raise; split; [repeat constructor|]].
  apply wp_bind, wp_ret.
  destruct (lakefs_endpoint c) as [ep|]; [|by apply wp_bind, wp_raise; split; [repeat constructor|]].
  apply wp_bind, wp_ret.
  destruct (lakefs_repository c) as [repo|]; [|by apply wp_bind, wp_raise; split; [repeat constructor|]].
  apply wp_bind, wp_ret. cbv zeta.
  apply wp_bind. eapply wp_mono.
  { assert (confined [KProbe]
              (foldM (λ total_size file_path,
                        let! file_exists :=
                          query (EvPathExists (path_join dir (basename (basename file_path))))
                                (λ t, os_path_exists w t
                                        (path_join dir (basename (basename file_path)))) in
                        if file_exists
                        then let! size :=
                               query (EvGetSize (path_join dir (basename (basename file_path))))
                                     (λ t, os_path_getsize w t
                                             (path_join dir (basename (basename file_path)))) in
                             ret (total_size + size)%N
                        else ret total_size) 0%N up)) as Hc by confine.
    apply Hc. }
  intros [total|e] d [Hd Hr].
  - apply wp_ret. rewrite !app_nil_r. cbn [app]. split.
    + constructor; [done|exact Hd].
    + intros md [= <-]. split; [done|]. exists info. by left.
  - cbn [app]. split; [by constructor|done].
Qed.

Lemma allowed_no_accepted ks d :
  existsb (ekind_eqb KUpload) ks = false → Forall (λ e, allowed ks e = true) d →
  accepted_paths d = [].
Proof. apply no_accepted. Qed.

Lemma publish_metadata_shape config u dir branch ts logger up t :
  wp (publish_metadata w config u dir branch ts logger up)
     (λ r d,
        (up = [] → d = [] ∧ r = Ret [])
        ∧ ∃ dp dw,
            d = dp ++ dw
            ∧ Forall (λ e, allowed [KProbe] e = true) dp
            ∧ (dw = []
               ∨ ∃ md o dw',
                   dw = EvWriteJson (temp_metadata_file dir) md o :: dw'
                   ∧ manifest_of dir up md
                   ∧ Forall (λ e, allowed [KUpload; KLog] e = true
                                  ∨ ∃ o, e = EvRemove (temp_metadata_file dir) o) dw')
            ∧ ∀ up', r = Ret up' →
                up' = up ++ accepted_paths d
                ∧ (up ≠ [] → manifest_done dir dp dw)) t.
Proof.
  unfold publish_metadata. fold (temp_metadata_file dir).
  destruct (nonempty up) eqn:Hup.
  2:{ apply wp_ret. destruct up; [|done]. split; [done|]. exists [], [].
      split_and!; [done|constructor|by left|]. by intros up' [= <-]. }
  assert (up ≠ []) as Hne by (by destruct up).
  apply wp_bind. eapply wp_mono; [apply create_metadata_file_spec|].
  intros [md|e] d1 [Hd1 Hmd].
  2:{ split; [done|]. exists d1, []. rewrite app_nil_r.
      split_and!; [done|done|by left|done]. }
  destruct (Hmd md eq_refl) as [Hof Hinfo].
  pose proof (allowed_no_accepted [KProbe] d1 eq_refl Hd1) as Hacc1.
  cbv zeta. apply wp_bind, wp_ext.
  destruct (write_json w _ _ md) as [[]|kind|]; cbn [res_of_outcome].
  2:{ split; [done|]. eexists d1, [_]. split_and!; [reflexivity|done| |done].
      right. eexists md, _, []. split_and!; [reflexivity|done|constructor]. }
  2:{ split; [done|]. eexists d1, [_]. split_and!; [reflexivity|done| |done].
      right. eexists md, _, []. split_and!; [reflexivity|done|constructor]. }
  apply wp_bind.
  eapply wp_mono;
    [apply (wp_and _ _ _ _ (upload_file_confined w _ _ _ _ _ _)
                   (upload_file_spec w _ _ _ _ _ _))|].
  intros [uploaded|e] d3 [[Hd3 _] Hpost].
  2:{ split; [done|]. eexists d1, (_ :: d3). split_and!; [reflexivity|done| |done].
      right. eexists md, _, d3. split_and!; [reflexivity|done|].
      eapply Forall_impl; [exact Hd3|]. intros x Hx. left. by apply (allowed_sub [KUpload]). }
  apply wp_bind. eapply wp_mono.
  { assert (confined [KLog]
              (match logger with
               | Some l => log_artifacts w l (lit "metadata")
                             (Some (temp_metadata_file dir))
               | None => ret ()
               end)) as Hc by (destruct logger; confine).
    apply Hc. }
  intros [[]|e] d4 [Hd4 _].
  2:{ split; [done|]. eexists d1, (_ :: d3 ++ d4). split_and!; [reflexivity|done| |done].
      right. eexists md, _, (d3 ++ d4). split_and!; [reflexivity|done|].
      apply Forall_app. split.
      - eapply Forall_impl; [exact Hd3|]. intros x Hx. left.
        by apply (allowed_sub [KUpload]).
      - eapply Forall_impl; [exact Hd4|]. intros x Hx. left.
        by apply (allowed_sub [KLog]). }
  pose proof (allowed_no_accepted [KLog] d4 eq_refl Hd4) as Hacc4.
  apply wp_bind, wp_ext.
  set (o := os_remove w _ _).
  assert (Forall (λ e, allowed [KUpload; KLog] e = true
                       ∨ ∃ o, e = EvRemove (temp_metadata_file dir) o)
                 (d3 ++ d4 ++ [EvRemove (temp_metadata_file dir) o])) as Hd345.
  { apply Forall_app. split; [|apply Forall_app; split].
    - eapply Forall_impl; [exact Hd3|]. intros x Hx. left.
      by apply (allowed_sub [KUpload]).
    - eapply Forall_impl; [exact Hd4|]. intros x Hx. left.
      by apply (allowed_sub [KLog]).
    - constructor; [|done]. right. by eexists. }
  destruct o as [[]|kind|] eqn:Erm; cbn [res_of_outcome].
  2,3: split; [done|]; eexists d1, (_ :: d3 ++ d4 ++ [_]);
       (split_and!; [reflexivity|done| |done]);
       right; eexists md, _, _; (split_and!; [reflexivity|done|exact Hd345]).
  apply wp_ret. split; [done|].
  eexists d1, (_ :: d3 ++ d4 ++ [_]).
  split_and!; [by rewrite app_nil_r|done| |].
  - right. eexists md, _, _. split_and!; [reflexivity|done|exact Hd345].
  - intros up' [= <-]. split.
    + rewrite !accepted_paths_app, Hacc1, Hacc4. cbn.
      destruct uploaded; cbn in Hpost; destruct Hpost as [-> _];
        by rewrite ?app_nil_r.
    + intros _. split; [done|]. eexists md, _. split; [reflexivity|].
      rewrite !elem_of_app. right. right. by left.
Qed.

Lemma commit_and_report_shape u branch ts logger files up fl t :
  wp (commit_and_report w u branch ts logger files up fl)
     (λ r d,
        (up = [] → d = [])
        ∧ (d = []
           ∨ ∃ o d',
               d = EvCommit (repository u) branch (commit_message_of ts up fl) o :: d'
               ∧ Forall (λ e, allowed [KLog] e = true) d')) t.
Proof.
  unfold commit_and_report. destruct up as [|p up]; cbn [nonempty].
  { apply wp_ret. split; [done|by left]. }
  cbv zeta. apply wp_bind. unfold wp at 1, commit_changes, try_except, bind, ext.
  destruct (sdk_commit w t _ _ _) as [id|k|] eqn:E; cbn;
    eexists; (split; [reflexivity|]).
  - destruct id as [|c id]; cbn [str_truthy].
    + apply wp_ret. split; [done|]. right. by eexists _, [].
    + apply wp_bind. eapply wp_mono; [apply summary_confined|].
      intros [[]|e] d [Hd Hr].
      * apply wp_ret. split; [done|]. right. eexists _, d. by rewrite app_nil_r.
      * split; [done|]. right. by eexists _, d.
  - apply wp_ret. split; [done|]. right. by eexists _, [].
  - split; [done|]. right. by eexists _, [].
Qed.

Lemma app_nil_inv {A} (l1 l2 : list A) : l1 ++ l2 = [] → l1 = [] ∧ l2 = [].
Proof. by destruct l1, l2. Qed.

Lemma publish_on_branch_shape config dir logger u files ts t :
  wp (publish_on_branch w config dir logger u files ts)
     (λ r d, publish_shape dir (repository u) (branch_prefix u ++ lit "_" ++ ts)
                           ts files d) t.
Proof.
  unfold publish_on_branch. cbv zeta.
  set (branch := branch_prefix u ++ lit "_" ++ ts).
  apply wp_bind. eapply wp_mono.
  { assert (confined [KProbe; KLog]
              (match logger with
               | Some l =>
                   start_run w l (lit "benchmark_" ++ ts)
                     [(lit "experiment_timestamp", ts); (lit "lakefs_branch", branch);
                      (lit "lakefs_repository", repository u);
                      (lit "results_count", str_of_nat (length files))];;
                   let! info := get_system_info w in log_params w l info
               | None => ret ()
               end)) as Hc by (destruct logger; unfold get_system_info; confine).
    apply Hc. }
  intros [[]|e] d0 [Hd0 _].
  2:{ exists d0, [], [], [], []. rewrite !app_nil_r.
      split_and!; [done| |constructor|done|by left|by left].
      eapply Forall_impl; [exact Hd0|]. intros x. by apply allowed_sub. }
  pose proof (allowed_no_accepted [KProbe; KLog] d0 eq_refl Hd0) as Hacc0.
  apply wp_bind. eapply wp_mono;
    [apply (wp_and _ _ _ _ (upload_loop_spec w _ _ _ _ _ _)
                   (upload_loop_outcomes w _ _ _ _ _ _))|].
  intros [[up fl]|e] d1 [[Hd1 Hpost] Hout].
  2:{ exists (d0 ++ d1), [], [], [], []. rewrite !app_nil_r.
      split_and!; [done| |constructor|done|by left|by left].
      apply Forall_app. split; [|done].
      eapply Forall_impl; [exact Hd0|]. intros x. by apply allowed_sub. }
  cbn [fst snd] in *. destruct Hpost as (Hup & Hlen & Hfl).
  assert (Forall (λ e, allowed [KProbe; KUpload; KLog] e = true) (d0 ++ d1)) as Hdl.
  { apply Forall_app. split; [|done].
    eapply Forall_impl; [exact Hd0|]. intros x. by apply allowed_sub. }
  assert (accepted_paths (d0 ++ d1) = up) as Haccl.
  { by rewrite accepted_paths_app, Hacc0, Hup. }
  apply wp_bind. eapply wp_mono; [apply publish_metadata_shape|].
  fold branch.
  intros [up'|e] d2 (Hnil & dp & dw & -> & Hdp & Hdw & Hup').
  2:{ exists (d0 ++ d1), dp, dw, [], fl. rewrite !app_nil_r.
      split_and!; [by rewrite <- !app_assoc|done|done| |by rewrite Haccl|by left].
      rewrite Haccl. intros ->. by destruct (Hnil eq_refl). }
  destruct (Hup' up' eq_refl) as [Hup'' Hdone].
  eapply wp_mono; [apply commit_and_report_shape|].
  intros r d3 [Hnil3 Hd3].
  exists (d0 ++ d1), dp, dw, d3, fl.
  split_and!; [by rewrite <- !app_assoc|done|done| |by rewrite Haccl|].
  - rewrite Haccl. intros ->. destruct (Hnil eq_refl) as [[-> ->]%app_nil_inv _].
    split_and!; [done|done|]. apply Hnil3. by rewrite Hup''.
  - destruct Hd3 as [->|(o & dc' & -> & Hdc')]; [by left|]. right.
    exists o, dc'. split_and!; [|done| | | |].
    + f_equal. f_equal.
      by rewrite Hup'', (accepted_paths_app (d0 ++ d1)), Haccl.
    + apply Hdone. intros ->. destruct (Hnil eq_refl) as [E _].
      rewrite E in Hup''. cbn in Hup''. by specialize (Hnil3 Hup'').
    + intros [_ H]%Forall_app. by apply Hfl.
    + rewrite Haccl. lia.
    + destruct (Hout up fl eq_refl) as (Hatt & _ & _ & ->).
      rewrite (failed_uploads_behind [KProbe; KLog]) by done.
      unfold failed_uploads. by rewrite Hatt.
Qed.

End PublishShape.

Section BatchShape.

Variable w : World.
Implicit Types (t d : trace) (config : Config) (u : LakeFSUploader).

Lemma publish_shape_nil dir repo branch ts files :
  publish_shape dir repo branch ts files [].
Proof.
  exists [], [], [], [], []. split_and!; [done|constructor|constructor|done|by left|by left].
Qed.

Lemma upload_benchmark_results_shape config results_dir logger t :
  wp (upload_benchmark_results w config results_dir logger)
     (λ _ d, batch_shape (resolved_results_dir config results_dir) d) t.
Proof.
  apply upload_benchmark_results_head;
    try (intros; left; by repeat constructor).
  intros u files ts _ _. unfold publish_result_files.
  apply wp_bind. unfold wp at 1. rewrite create_branch_run.
  eexists; (split; [reflexivity|]). cbn [fst].
  destruct (sdk_create_branch w _ _ _ _) as [[]|kind|].
  - eapply wp_mono; [apply publish_on_branch_shape|]. intros r d Hd.
    right. by eexists files, ts, _, _, _, d.
  - eapply wp_mono; [apply publish_on_branch_shape|]. intros r d Hd.
    right. by eexists files, ts, _, _, _, d.
  - right. eexists files, ts, _, _, _, []. split; [done|]. apply publish_shape_nil.
Qed.

(** An event with the property [P] that stands between events without it
    is found at one place only. *)
Lemma split_at (P : event → Prop) (A B X Y : trace) e0 e :
  Forall (λ x, ¬ P x) A → Forall (λ x, ¬ P x) B → P e →
  A ++ e0 :: B = X ++ e :: Y → X = A ∧ e = e0 ∧ Y = B.
Proof.
  intros HA HB He E.
  destruct (split_behind P A (e0 :: B) X Y e HA He E) as (X' & -> & E').
  destruct X' as [|x X']; cbn in E'.
  - injection E' as -> ->. by rewrite app_nil_r.
  - injection E' as -> ->. apply Forall_app in HB as [_ HB].
    by apply Forall_cons in HB as [HB _].
Qed.

Lemma kinds_exclude ks (p : event → bool) K d :
  (∀ e, p e = true → kind e = K) → existsb (ekind_eqb K) ks = false →
  Forall (λ e, allowed ks e = true) d → Forall (λ e, ¬ p e = true) d.
Proof.
  intros Hp Hks Hd. eapply Forall_impl; [exact Hd|]. intros e He.
  by rewrite (excluded_kind ks K p e Hp Hks He).
Qed.

Lemma is_write_json_kind e : is_write_json e = true → kind e = KFile.
Proof. by destruct e. Qed.

Lemma batch_head_probes dir files ts :
  Forall (λ e, allowed [KProbe] e = true) (batch_head dir files ts).
Proof. by repeat constructor. Qed.

(** X17: the manifest a batch run writes lists exactly the objects the
    store has accepted by then, with their number, and names the results
    directory; it is written to [temp_metadata.json] in that directory, and
    only when an object was accepted. *)
Theorem manifest_lists_accepted_uploads config results_dir logger t :
  let dir := resolved_results_dir config results_dir in
  ∃ d, (upload_benchmark_results w config results_dir logger t).2 = t ++ d
       ∧ ∀ d1 path md o d2,
           d = d1 ++ EvWriteJson path md o :: d2 →
           path = path_join dir (lit "temp_metadata.json")
           ∧ md_uploaded_files md = accepted_paths d1
           ∧ md_file_count md = length (accepted_paths d1)
           ∧ md_results_directory md = dir
           ∧ accepted_paths d1 ≠ []
           ∧ Forall (λ e, is_write_json e = false) (d1 ++ d2).
Proof.
  intros dir.
  destruct (upload_benchmark_results_shape config results_dir logger t)
    as (d & Hd & Hshape).
  exists d. split; [done|]. fold dir in Hshape.
  intros d1 path md o d2 E.
  destruct Hshape as [Hprobe|(files & ts & repo & branch & oc & d' & -> & Hshape)].
  { rewrite E in Hprobe. apply Forall_app in Hprobe as [_ Hprobe].
    by apply Forall_cons in Hprobe as [? _]. }
  destruct Hshape as (dl & dp & dw & dc & fl & -> & Hdl & Hdp & Hnone & Hdw & Hdc).
  set (A := batch_head dir files ts
            ++ EvCreateBranch repo branch (lit "main") oc :: dl ++ dp).
  assert (Forall (λ x, ¬ is_write_json x = true) A) as HA.
  { unfold A. apply Forall_app. split.
    - apply (kinds_exclude [KProbe] _ KFile); [apply is_write_json_kind|done|].
      apply batch_head_probes.
    - constructor; [done|]. apply Forall_app. split.
      + by apply (kinds_exclude [KProbe; KUpload; KLog] _ KFile);
          [apply is_write_json_kind|..].
      + by apply (kinds_exclude [KProbe] _ KFile); [apply is_write_json_kind|..]. }
  assert (Forall (λ x, ¬ is_write_json x = true) dc) as HC.
  { destruct Hdc as [->|(o' & dc' & -> & Hdc' & _)]; [constructor|].
    constructor; [done|].
    by apply (kinds_exclude [KLog] _ KFile); [apply is_write_json_kind|..]. }
  assert (accepted_paths A = accepted_paths dl) as HaccA.
  { unfold A. rewrite accepted_paths_app.
    rewrite (no_accepted [KProbe] _ eq_refl (batch_head_probes dir files ts)).
    cbn. rewrite accepted_paths_app.
    by rewrite (no_accepted [KProbe] dp eq_refl Hdp), app_nil_r. }
  destruct Hdw as [->|(md0 & o0 & dw' & -> & Hof & Hdw')].
  { exfalso. cbn [app] in E.
    assert (Forall (λ x, ¬ is_write_json x = true)
              (batch_head dir files ts
               ++ EvCreateBranch repo branch (lit "main") oc :: dl ++ dp ++ dc)) as Hall.
    { apply Forall_app. split.
      - apply (kinds_exclude [KProbe] _ KFile); [apply is_write_json_kind|done|].
        apply batch_head_probes.
      - constructor; [done|]. apply Forall_app. split.
        + by apply (kinds_exclude [KProbe; KUpload; KLog] _ KFile);
            [apply is_write_json_kind|..].
        + apply Forall_app. split; [|done].
          by apply (kinds_exclude [KProbe] _ KFile); [apply is_write_json_kind|..]. }
    rewrite E in Hall. apply Forall_app in Hall as [_ Hall].
    by apply Forall_cons in Hall as [? _]. }
  assert (Forall (λ x, ¬ is_write_json x = true) (dw' ++ dc)) as HB.
  { apply Forall_app. split; [|done].
    eapply Forall_impl; [exact Hdw'|]. intros x [Hx|[ox ->]]; [|done].
    by rewrite (excluded_kind [KUpload; KLog] KFile is_write_json x
                  is_write_json_kind eq_refl Hx). }
  destruct (split_at (λ x, is_write_json x = true) A (dw' ++ dc) d1 d2
              (EvWriteJson (temp_metadata_file dir) md0 o0)
              (EvWriteJson path md o) HA HB eq_refl) as (-> & [= -> -> ->] & ->).
  { rewrite <- E. unfold A. rewrite <- !app_assoc. cbn [app].
    by rewrite <- !app_assoc. }
  destruct Hof as (Hfiles & Hcount & Hdir). rewrite HaccA.
  split_and!; [done|done|done|done| |].
  - intros Hacc. by destruct (Hnone Hacc) as (_ & [=] & _).
  - apply Forall_app. split.
    + eapply Forall_impl; [exact HA|]. intros x. apply not_true_is_false.
    + eapply Forall_impl; [exact HB|]. intros x. apply not_true_is_false.
Qed.

(** Where the commit of a batch run stands. *)
Lemma batch_commit_place dir d d1 e d2 :
  batch_shape dir d → d = d1 ++ e :: d2 → is_commit e = true →
  ∃ files ts repo branch oc dl dp dw fl o,
    d1 = batch_head dir files ts
         ++ EvCreateBranch repo branch (lit "main") oc :: dl ++ dp ++ dw
    ∧ e = EvCommit repo branch
            (commit_message_of ts (accepted_paths (dl ++ dp ++ dw)) fl) o
    ∧ accepted_paths d1 = accepted_paths (dl ++ dp ++ dw)
    ∧ Forall (λ e, allowed [KLog] e = true) d2
    ∧ manifest_done dir dp dw
    ∧ (Forall (λ e, upload_failed e = false) dl → fl = [])
    ∧ Forall (λ e, allowed [KProbe; KUpload; KLog] e = true) dl
    ∧ Forall (λ e, allowed [KProbe] e = true) dp
    ∧ fl = failed_uploads dl.
Proof.
  intros Hshape E He.
  destruct Hshape as [Hprobe|(files & ts & repo & branch & oc & d' & -> & Hshape)].
  { rewrite E in Hprobe. apply Forall_app in Hprobe as [_ Hprobe].
    apply Forall_cons in Hprobe as [Hk _].
    by rewrite (excluded_kind [KProbe] KCommit is_commit e is_commit_kind eq_refl Hk)
      in He. }
  destruct Hshape as (dl & dp & dw & dc & fl & -> & Hdl & Hdp & Hnone & Hdw & Hdc).
  set (A := batch_head dir files ts
            ++ EvCreateBranch repo branch (lit "main") oc :: dl ++ dp ++ dw).
  assert (Forall (λ x, ¬ is_commit x = true) A) as HA.
  { unfold A. apply Forall_app. split.
    - apply (kinds_exclude [KProbe] _ KCommit); [apply is_commit_kind|done|].
      apply batch_head_probes.
    - constructor; [done|]. apply Forall_app. split.
      + by apply (kinds_exclude [KProbe; KUpload; KLog] _ KCommit);
          [apply is_commit_kind|..].
      + apply Forall_app. split.
        * by apply (kinds_exclude [KProbe] _ KCommit); [apply is_commit_kind|..].
        * destruct Hdw as [->|(md0 & o0 & dw' & -> & _ & Hdw')]; [constructor|].
          constructor; [done|].
          eapply Forall_impl; [exact Hdw'|]. intros x [Hx|[ox ->]]; [|done].
          by rewrite (excluded_kind [KUpload; KLog] KCommit is_commit x
                        is_commit_kind eq_refl Hx). }
  destruct Hdc as [->|(o & dc' & -> & Hdc' & Hdone & Hfl & _ & Hfailed)].
  { exfalso. rewrite !app_nil_r in E. fold A in E. rewrite E in HA.
    apply Forall_app in HA as [_ HA]. by apply Forall_cons in HA as [? _]. }
  assert (Forall (λ x, ¬ is_commit x = true) dc') as HB.
  { by apply (kinds_exclude [KLog] _ KCommit); [apply is_commit_kind|..]. }
  destruct (split_at (λ x, is_commit x = true) A dc' d1 d2
              (EvCommit repo branch
                 (commit_message_of ts (accepted_paths (dl ++ dp ++ dw)) fl) o)
              e HA HB He) as (-> & -> & ->).
  { rewrite <- E. unfold A. rewrite <- !app_assoc. cbn [app].
    by rewrite <- !app_assoc. }
  exists files, ts, repo, branch, oc, dl, dp, dw, fl, o.
  split_and!; [done|done| |done|done|done|done|done|done].
  unfold A. rewrite accepted_paths_app.
  by rewrite (no_accepted [KProbe] _ eq_refl (batch_head_probes dir files ts)).
Qed.

(** X18: in a batch run, a commit is attempted only after the manifest was
    built (the system information was obtained), written and removed again,
    each of these calls having returned; and after the commit the run only
    talks to the tracker. *)
Theorem commit_follows_manifest config results_dir logger t :
  let temp := path_join (resolved_results_dir config results_dir)
                        (lit "temp_metadata.json") in
  ∃ d, (upload_benchmark_results w config results_dir logger t).2 = t ++ d
       ∧ ∀ d1 e d2, d = d1 ++ e :: d2 → is_commit e = true →
           (∃ info, EvSystemInfo (Returns info) ∈ d1)
           ∧ (∃ md, EvWriteJson temp md (Returns tt) ∈ d1)
           ∧ EvRemove temp (Returns tt) ∈ d1
           ∧ Forall (λ e, allowed [KLog] e = true) d2.
Proof.
  intros temp.
  destruct (upload_benchmark_results_shape config results_dir logger t)
    as (d & Hd & Hshape).
  exists d. split; [done|]. intros d1 e d2 E He.
  destruct (batch_commit_place _ d d1 e d2 Hshape E He)
    as (files & ts & repo & branch & oc & dl & dp & dw & fl & o
        & -> & -> & _ & Hd2 & [[info Hinfo] (md & dw' & -> & Hrm)] & _).
  split_and!; [| | |done].
  - exists info. rewrite elem_of_app, elem_of_cons, !elem_of_app. auto.
  - exists md. rewrite elem_of_app, elem_of_cons, !elem_of_app.
    right. right. right. right. by left.
  - rewrite elem_of_app, elem_of_cons, !elem_of_app.
    right. right. right. right. by right.
Qed.

Lemma before_manifest_split (A B : trace) path md o :
  Forall (λ e, is_write_json e = false) A →
  before_manifest (A ++ EvWriteJson path md o :: B) = A.
Proof.
  induction 1 as [|e A He _ IH]; [done|].
  cbn [app before_manifest]. rewrite IH. by destruct e.
Qed.

(** X19: the message of the commit of a batch run is made of the time
    the run read from the clock, of the remote paths of the objects the
    store accepted before the commit, in their order, and of the result
    files whose upload failed, in their order: the files whose reading or
    uploading raised among the calls made before the manifest was written
    (the upload of the manifest itself is not counted). *)
Theorem commit_message_names_uploads config results_dir logger t :
  ∃ d, (upload_benchmark_results w config results_dir logger t).2 = t ++ d
       ∧ ∀ d1 repo branch message o d2,
           d = d1 ++ EvCommit repo branch message o :: d2 →
           ∃ ts,
             EvNow (lit "%Y%m%d_%H%M%S") ts ∈ d1
             ∧ message
               = commit_message_of ts (accepted_paths d1)
                                   (failed_uploads (before_manifest d1))
             ∧ (Forall (λ e, upload_failed e = false) d1 →
                failed_uploads (before_manifest d1) = []).
Proof.
  destruct (upload_benchmark_results_shape config results_dir logger t)
    as (d & Hd & Hshape).
  exists d. split; [done|]. intros d1 repo branch message o d2 E.
  destruct (batch_commit_place _ d d1 _ d2 Hshape E eq_refl)
    as (files & ts & repo' & branch' & oc & dl & dp & dw & fl & o'
        & -> & [= -> -> -> ->] & Hacc & _ & [_ (md & dw' & -> & _)] & Hfl
        & Hdl & Hdp & Hfailed).
  assert (before_manifest
            (batch_head (resolved_results_dir config results_dir) files ts
             ++ EvCreateBranch repo' branch' (lit "main") oc
                :: dl ++ dp
                   ++ EvWriteJson
                        (temp_metadata_file (resolved_results_dir config results_dir))
                        md (Returns ()) :: dw')
          = batch_head (resolved_results_dir config results_dir) files ts
            ++ EvCreateBranch repo' branch' (lit "main") oc :: dl ++ dp) as Hbefore.
  { etrans; [|apply (before_manifest_split _ dw'
                        (temp_metadata_file (resolved_results_dir config results_dir))
                        md (Returns ()))].
    - f_equal. rewrite <- !app_assoc. cbn [app]. by rewrite <- !app_assoc.
    - apply Forall_app. split; [by repeat constructor|].
      constructor; [done|]. apply Forall_app. split.
      + eapply Forall_impl; [exact Hdl|]. intros e He. by destruct e.
      + eapply Forall_impl; [exact Hdp|]. intros e He. by destruct e. }
  assert (failed_uploads
            (batch_head (resolved_results_dir config results_dir) files ts
             ++ EvCreateBranch repo' branch' (lit "main") oc :: dl ++ dp)
          = fl) as Hsame.
  { rewrite (failed_uploads_behind [KProbe]) by (by repeat constructor).
    change (EvCreateBranch repo' branch' (lit "main") oc :: dl ++ dp)
      with ([EvCreateBranch repo' branch' (lit "main") oc] ++ dl ++ dp).
    rewrite (failed_uploads_behind [KBranch]) by (by repeat constructor).
    by rewrite (failed_uploads_before [KProbe]). }
  exists ts. rewrite Hbefore, Hsame. split_and!.
  - apply elem_of_app. left. unfold batch_head. by repeat constructor.
  - by rewrite Hacc.
  - intros [_ [_ [H _]%Forall_app]%Forall_cons]%Forall_app. by apply Hfl.
Qed.

End BatchShape.

(** ** The exit status of the process *)

Section ExitStatus.

Variable w : World.

Lemma existsb_commit_app d1 d2 :
  existsb commit_obtained (d1 ++ d2)
  = existsb commit_obtained d1 || existsb commit_obtained d2.
Proof. apply existsb_app. Qed.

Lemma end_run_cases (l : MLflowLogger) t :
  ∃ d, Forall (λ e, is_commit e = false) d
       ∧ (end_run w l t = (Ret tt, t ++ d)
          ∨ end_run w l t = (Raise KeyboardInterrupt, t ++ d)).
Proof.
  unfold end_run, when. destruct (enabled l).
  - unfold try_except, ext.
    destruct (mlflow_end_run w t) as [[]|k|]; cbn;
      eexists; (split; [|(by left) || (by right)]); by repeat constructor.
  - exists []. rewrite app_nil_r. split; [done|by left].
Qed.

Lemma close_logger_cases (logger : option MLflowLogger) t :
  ∃ d, Forall (λ e, is_commit e = false) d
       ∧ ((match logger with Some l => end_run w l | None => ret tt end) t
          = (Ret tt, t ++ d)
          ∨ (match logger with Some l => end_run w l | None => ret tt end) t
            = (Raise KeyboardInterrupt, t ++ d)).
Proof.
  destruct logger as [l|]; [apply end_run_cases|].
  exists []. rewrite app_nil_r. split; [done|by left].
Qed.

(** The [except] clauses with [mlflow_logger] bound: the status is 1 or
    130, whatever [end_run] does. *)
Lemma main_except_cases {A} (logger : option MLflowLogger) e t :
  not_exit (Raise (A:=bool) e) →
  ∃ d, Forall (λ e, is_commit e = false) d
       ∧ (main_except w (A:=A) (Bound logger) e t).2 = t ++ d
       ∧ (exit_status (main_except w (A:=A) (Bound logger) e t).1 = 1%Z
          ∨ exit_status (main_except w (A:=A) (Bound logger) e t).1 = 130%Z).
Proof.
  intros He.
  destruct (close_logger_cases logger t) as (d & Hd & [E|E]).
  - exists d. split; [done|].
    destruct e as [k| |c]; [| |done]; cbn [main_except read_local];
      erewrite run_bind_ret by reflexivity;
      erewrite run_bind_ret by exact E; cbn; split; auto.
  - exists d. split; [done|].
    destruct e as [k| |c]; [| |done]; cbn [main_except read_local];
      erewrite run_bind_ret by reflexivity;
      erewrite run_bind_raise by exact E; cbn; split; auto.
Qed.

(** The [try] statement of the batch branch once [mlflow_logger] is bound. *)
Lemma batch_guarded_cases (logger : option MLflowLogger) (body : M trace bool) t r t' :
  body t = (r, t') → not_exit r →
  let run :=
    guarded w (A:=unit) (Bound logger)
      (let! success := body in
       match logger with Some l => end_run w l | None => ret tt end;;
       sys_exit (if success then 0 else 1)) t in
  ∃ d, Forall (λ e, is_commit e = false) d
       ∧ run.2 = t' ++ d
       ∧ (exit_status run.1 = 0%Z ∨ exit_status run.1 = 1%Z
          ∨ exit_status run.1 = 130%Z)
       ∧ (exit_status run.1 = 0%Z → r = Ret true).
Proof.
  intros E Hr. cbv zeta. unfold guarded. destruct r as [b|e].
  - erewrite run_bind_ret by exact E.
    destruct (close_logger_cases logger t') as (d & Hd & [E'|E']).
    + erewrite run_bind_ret by exact E'. exists d. unfold sys_exit, raise.
      cbn. split_and!; [done|done|destruct b; auto|by destruct b].
    + erewrite run_bind_raise by exact E'.
      destruct (main_except_cases (A:=unit) logger KeyboardInterrupt (t' ++ d) I)
        as (d' & Hd' & -> & Hs).
      exists (d ++ d'). rewrite app_assoc.
      split_and!; [by apply Forall_app|done|tauto|intros H0; lia].
  - erewrite run_bind_raise by exact E.
    destruct (main_except_cases (A:=unit) logger e t' Hr) as (d' & Hd' & -> & Hs).
    exists d'. split_and!; [done|done|tauto|intros H0; lia].
Qed.

(** X22: from the [try] statement of [main] on, that is once the
    arguments are parsed and the configuration is loaded, the process ends
    with status 0, 1 or 130, in either mode and whatever the store, the
    tracker and the file system do; status 0 is reached only when a commit
    call returned an id that is not empty. *)
Theorem exit_status_reflects_commit args config :
  let run := run_main w args config in
  (run.1 = 0%Z ∨ run.1 = 1%Z ∨ run.1 = 130%Z)
  ∧ (run.1 = 0%Z → existsb commit_obtained run.2 = true).
Proof.
  cbv zeta. destruct (str_truthy (args_single_file args)) eqn:Hmode.
  - destruct (main_single_run w args config Hmode) as (r & d & E & _ & ->).
    destruct (upload_single_result_post w config (default [] (args_single_file args))
                (args_model_name args) []) as (d' & Hd' & _ & Hiff & _).
    rewrite E in Hd', Hiff. cbn [fst snd app] in *. subst d'.
    split.
    + destruct r as [[]|]; auto.
    + intros H0. apply Hiff. by destruct r as [[]|].
  - assert (∀ logger t1,
              let run :=
                guarded w (A:=unit) (Bound logger)
                  (let! success :=
                     upload_benchmark_results w config (args_results_dir args) logger in
                   match logger with Some l => end_run w l | None => ret tt end;;
                   sys_exit (if success then 0 else 1)) t1 in
              (exit_status run.1 = 0%Z ∨ exit_status run.1 = 1%Z
               ∨ exit_status run.1 = 130%Z)
              ∧ (exit_status run.1 = 0%Z → existsb commit_obtained run.2 = true))
      as Hbody.
    { intros logger t1. cbv zeta.
      destruct (upload_benchmark_results w config (args_results_dir args) logger t1)
        as [r2 t2] eqn:E2.
      destruct (wp_run _ _ _ _ _
                  (upload_benchmark_results_spec w config (args_results_dir args)
                     logger t1) E2) as (d2 & -> & _ & _ & Hiff & Hr2).
      destruct (batch_guarded_cases logger _ _ _ _ E2 Hr2) as (d & Hd & -> & Hs & H0).
      split; [done|]. intros Hz. apply H0, Hiff in Hz as [Hz _].
      by rewrite !existsb_commit_app, Hz, orb_true_r. }
    split.
    + unfold run_main, main. rewrite Hmode.
      destruct (args_no_mlflow args) eqn:Hno; cbn [negb].
      * erewrite run_bind_ret by reflexivity.
        destruct (Hbody None []) as [H _].
        by destruct (guarded w _ _ _).
      * destruct (MLflowLogger_init w config []) as [[l|e] t1] eqn:E1.
        -- destruct (confined_run _ _ _ _ _ (MLflowLogger_init_confined w _) E1)
             as (d1 & -> & Hd1 & _). cbn [app] in *.
           erewrite (run_bind_ret (guarded _ _ _)); cycle 1.
           { unfold guarded. by erewrite run_bind_ret by exact E1. }
           destruct (Hbody (Some l) d1) as [H _].
           by destruct (guarded w _ _ _).
        -- destruct (main_init_failed w args config e t1 Hmode Hno E1)
             as (_ & He & E).
           unfold run_main, main in E. rewrite Hmode, Hno in E. cbn [negb] in E.
           rewrite E. cbn [fst]. destruct e as [k| |c]; cbn; auto. done.
    + unfold run_main, main. rewrite Hmode.
      destruct (args_no_mlflow args) eqn:Hno; cbn [negb].
      * erewrite run_bind_ret by reflexivity.
        destruct (Hbody None []) as [_ H].
        by destruct (guarded w _ _ _).
      * destruct (MLflowLogger_init w config []) as [[l|e] t1] eqn:E1.
        -- destruct (confined_run _ _ _ _ _ (MLflowLogger_init_confined w _) E1)
             as (d1 & -> & Hd1 & _). cbn [app] in *.
           erewrite (run_bind_ret (guarded _ _ _)); cycle 1.
           { unfold guarded. by erewrite run_bind_ret by exact E1. }
           destruct (Hbody (Some l) d1) as [_ H].
           by destruct (guarded w _ _ _).
        -- destruct (main_init_failed w args config e t1 Hmode Hno E1)
             as (_ & He & E).
           unfold run_main, main in E. rewrite Hmode, Hno in E. cbn [negb] in E.
           rewrite E. cbn [fst]. destruct e as [k| |c]; cbn; [lia|lia|done].
Qed.

End ExitStatus.

(** ** Runs without a tracker *)

Section Untracked.

Variable w : World.

Lemma silent_confined {A} ks (m : M trace A) a :
  (∀ t, m t = (Ret a, t)) → confined ks m.
Proof.
  intros H t. exists []. rewrite H, app_nil_r. by split.
Qed.

Lemma upload_benchmark_results_untracked config dir logger :
  tracker_off logger = true →
  confined untracked (upload_benchmark_results w config dir logger).
Proof.
  intros Hoff. unfold untracked.
  destruct logger as [l|]; cbn in Hoff.
  - apply negb_true_iff in Hoff.
    assert (∀ name tags, confined untracked (start_run w l name tags)) as Hstart.
    { intros name tags. apply (silent_confined _ _ None). intros t.
      by destruct (disabled_tracker_silent w l name tags [] [] [] None [] [] t Hoff)
        as (? & _). }
    assert (∀ params, confined untracked (log_params w l params)) as Hparams.
    { intros params. apply (silent_confined _ _ tt). intros t.
      by destruct (disabled_tracker_silent w l [] [] params [] [] None [] [] t Hoff)
        as (_ & ? & _). }
    assert (∀ metrics, confined untracked (log_metrics w l metrics)) as Hmetrics.
    { intros metrics. apply (silent_confined _ _ tt). intros t.
      by destruct (disabled_tracker_silent w l [] [] [] metrics [] None [] [] t Hoff)
        as (_ & _ & ? & _). }
    assert (∀ path lp, confined untracked (log_artifacts w l path lp)) as Hart.
    { intros path lp. apply (silent_confined _ _ tt). intros t.
      by destruct (disabled_tracker_silent w l [] [] [] [] path lp [] [] t Hoff)
        as (_ & _ & _ & ? & _). }
    assert (∀ file bench, confined untracked (log_benchmark_results w l file bench))
      as Hres.
    { intros file bench. apply (silent_confined _ _ tt). intros t.
      by destruct (disabled_tracker_silent w l [] [] [] [] [] None file bench t Hoff)
        as (_ & _ & _ & _ & ? & _). }
    unfold untracked in *.
    unfold upload_benchmark_results, get_system_info, upload_loop, upload_one,
      publish_metadata, commit_and_report, final_metrics, truediv, to_float, py_len,
      OverflowError, ZeroDivisionError.
    repeat first [apply Hstart | apply Hparams | apply Hmetrics | apply Hart
                 | apply Hres | confine_step].
  - unfold upload_benchmark_results, get_system_info, upload_loop, upload_one,
      publish_metadata, commit_and_report, final_metrics, truediv, to_float, py_len,
      OverflowError, ZeroDivisionError.
    confine.
Qed.

(** The [try] statement of the batch branch when the logger is absent or
    disabled: nothing is added to what the publishing step did. *)
Lemma guarded_untracked (logger : option MLflowLogger) (body : M trace bool) t :
  tracker_off logger = true →
  (guarded w (A:=unit) (Bound logger)
     (let! success := body in
      match logger with Some l => end_run w l | None => ret tt end;;
      sys_exit (if success then 0 else 1)) t).2
  = (body t).2.
Proof.
  intros Hoff.
  assert (∀ t', (match logger with Some l => end_run w l | None => ret tt end) t'
                = (Ret tt, t')) as Hclose.
  { intros t'. destruct logger as [l|]; [|done]. cbn in Hoff.
    apply negb_true_iff in Hoff. unfold end_run, when. by rewrite Hoff. }
  unfold guarded, bind. destruct (body t) as [[b|e] t']; cbn.
  - by rewrite Hclose.
  - destruct e as [k| |c]; cbn [main_except read_local]; [| |done];
      unfold bind, ret; by rewrite Hclose.
Qed.

(** X23: with [--no-mlflow], in single-file mode, and when the [mlflow]
    package is missing, the process makes no call to the tracker at all: it
    sets no tracking URI, experiment or credential variable, starts and ends
    no run, logs nothing and does not read the result files to compute
    metrics. *)
Theorem tracker_is_optional args config :
  tracker_unused w args = true →
  Forall (λ e, allowed untracked e = true) (run_main w args config).2.
Proof.
  intros Hoff. destruct (str_truthy (args_single_file args)) eqn:Hmode.
  - destruct (main_single_run w args config Hmode) as (r & d & _ & Hd & ->).
    eapply Forall_impl; [exact Hd|]. intros e.
    by apply (allowed_sub [KProbe; KBranch; KUpload; KCommit]).
  - assert (∃ logger,
              tracker_off logger = true
              ∧ guarded w (Bound None)
                  (if negb (args_no_mlflow args)
                   then let! l := MLflowLogger_init w config in ret (Some l)
                   else ret None) []
                = (Ret logger, [])) as (logger & Hlogger & E).
    { unfold tracker_unused in Hoff. rewrite Hmode, orb_false_r in Hoff.
      destruct (args_no_mlflow args); cbn [negb].
      - by exists None.
      - cbn in Hoff. unfold guarded, bind, MLflowLogger_init. rewrite Hoff.
        eexists. split; cycle 1. { cbn. reflexivity. } done. }
    unfold run_main, main. rewrite Hmode.
    erewrite run_bind_ret by exact E.
    pose proof (guarded_untracked logger
                  (upload_benchmark_results w config (args_results_dir args) logger)
                  [] Hlogger) as Hg.
    assert (∀ g : res unit * trace, (let (r, t) := g in (exit_status r, t)).2 = g.2)
      as Hsnd by (by intros []).
    rewrite Hsnd, Hg.
    destruct (upload_benchmark_results_untracked config (args_results_dir args)
                logger Hlogger []) as (d & Hd & H & _).
    by rewrite Hd.
Qed.

End Untracked.

(** A batch run with [--no-mlflow] on a store that accepts everything. *)
Lemma tracker_is_optional_witness :
  tracker_unused nominal_world untracked_args = true
  ∧ Forall (λ e, allowed untracked e = true)
           (run_main nominal_world untracked_args full_config).2.
Proof.
  split; [reflexivity|].
  apply (tracker_is_optional nominal_world untracked_args full_config).
  reflexivity.
Defined.
